(** * VelvetVault: the bookmark manager of [app/page.tsx]

    A shallow embedding of the state, the mutation handlers and the AI
    gateway of the single React component [VelvetVault], and the
    properties its specification states about them.

    Conventions.
    - A JavaScript string is the list of its UTF-16 code units.
    - A JavaScript value that the code reads without checking (the result
      of [JSON.parse], the text of an AI reply) is a [json] value.
    - A handler is a function from the values of the state variables at
      the render it closes over, and from what it reads from its
      environment (the clock, [window.confirm], the network), to the state
      after the queued state updates are applied. A handler that a later
      callback runs takes both the state it closes over and the current
      one.
    - Platform built-ins the component calls are modelled from their
      standards ([JSON.parse], [String.prototype.trim], regular expressions)
      or taken as parameters ([new URL(..).hostname], [fetch]). *)

From Stdlib Require Import ZArith NArith Ascii String DecimalPos.
From stdpp Require Import gmap list.

Local Open Scope N_scope.

(* ===================================================================== *)
(** * JavaScript strings *)
(* ===================================================================== *)

Module JsString.

(** A string is a sequence of 16-bit code units. *)
Definition t : Type := list N.

(** The code units of an ASCII literal. *)
Fixpoint js (s : string) : t :=
  match s with
  | EmptyString => []
  | String a r => N_of_ascii a :: js r
  end.

(** The code units of an ASCII literal in which the apostrophe stands
    for the quotation mark. *)
Definition dq (s : string) : t :=
  map (fun c => if c =? 39 then 34 else c) (js s).

(** ["```json"] and ["```"], the Markdown code-fence markers. *)
Definition fence : t := [96; 96; 96].
Definition fence_json : t := fence ++ js "json".

(** [ToBoolean] on a string: the empty string is the only falsy one. *)
Definition truthy (s : t) : bool :=
  match s with [] => false | _ :: _ => true end.

Definition eqb (a b : t) : bool := bool_decide (a = b).

(** [WhiteSpace] and [LineTerminator] code points of ECMA-262, the
    characters [String.prototype.trim] removes. *)
Definition is_white_space (c : N) : bool :=
  ((9 <=? c) && (c <=? 13))
  || (c =? 32) || (c =? 160) || (c =? 5760)
  || ((8192 <=? c) && (c <=? 8202))
  || (c =? 8232) || (c =? 8233) || (c =? 8239) || (c =? 8287)
  || (c =? 12288) || (c =? 65279).

Fixpoint trim_start (s : t) : t :=
  match s with
  | [] => []
  | c :: r => if is_white_space c then trim_start r else s
  end.

Definition trim_end (s : t) : t := rev (trim_start (rev s)).

(** [s.trim()] *)
Definition trim (s : t) : t := trim_end (trim_start s).

(** [s.startsWith(p)] *)
Fixpoint starts_with (p s : t) : bool :=
  match p, s with
  | [], _ => true
  | _ :: _, [] => false
  | a :: p', b :: s' => (a =? b) && starts_with p' s'
  end.

(** [s.includes(p)] *)
Fixpoint includes (p s : t) : bool :=
  starts_with p s
  || match s with [] => false | _ :: r => includes p r end.

(** [s.replace(p, r)] for a string pattern [p] and a replacement [r]
    without [$]: the first occurrence of [p] is replaced. *)
Fixpoint replace_first (p r s : t) : t :=
  if starts_with p s then r ++ drop (length p) s
  else match s with
       | [] => []
       | c :: s' => c :: replace_first p r s'
       end.

(** Canonicalisation of a code unit under the [i] flag of a regular
    expression without the [u] flag, restricted to what can match an
    ASCII letter: only the two cases of that letter do. *)
Definition ascii_lower (c : N) : N :=
  if (65 <=? c) && (c <=? 90) then c + 32 else c.

(** Does [s] start with the lower-case ASCII word [p], whatever the
    case of the letters of [s]? *)
Fixpoint starts_with_ci (p s : t) : bool :=
  match p, s with
  | [], _ => true
  | _ :: _, [] => false
  | a :: p', b :: s' => (a =? ascii_lower b) && starts_with_ci p' s'
  end.

(** [s.replace(/```json|```/g, '')]: scanning from the left, every
    match of the first alternative, else of the second, is removed.
    [skip] counts the code units of a match still to be dropped. *)
Fixpoint strip_fences_from (skip : nat) (s : t) : t :=
  match s with
  | [] => []
  | c :: r =>
      match skip with
      | S k => strip_fences_from k r
      | O =>
          if starts_with fence_json s then strip_fences_from 6 r
          else if starts_with fence s then strip_fences_from 2 r
          else c :: strip_fences_from 0 r
      end
  end.

Definition strip_fences (s : t) : t := strip_fences_from 0 s.

(** [/^https?:\/\//i.test(url)] *)
Definition has_http_scheme (url : t) : bool :=
  starts_with_ci (js "http://") url || starts_with_ci (js "https://") url.

Fixpoint uint_digits (d : Decimal.uint) : t :=
  match d with
  | Decimal.Nil => []
  | Decimal.D0 r => 48 :: uint_digits r
  | Decimal.D1 r => 49 :: uint_digits r
  | Decimal.D2 r => 50 :: uint_digits r
  | Decimal.D3 r => 51 :: uint_digits r
  | Decimal.D4 r => 52 :: uint_digits r
  | Decimal.D5 r => 53 :: uint_digits r
  | Decimal.D6 r => 54 :: uint_digits r
  | Decimal.D7 r => 55 :: uint_digits r
  | Decimal.D8 r => 56 :: uint_digits r
  | Decimal.D9 r => 57 :: uint_digits r
  end.

(** [n.toString()] for an integer Number below [10^21], as the time
    values are: its decimal digits. *)
Definition of_integer (n : Z) : t :=
  match n with
  | Z0 => [48]
  | Zpos p => uint_digits (Pos.to_uint p)
  | Zneg p => 45 :: uint_digits (Pos.to_uint p)
  end.

End JsString.

Abbreviation jsstring := JsString.t.
Abbreviation js := JsString.js.
Arguments JsString.js _%_string.
Arguments JsString.dq _%_string.

(* ===================================================================== *)
(** * JSON values and [JSON.parse] *)
(* ===================================================================== *)

Module JSON.

(** A value as [JSON.parse] builds it. A number is kept as the decimal
    [m * 10^e] its literal denotes; the Number it stands for is the
    binary64 value nearest to it. An object keeps its members in source
    order, duplicates included; a property read returns the last one. *)
#[warnings="-register-all"]
Inductive json : Type :=
| JNull
| JBool (b : bool)
| JNum (m e : Z)
| JStr (s : jsstring)
| JArr (items : list json)
| JObj (members : list (jsstring * json)).

(** ** Lexical analysis (ECMA-404) *)

Inductive token : Type :=
| TLBrace | TRBrace | TLBracket | TRBracket | TColon | TComma
| TScalar (v : json).

Definition is_json_space (c : N) : bool :=
  (c =? 32) || (c =? 9) || (c =? 10) || (c =? 13).

Definition is_digit (c : N) : bool := (48 <=? c) && (c <=? 57).

Definition digit_value (c : N) : Z := Z.of_N c - 48.

Definition hex_value (c : N) : option N :=
  if is_digit c then Some (c - 48)
  else if (97 <=? c) && (c <=? 102) then Some (c - 87)
  else if (65 <=? c) && (c <=? 70) then Some (c - 55)
  else None.

(** The characters of the literals [true], [false], [null] and of
    numbers: a maximal run of them is one lexeme, since no two scalars
    may follow one another without a separator. *)
Definition is_word_char (c : N) : bool :=
  is_digit c
  || ((97 <=? c) && (c <=? 122)) || ((65 <=? c) && (c <=? 90))
  || (c =? 43) || (c =? 45) || (c =? 46).

Fixpoint digits_value (acc : Z) (ds : list N) : Z :=
  match ds with
  | [] => acc
  | d :: r => digits_value (10 * acc + digit_value d) r
  end.

Fixpoint span_digits (s : list N) : list N * list N :=
  match s with
  | c :: r =>
      if is_digit c then let '(ds, rest) := span_digits r in (c :: ds, rest)
      else ([], s)
  | [] => ([], [])
  end.

(** exp ::= (e|E) (+|-)? digit+ , at the end of the lexeme *)
Definition number_exp (s : list N) : option Z :=
  match s with
  | [] => Some 0%Z
  | c :: r =>
      if (c =? 101) || (c =? 69) then
        let '(neg, r1) :=
          match r with
          | x :: r' =>
              if x =? 45 then (true, r')
              else if x =? 43 then (false, r') else (false, r)
          | [] => (false, r)
          end in
        match span_digits r1 with
        | ((_ :: _) as ds, []) =>
            let v := digits_value 0 ds in
            Some (if neg then (- v)%Z else v)
        | _ => None
        end
      else None
  end.

(** frac ::= . digit+ , followed by the optional exponent *)
Definition number_frac (s : list N) : option (list N * Z) :=
  match s with
  | c :: r =>
      if c =? 46 then
        match span_digits r with
        | ((_ :: _) as ds, rest) =>
            match number_exp rest with
            | Some x => Some (ds, x)
            | None => None
            end
        | _ => None
        end
      else
        match number_exp s with
        | Some x => Some ([], x)
        | None => None
        end
  | [] => Some ([], 0%Z)
  end.

(** number ::= -? (0 | digit1-9 digit* ) frac? exp? *)
Definition number_lexeme (w : list N) : option json :=
  let '(neg, w1) :=
    match w with
    | c :: r => if c =? 45 then (true, r) else (false, w)
    | [] => (false, w)
    end in
  match span_digits w1 with
  | ((d :: ds) as int, rest) =>
      if (d =? 48) && JsString.truthy ds then None
      else
        match number_frac rest with
        | Some (fr, x) =>
            let m := digits_value 0 (int ++ fr) in
            Some (JNum (if neg then (- m)%Z else m)
                       (x - Z.of_nat (length fr)))
        | None => None
        end
  | _ => None
  end.

Definition word_lexeme (w : list N) : option json :=
  if JsString.eqb w (js "true") then Some (JBool true)
  else if JsString.eqb w (js "false") then Some (JBool false)
  else if JsString.eqb w (js "null") then Some JNull
  else number_lexeme w.

(** The lexer reads one code unit at a time. *)
Inductive lex_state : Type :=
| LIdle
| LWord (rev_chars : list N)
| LString (rev_chars : list N)
| LEscape (rev_chars : list N)
| LUnicode (rev_chars : list N) (hex : list N).

Definition escape_char (c : N) : option N :=
  if c =? 34 then Some 34          (* quotation mark *)
  else if c =? 92 then Some 92     (* reverse solidus *)
  else if c =? 47 then Some 47     (* solidus *)
  else if c =? 98 then Some 8      (* backspace *)
  else if c =? 102 then Some 12    (* form feed *)
  else if c =? 110 then Some 10    (* line feed *)
  else if c =? 114 then Some 13    (* carriage return *)
  else if c =? 116 then Some 9     (* tab *)
  else None.

Definition lex_idle (rev_toks : list token) (c : N)
  : option (lex_state * list token) :=
  if is_json_space c then Some (LIdle, rev_toks)
  else if c =? 123 then Some (LIdle, TLBrace :: rev_toks)
  else if c =? 125 then Some (LIdle, TRBrace :: rev_toks)
  else if c =? 91 then Some (LIdle, TLBracket :: rev_toks)
  else if c =? 93 then Some (LIdle, TRBracket :: rev_toks)
  else if c =? 58 then Some (LIdle, TColon :: rev_toks)
  else if c =? 44 then Some (LIdle, TComma :: rev_toks)
  else if c =? 34 then Some (LString [], rev_toks)
  else if is_word_char c then Some (LWord [c], rev_toks)
  else None.

Definition lex_step (st : lex_state) (rev_toks : list token) (c : N)
  : option (lex_state * list token) :=
  match st with
  | LIdle => lex_idle rev_toks c
  | LWord w =>
      if is_word_char c then Some (LWord (c :: w), rev_toks)
      else match word_lexeme (rev w) with
           | Some v => lex_idle (TScalar v :: rev_toks) c
           | None => None
           end
  | LString s =>
      if c =? 34 then Some (LIdle, TScalar (JStr (rev s)) :: rev_toks)
      else if c =? 92 then Some (LEscape s, rev_toks)
      else if c <? 32 then None
      else Some (LString (c :: s), rev_toks)
  | LEscape s =>
      if c =? 117 then Some (LUnicode s [], rev_toks)
      else match escape_char c with
           | Some x => Some (LString (x :: s), rev_toks)
           | None => None
           end
  | LUnicode s hex =>
      match hex_value c with
      | None => None
      | Some h =>
          match hex with
          | [h3; h2; h1] =>
              Some (LString ((((h1 * 16 + h2) * 16 + h3) * 16 + h) :: s),
                    rev_toks)
          | _ => Some (LUnicode s (h :: hex), rev_toks)
          end
      end
  end.

Fixpoint lex_from (st : lex_state) (rev_toks : list token) (s : list N)
  : option (list token) :=
  match s with
  | c :: r =>
      match lex_step st rev_toks c with
      | Some (st', toks') => lex_from st' toks' r
      | None => None
      end
  | [] =>
      match st with
      | LIdle => Some (rev rev_toks)
      | LWord w =>
          match word_lexeme (rev w) with
          | Some v => Some (rev (TScalar v :: rev_toks))
          | None => None
          end
      | _ => None
      end
  end.

Definition lex (s : jsstring) : option (list token) := lex_from LIdle [] s.

(** ** Syntactic analysis: a pushdown automaton over the tokens *)

(** An enclosing array or object waiting for the value being read. *)
Inductive frame : Type :=
| FArr (rev_items : list json)
| FObj (rev_members : list (jsstring * json)) (key : jsstring).

Inductive parse_state : Type :=
| PValue                                        (* a value must follow *)
| PArrFirst                                     (* after [ *)
| PArrNext (rev_items : list json)              (* after an element *)
| PObjFirst                                     (* after { *)
| PObjKey (rev_members : list (jsstring * json))              (* after , *)
| PObjColon (rev_members : list (jsstring * json)) (key : jsstring)
| PObjNext (rev_members : list (jsstring * json))     (* after a member *)
| PDone (v : json).

Definition complete (v : json) (stack : list frame)
  : parse_state * list frame :=
  match stack with
  | [] => (PDone v, [])
  | FArr acc :: st => (PArrNext (v :: acc), st)
  | FObj acc k :: st => (PObjNext ((k, v) :: acc), st)
  end.

Definition parse_value_token (stack : list frame) (tok : token)
  : option (parse_state * list frame) :=
  match tok with
  | TScalar v => Some (complete v stack)
  | TLBracket => Some (PArrFirst, stack)
  | TLBrace => Some (PObjFirst, stack)
  | _ => None
  end.

Definition parse_step (ps : parse_state) (stack : list frame) (tok : token)
  : option (parse_state * list frame) :=
  match ps with
  | PValue => parse_value_token stack tok
  | PArrFirst =>
      match tok with
      | TRBracket => Some (complete (JArr []) stack)
      | _ => parse_value_token (FArr [] :: stack) tok
      end
  | PArrNext acc =>
      match tok with
      | TComma => Some (PValue, FArr acc :: stack)
      | TRBracket => Some (complete (JArr (rev acc)) stack)
      | _ => None
      end
  | PObjFirst =>
      match tok with
      | TRBrace => Some (complete (JObj []) stack)
      | TScalar (JStr k) => Some (PObjColon [] k, stack)
      | _ => None
      end
  | PObjKey acc =>
      match tok with
      | TScalar (JStr k) => Some (PObjColon acc k, stack)
      | _ => None
      end
  | PObjColon acc k =>
      match tok with
      | TColon => Some (PValue, FObj acc k :: stack)
      | _ => None
      end
  | PObjNext acc =>
      match tok with
      | TComma => Some (PObjKey acc, stack)
      | TRBrace => Some (complete (JObj (rev acc)) stack)
      | _ => None
      end
  | PDone _ => None
  end.

Fixpoint parse_tokens (ps : parse_state) (stack : list frame)
    (toks : list token) : option json :=
  match toks with
  | tok :: r =>
      match parse_step ps stack tok with
      | Some (ps', stack') => parse_tokens ps' stack' r
      | None => None
      end
  | [] => match ps with PDone v => Some v | _ => None end
  end.

(** [JSON.parse(text)]: [None] stands for the [SyntaxError] it throws. *)
Definition parse (text : jsstring) : option json :=
  match lex text with
  | Some toks => parse_tokens PValue [] toks
  | None => None
  end.

(** ** Reading the parsed value *)

(** The Number nearest to [m * 10^e] is zero when the magnitude is at
    most [2^-1075], half the least subnormal (a tie goes to the even
    neighbour, zero). *)
Definition number_is_zero (m e : Z) : bool :=
  (m =? 0)%Z
  || ((e <? 0)%Z && (Z.abs m * 2 ^ 1075 <=? 10 ^ (- e))%Z).

(** [ToBoolean] *)
Definition truthy (v : json) : bool :=
  match v with
  | JNull => false
  | JBool b => b
  | JNum m e => negb (number_is_zero m e)
  | JStr s => JsString.truthy s
  | JArr _ | JObj _ => true
  end.

(** The member an object holds for [k]: the last one of that name. *)
Fixpoint get_member (k : jsstring) (ms : list (jsstring * json))
  : option json :=
  match ms with
  | [] => None
  | (k', v) :: r =>
      match get_member k r with
      | Some w => Some w
      | None => if JsString.eqb k' k then Some v else None
      end
  end.

(** [v.name] on a value that is not [null], for a [name] that is neither
    an array index nor a member of a built-in prototype, as are all the
    names the component reads. [None] stands for [undefined]. *)
Definition get (name : jsstring) (v : json) : option json :=
  match v with
  | JObj ms => get_member name ms
  | _ => None
  end.

(** [v[0]] on a value that is not [null]. *)
Definition get0 (v : json) : option json :=
  match v with
  | JArr items => head items
  | JStr s => match s with c :: _ => Some (JStr [c]) | [] => None end
  | JObj ms => get_member [48] ms
  | _ => None
  end.

(** [o?.p]: [undefined] when [o] is [null] or [undefined]. *)
Definition optional (read : json -> option json) (o : option json)
  : option json :=
  match o with
  | None | Some JNull => None
  | Some v => read v
  end.

(** ** [JSON.stringify] *)

(** [join sep parts]: the parts with [sep] between them. *)
Definition join {A} (sep : A) (parts : list (list A)) : list A :=
  match parts with
  | [] => []
  | p :: r => p ++ flat_map (fun x => sep :: x) r
  end.

Definition is_leading_surrogate (c : N) : bool :=
  (55296 <=? c) && (c <=? 56319).

Definition is_trailing_surrogate (c : N) : bool :=
  (56320 <=? c) && (c <=? 57343).

Definition hex_digit (d : N) : N := if d <? 10 then 48 + d else 87 + d.

(** [UnicodeEscape]: a reverse solidus, [u] and four lower-case
    hexadecimal digits. *)
Definition unicode_escape (c : N) : list N :=
  [92; 117; hex_digit (c / 4096); hex_digit ((c / 256) mod 16);
   hex_digit ((c / 16) mod 16); hex_digit (c mod 16)].

(** What [QuoteJSONString] writes for a code unit that is no surrogate. *)
Definition quote_unit (c : N) : list N :=
  if c =? 8 then [92; 98]
  else if c =? 9 then [92; 116]
  else if c =? 10 then [92; 110]
  else if c =? 12 then [92; 102]
  else if c =? 13 then [92; 114]
  else if c =? 34 then [92; 34]
  else if c =? 92 then [92; 92]
  else if c <? 32 then unicode_escape c
  else [c].

(** The inside of the quoted string: a surrogate pair is written as it
    is, a surrogate that stands alone is escaped. *)
Fixpoint quote_units (s : list N) : list N :=
  match s with
  | [] => []
  | c :: r =>
      if is_leading_surrogate c then
        match r with
        | d :: r' =>
            if is_trailing_surrogate d then c :: d :: quote_units r'
            else unicode_escape c ++ quote_units r
        | [] => unicode_escape c
        end
      else if is_trailing_surrogate c then unicode_escape c ++ quote_units r
      else quote_unit c ++ quote_units r
  end.

(** [QuoteJSONString] *)
Definition quote (s : jsstring) : jsstring := 34 :: quote_units s ++ [34].

Section Stringify.

(** What [JSON.stringify] writes for the Number nearest to [m * 10^e]:
    [Number::toString] of it, or [null] when it is not finite. *)
Variable number_text : Z -> Z -> jsstring.

(** [JSON.stringify(v)] without replacer or indentation, for a value
    whose objects hold members of distinct names, none of them an array
    index, so that they are written in the order they are held. *)
Fixpoint stringify (v : json) : jsstring :=
  match v with
  | JNull => js "null"
  | JBool true => js "true"
  | JBool false => js "false"
  | JNum m e => number_text m e
  | JStr s => quote s
  | JArr items => 91 :: join 44 (map stringify items) ++ [93]
  | JObj ms =>
      123 :: join 44 (map (fun p => quote p.1 ++ 58 :: stringify p.2) ms)
      ++ [125]
  end.

End Stringify.

(** A value that holds no number. *)
Fixpoint number_free (v : json) : bool :=
  match v with
  | JNum _ _ => false
  | JArr items => forallb number_free items
  | JObj ms => forallb (fun p => number_free p.2) ms
  | _ => true
  end.

(** The tokens of the text [stringify] writes. *)
Fixpoint tokens (v : json) : list token :=
  match v with
  | JArr items => TLBracket :: join TComma (map tokens items) ++ [TRBracket]
  | JObj ms =>
      TLBrace
      :: join TComma
           (map (fun p => TScalar (JStr p.1) :: TColon :: tokens p.2) ms)
      ++ [TRBrace]
  | _ => [TScalar v]
  end.

(** The text that follows a literal must not go on with its letters. *)
Definition delimited (rest : list N) : Prop :=
  match rest with
  | [] => True
  | c :: _ => is_word_char c = false
  end.

(** The lexer turns [text], wherever it stands, into the tokens [out]. *)
Definition lexes (text : list N) (out : list token) : Prop :=
  forall acc rest,
    delimited rest ->
    lex_from LIdle acc (text ++ rest) = lex_from LIdle (rev out ++ acc) rest.

(** The parser where a value must follow. *)
Definition parse_value (stack : list frame) (toks : list token)
  : option json :=
  match toks with
  | tok :: r =>
      match parse_value_token stack tok with
      | Some (ps, stack') => parse_tokens ps stack' r
      | None => None
      end
  | [] => None
  end.

(** The parser going on from a state and its stack. *)
Definition resume (p : parse_state * list frame) (toks : list token)
  : option json :=
  parse_tokens p.1 p.2 toks.

End JSON.

Export JSON(json(..)).
(* ===================================================================== *)
(** * Control flow: normal and abrupt completion *)
(* ===================================================================== *)

Inductive JsError : Type :=
| TypeError
| SyntaxError
| ReferenceError
| NetworkError
| ApiError (status : N).

(** What running a piece of code ends in: a value, or a thrown exception. *)
Inductive Completion (A : Type) : Type :=
| Normal (a : A)
| Throw (e : JsError).

Arguments Normal {A} a.
Arguments Throw {A} e.

#[global] Instance Completion_ret : MRet Completion := fun A a => Normal a.

#[global] Instance Completion_bind : MBind Completion :=
  fun A B k c =>
    match c with
    | Normal a => k a
    | Throw e => Throw e
    end.

(** [try { body } catch (e) { handler }] *)
Definition try_catch {A} (body : Completion A) (handler : JsError -> A) : A :=
  match body with
  | Normal a => a
  | Throw e => handler e
  end.

(** [JSON.parse] as the code calls it. *)
Definition JSON_parse (text : jsstring) : Completion json :=
  match JSON.parse text with
  | Some v => Normal v
  | None => Throw SyntaxError
  end.

(** [v.name] where [v] may be [null]. *)
Definition member (name : jsstring) (v : json) : Completion (option json) :=
  match v with
  | JNull => Throw TypeError
  | _ => Normal (JSON.get name v)
  end.

(** [ToBoolean] of a value that may be [undefined]. *)
Definition truthy (o : option json) : bool :=
  match o with
  | Some v => JSON.truthy v
  | None => false
  end.

(** [ToBoolean] of a [string | null]. *)
Definition truthy_id (o : option jsstring) : bool :=
  match o with
  | Some s => JsString.truthy s
  | None => false
  end.

(* ===================================================================== *)
(** * Data model *)
(* ===================================================================== *)

Inductive MediaType : Type := image | video | voice.

Definition MediaType_name (t : MediaType) : jsstring :=
  match t with
  | image => js "image"
  | video => js "video"
  | voice => js "voice"
  end.

Module MediaItem.
Record t : Type := mk {
  id : jsstring;
  type : MediaType;
  content : jsstring;
  createdAt : jsstring
}.
End MediaItem.

(** [title] and [description] hold what the form state holds when the
    bookmark is saved: a string the user typed, or whatever truthy value
    the AI reply carried under that name. *)
Module Bookmark.
Record t : Type := mk {
  id : jsstring;
  title : json;
  url : jsstring;
  description : json;
  createdAt : jsstring;
  media : list MediaItem.t
}.

(** [{ ...b, media: m }] *)
Definition with_media (m : list MediaItem.t) (b : t) : t :=
  mk (id b) (title b) (url b) (description b) (createdAt b) m.
End Bookmark.

Module Folder.
Record t : Type := mk {
  id : jsstring;
  name : jsstring;
  password : jsstring;
  bookmarks : list Bookmark.t
}.

(** [{ ...f, bookmarks: bs }] *)
Definition with_bookmarks (bs : list Bookmark.t) (f : t) : t :=
  mk (id f) (name f) (password f) bs.
End Folder.

Inductive ToastType : Type := success | error.

Module ToastState.
Record t : Type := mk { msg : jsstring; type : ToastType }.
End ToastState.

Inductive ChatRole : Type := user | model.

Module ChatMessage.
Record t : Type := mk { role : ChatRole; text : json }.
End ChatMessage.

Abbreviation MediaItem := MediaItem.t.
Abbreviation Bookmark := Bookmark.t.
Abbreviation Folder := Folder.t.
Abbreviation ToastState := ToastState.t.
Abbreviation ChatMessage := ChatMessage.t.

(* ===================================================================== *)
(** * Application state *)
(* ===================================================================== *)

(** The state variables of the component, one field per [useState];
    [searchQuery], which nothing sets, is left out. The open/closed flags
    of the dialogs, the form inputs and the AI flags are grouped. *)

Module Modals.
Record t : Type := mk {
  isAddFolderModalOpen : bool;
  isAddBookmarkModalOpen : bool;
  isUnlockModalOpen : bool;
  isDetailModalOpen : bool;
  isOracleOpen : bool
}.
Definition setAddFolderModalOpen v (m : t) :=
  mk v (isAddBookmarkModalOpen m) (isUnlockModalOpen m)
     (isDetailModalOpen m) (isOracleOpen m).
Definition setAddBookmarkModalOpen v (m : t) :=
  mk (isAddFolderModalOpen m) v (isUnlockModalOpen m)
     (isDetailModalOpen m) (isOracleOpen m).
Definition setUnlockModalOpen v (m : t) :=
  mk (isAddFolderModalOpen m) (isAddBookmarkModalOpen m) v
     (isDetailModalOpen m) (isOracleOpen m).
Definition setDetailModalOpen v (m : t) :=
  mk (isAddFolderModalOpen m) (isAddBookmarkModalOpen m)
     (isUnlockModalOpen m) v (isOracleOpen m).
Definition setOracleOpen v (m : t) :=
  mk (isAddFolderModalOpen m) (isAddBookmarkModalOpen m)
     (isUnlockModalOpen m) (isDetailModalOpen m) v.
End Modals.

Module Form.
Record t : Type := mk {
  newFolderName : jsstring;
  newFolderPass : jsstring;
  newBookmarkTitle : json;
  newBookmarkUrl : jsstring;
  newBookmarkDesc : json;
  newBookmarkImg : option jsstring;
  unlockInput : jsstring;
  videoUrlInput : jsstring
}.
Definition setNewFolderName v (f : t) :=
  mk v (newFolderPass f) (newBookmarkTitle f) (newBookmarkUrl f)
     (newBookmarkDesc f) (newBookmarkImg f) (unlockInput f)
     (videoUrlInput f).
Definition setNewFolderPass v (f : t) :=
  mk (newFolderName f) v (newBookmarkTitle f) (newBookmarkUrl f)
     (newBookmarkDesc f) (newBookmarkImg f) (unlockInput f)
     (videoUrlInput f).
Definition setNewBookmarkTitle v (f : t) :=
  mk (newFolderName f) (newFolderPass f) v (newBookmarkUrl f)
     (newBookmarkDesc f) (newBookmarkImg f) (unlockInput f)
     (videoUrlInput f).
Definition setNewBookmarkUrl v (f : t) :=
  mk (newFolderName f) (newFolderPass f) (newBookmarkTitle f) v
     (newBookmarkDesc f) (newBookmarkImg f) (unlockInput f)
     (videoUrlInput f).
Definition setNewBookmarkDesc v (f : t) :=
  mk (newFolderName f) (newFolderPass f) (newBookmarkTitle f)
     (newBookmarkUrl f) v (newBookmarkImg f) (unlockInput f)
     (videoUrlInput f).
Definition setNewBookmarkImg v (f : t) :=
  mk (newFolderName f) (newFolderPass f) (newBookmarkTitle f)
     (newBookmarkUrl f) (newBookmarkDesc f) v (unlockInput f)
     (videoUrlInput f).
Definition setUnlockInput v (f : t) :=
  mk (newFolderName f) (newFolderPass f) (newBookmarkTitle f)
     (newBookmarkUrl f) (newBookmarkDesc f) (newBookmarkImg f) v
     (videoUrlInput f).
Definition setVideoUrlInput v (f : t) :=
  mk (newFolderName f) (newFolderPass f) (newBookmarkTitle f)
     (newBookmarkUrl f) (newBookmarkDesc f) (newBookmarkImg f)
     (unlockInput f) v.
End Form.

Module Ai.
Record t : Type := mk {
  isEnchanting : bool;
  oracleHistory : list ChatMessage;
  oracleInput : jsstring;
  isOracleThinking : bool
}.
Definition setIsEnchanting v (a : t) :=
  mk v (oracleHistory a) (oracleInput a) (isOracleThinking a).
Definition setOracleHistory v (a : t) :=
  mk (isEnchanting a) v (oracleInput a) (isOracleThinking a).
Definition setOracleInput v (a : t) :=
  mk (isEnchanting a) (oracleHistory a) v (isOracleThinking a).
Definition setOracleThinking v (a : t) :=
  mk (isEnchanting a) (oracleHistory a) (oracleInput a) v.
End Ai.

Record State : Type := mkState {
  folders : list Folder;
  unlockedFolders : gset jsstring;
  activeFolderId : option jsstring;
  sidebarOpen : bool;
  toast : option ToastState;
  modals : Modals.t;
  folderToUnlock : option jsstring;
  selectedBookmark : option Bookmark;
  form : Form.t;
  ai : Ai.t
}.

Definition setFolders v (st : State) : State :=
  mkState v (unlockedFolders st) (activeFolderId st) (sidebarOpen st)
    (toast st) (modals st) (folderToUnlock st) (selectedBookmark st)
    (form st) (ai st).
Definition setUnlockedFolders v (st : State) : State :=
  mkState (folders st) v (activeFolderId st) (sidebarOpen st)
    (toast st) (modals st) (folderToUnlock st) (selectedBookmark st)
    (form st) (ai st).
Definition setActiveFolderId v (st : State) : State :=
  mkState (folders st) (unlockedFolders st) v (sidebarOpen st)
    (toast st) (modals st) (folderToUnlock st) (selectedBookmark st)
    (form st) (ai st).
Definition setSidebarOpen v (st : State) : State :=
  mkState (folders st) (unlockedFolders st) (activeFolderId st) v
    (toast st) (modals st) (folderToUnlock st) (selectedBookmark st)
    (form st) (ai st).
Definition setToast v (st : State) : State :=
  mkState (folders st) (unlockedFolders st) (activeFolderId st)
    (sidebarOpen st) v (modals st) (folderToUnlock st)
    (selectedBookmark st) (form st) (ai st).
Definition setModals v (st : State) : State :=
  mkState (folders st) (unlockedFolders st) (activeFolderId st)
    (sidebarOpen st) (toast st) v (folderToUnlock st)
    (selectedBookmark st) (form st) (ai st).
Definition setFolderToUnlock v (st : State) : State :=
  mkState (folders st) (unlockedFolders st) (activeFolderId st)
    (sidebarOpen st) (toast st) (modals st) v (selectedBookmark st)
    (form st) (ai st).
Definition setSelectedBookmark v (st : State) : State :=
  mkState (folders st) (unlockedFolders st) (activeFolderId st)
    (sidebarOpen st) (toast st) (modals st) (folderToUnlock st) v
    (form st) (ai st).
Definition setForm v (st : State) : State :=
  mkState (folders st) (unlockedFolders st) (activeFolderId st)
    (sidebarOpen st) (toast st) (modals st) (folderToUnlock st)
    (selectedBookmark st) v (ai st).
Definition setAi v (st : State) : State :=
  mkState (folders st) (unlockedFolders st) (activeFolderId st)
    (sidebarOpen st) (toast st) (modals st) (folderToUnlock st)
    (selectedBookmark st) (form st) v.

(** Updates of a grouped state variable. *)
Definition onModals (f : Modals.t -> Modals.t) (st : State) : State :=
  setModals (f (modals st)) st.
Definition onForm (f : Form.t -> Form.t) (st : State) : State :=
  setForm (f (form st)) st.
Definition onAi (f : Ai.t -> Ai.t) (st : State) : State :=
  setAi (f (ai st)) st.

(** [showToast(msg, type)], whose [type] defaults to ['success']. *)
Definition showToast (msg : jsstring) (type : ToastType) (st : State)
  : State :=
  setToast (Some (ToastState.mk msg type)) st.

(** The state of the first render, given what the initialiser of
    [folders] returned. *)
Definition greeting : jsstring :=
  js "Greetings. I am the Oracle of the Vault. How may I assist you with your archives today?".

Definition initialState (fs : list Folder) : State :=
  {| folders := fs;
     unlockedFolders := ∅;
     activeFolderId := None;
     sidebarOpen := true;
     toast := None;
     modals := Modals.mk false false false false false;
     folderToUnlock := None;
     selectedBookmark := None;
     form := Form.mk [] [] (JStr []) [] (JStr []) None [] [];
     ai := Ai.mk false [ChatMessage.mk model (JStr greeting)] [] false |}.

(** Queued state updates read left to right: [st |> setA x |> setB y]. *)
Notation "st |> f" := (f st) (at level 45, left associativity, only parsing).

(* ===================================================================== *)
(** * Persistent store *)
(* ===================================================================== *)

Module Store.

Definition storage_key : jsstring := js "velvet_vault_data_v3".

(** The value of an object literal of each interface, members in the
    order the source writes them. *)
Definition of_media (m : MediaItem) : json :=
  JObj [ (js "id", JStr (MediaItem.id m));
         (js "type", JStr (MediaType_name (MediaItem.type m)));
         (js "content", JStr (MediaItem.content m));
         (js "createdAt", JStr (MediaItem.createdAt m)) ].

Definition of_bookmark (b : Bookmark) : json :=
  JObj [ (js "id", JStr (Bookmark.id b));
         (js "title", Bookmark.title b);
         (js "url", JStr (Bookmark.url b));
         (js "description", Bookmark.description b);
         (js "createdAt", JStr (Bookmark.createdAt b));
         (js "media", JArr (map of_media (Bookmark.media b))) ].

Definition of_folder (f : Folder) : json :=
  JObj [ (js "id", JStr (Folder.id f));
         (js "name", JStr (Folder.name f));
         (js "password", JStr (Folder.password f));
         (js "bookmarks", JArr (map of_bookmark (Folder.bookmarks f))) ].

Definition of_folders (fs : list Folder) : json := JArr (map of_folder fs).

(** [{ id: 'default', name: 'Inspiration', password: '123', bookmarks: [] }] *)
Definition defaultFolder : Folder :=
  Folder.mk (js "default") (js "Inspiration") (js "123") [].

(** [localStorage], or [None] where reaching it throws (no [window],
    access denied). *)
Definition LocalStorage : Type := option (gmap jsstring jsstring).

(** [localStorage.getItem(key)] *)
Definition getItem (key : jsstring) (ls : LocalStorage)
  : Completion (option jsstring) :=
  match ls with
  | Some items => Normal (items !! key)
  | None => Throw ReferenceError
  end.

(** The body of the [try] in the initialiser of [folders]. *)
Definition load_try (ls : LocalStorage) : Completion json :=
  saved ← getItem storage_key ls;
  match saved with
  | Some text =>
      if JsString.truthy text then JSON_parse text
      else Normal (of_folders [defaultFolder])
  | None => Normal (of_folders [defaultFolder])
  end.

(** The initialiser of [folders]: what the component starts from. It
    returns what [JSON.parse] gave as it is. *)
Definition load (ls : LocalStorage) : json :=
  try_catch (load_try ls) (fun _ => JArr []).

(** The default folder, stored as the component would write it. *)
Definition default_blob : jsstring :=
  JsString.dq "[{'id':'default','name':'Inspiration','password':'123','bookmarks':[]}]".

(** A store that holds [blob] under the storage key. *)
Definition holding (blob : jsstring) : LocalStorage :=
  Some {[ storage_key := blob ]}.

(** A store with nothing under the storage key. *)
Definition fresh : LocalStorage := Some ∅.

(** ** Saving *)

Section Save.

Variable number_text : Z -> Z -> jsstring.

(** Whether the browser, holding [items], takes [value] under its quota. *)
Variable accepts : gmap jsstring jsstring -> jsstring -> bool.

(** [JSON.stringify(folders)] *)
Definition serialize (fs : list Folder) : jsstring :=
  JSON.stringify number_text (of_folders fs).

(** [localStorage.setItem(key, value)]: the store after it, or [None]
    where it throws. *)
Definition setItem (key value : jsstring) (ls : LocalStorage)
  : option LocalStorage :=
  match ls with
  | Some items =>
      if accepts items value then Some (Some (<[ key := value ]> items))
      else None
  | None => None
  end.

Definition storage_full : jsstring :=
  js "Storage full! Cannot save new data.".

(** The effect that runs when [folders] has changed: the whole store is
    written anew, and a write that throws ends in a toast. *)
Definition persist (ls : LocalStorage) (st : State) : LocalStorage * State :=
  match setItem storage_key (serialize (folders st)) ls with
  | Some ls' => (ls', st)
  | None => (ls, st |> showToast storage_full error)
  end.

End Save.

(** Folders whose titles and descriptions hold no number. *)
Definition without_numbers (fs : list Folder) : Prop :=
  Forall (fun f =>
            Forall (fun b =>
                      JSON.number_free (Bookmark.title b) = true
                      /\ JSON.number_free (Bookmark.description b) = true)
                   (Folder.bookmarks f))
         fs.

End Store.

(* ===================================================================== *)
(** * AI gateway *)
(* ===================================================================== *)

Module Gateway.

(** [const apiKey: string = ""], replaced by the environment. *)
Definition apiKey : jsstring := [].

Record Request : Type := mkRequest {
  url : jsstring;
  method : jsstring;
  headers : list (jsstring * jsstring);
  body : json               (* the payload that [JSON.stringify] writes *)
}.

(** What [await fetch(..)] gives: a rejection, or a response with its
    status and the text of its body. *)
Inductive FetchResult : Type :=
| Rejected
| Response (status : N) (text : jsstring).

(** [response.ok] *)
Definition ok (status : N) : bool := (200 <=? status) && (status <=? 299).

Definition endpoint : jsstring :=
  js "https://generativelanguage.googleapis.com/v1beta/models/gemini-2.5-flash-preview-09-2025:generateContent?key=".

Definition request (key prompt systemInstruction : jsstring) : Request :=
  {| url := endpoint ++ key;
     method := js "POST";
     headers := [(js "Content-Type", js "application/json")];
     body :=
       JObj [ (js "contents",
                JArr [JObj [(js "parts",
                              JArr [JObj [(js "text", JStr prompt)]])]]);
              (js "systemInstruction",
                JObj [(js "parts",
                        JArr [JObj [(js "text",
                                     JStr systemInstruction)]])]) ] |}.

Definition missing_key : jsstring := js "Error: API Key is missing.".
Definition silent : jsstring := js "The spirits were silent...".
Definition severed : jsstring :=
  js "The connection to the ether was severed. Please try again.".

(** [data.candidates?.[0]?.content?.parts?.[0]?.text] *)
Definition candidate_text (data : json) : Completion (option json) :=
  candidates ← member (js "candidates") data;
  Normal (JSON.optional (JSON.get (js "text"))
           (JSON.optional JSON.get0
             (JSON.optional (JSON.get (js "parts"))
               (JSON.optional (JSON.get (js "content"))
                 (JSON.optional JSON.get0 candidates))))).

(** The body of the [try], from the outcome of the request on. *)
Definition callGemini_try (r : FetchResult) : Completion json :=
  match r with
  | Rejected => Throw NetworkError
  | Response status text =>
      if negb (ok status) then Throw (ApiError status)
      else
        data ← JSON_parse text;
        t ← candidate_text data;
        Normal (match t with
                | Some v => if JSON.truthy v then v else JStr silent
                | None => JStr silent
                end)
  end.

(** [callGemini(prompt, systemInstruction)] with the key [key] and the
    network [fetch]: the requests it issued, in order, and the value
    its promise resolves to. *)
Definition callGemini (key : jsstring) (fetch : Request -> FetchResult)
    (prompt systemInstruction : jsstring) : list Request * json :=
  if negb (JsString.truthy key) then ([], JStr missing_key)
  else
    let req := request key prompt systemInstruction in
    ([req], try_catch (callGemini_try (fetch req)) (fun _ => JStr severed)).

End Gateway.

(* ===================================================================== *)
(** * Mutation handlers *)
(* ===================================================================== *)

(** [xs.map(f)] for a callback that, besides returning the new element,
    may queue an update of one state variable: of several updates queued
    in one pass the last one stands. *)
Definition later {E} (first second : option E) : option E :=
  match second with
  | Some _ => second
  | None => first
  end.

Fixpoint map_queue {A B E} (f : A -> B * option E) (xs : list A)
  : list B * option E :=
  match xs with
  | [] => ([], None)
  | x :: r =>
      let '(y, e) := f x in
      let '(ys, e') := map_queue f r in
      (y :: ys, later e e')
  end.

(** Apply a queued [setSelectedBookmark], if there is one. *)
Definition queueSelectedBookmark (q : option Bookmark) (st : State) : State :=
  match q with
  | Some b => setSelectedBookmark (Some b) st
  | None => st
  end.

(** [f.id === activeFolderId] *)
Definition is_active (st : State) (f : Folder) : bool :=
  bool_decide (activeFolderId st = Some (Folder.id f)).

(** [window.innerWidth < 768] *)
Definition narrow (innerWidth : N) : bool := innerWidth <? 768.

Section Handlers.

(** [new URL(url).hostname] of the URL Standard, [None] where the
    constructor throws. *)
Variable URL_hostname : jsstring -> option jsstring.

Definition hostname (url : jsstring) : Completion jsstring :=
  match URL_hostname url with
  | Some h => Normal h
  | None => Throw TypeError
  end.

(** ** Folders *)

Definition handleCreateFolder (now : Z) (st : State) : State :=
  let newFolderName := Form.newFolderName (form st) in
  let newFolderPass := Form.newFolderPass (form st) in
  if negb (JsString.truthy (JsString.trim newFolderName))
     || negb (JsString.truthy (JsString.trim newFolderPass))
  then st |> showToast (js "Name and password required") error
  else
    let newFolder :=
      Folder.mk (JsString.of_integer now) newFolderName newFolderPass [] in
    st |> setFolders (folders st ++ [newFolder])
       |> onForm (Form.setNewFolderName [])
       |> onForm (Form.setNewFolderPass [])
       |> onModals (Modals.setAddFolderModalOpen false)
       |> showToast (js "Folder created successfully") success.

(** The toast of a failed unlock. *)
Definition incorrect : ToastState :=
  ToastState.mk (js "Incorrect password") error.

Definition handleUnlock (st : State) : State :=
  let folder :=
    find (fun f => bool_decide (Some (Folder.id f) = folderToUnlock st))
         (folders st) in
  match folder with
  | Some f =>
      if JsString.eqb (Folder.password f) (Form.unlockInput (form st)) then
        let newUnlocked :=
          match folderToUnlock st with
          | Some id =>
              if JsString.truthy id then {[ id ]} ∪ unlockedFolders st
              else unlockedFolders st
          | None => unlockedFolders st
          end in
        st |> setUnlockedFolders newUnlocked
           |> setActiveFolderId (folderToUnlock st)
           |> onModals (Modals.setUnlockModalOpen false)
           |> onForm (Form.setUnlockInput [])
      else st |> showToast (js "Incorrect password") error
  | None => st |> showToast (js "Incorrect password") error
  end.

(** One guess: the password field is set to [g] and Unlock is pressed. *)
Definition guess (g : jsstring) (st : State) : State :=
  handleUnlock (st |> onForm (Form.setUnlockInput g)).

Definition selectFolder (id : jsstring) (innerWidth : N) (st : State)
  : State :=
  if bool_decide (id ∈ unlockedFolders st) then
    let st' := st |> setActiveFolderId (Some id) in
    if narrow innerWidth then st' |> setSidebarOpen false else st'
  else
    st |> setFolderToUnlock (Some id)
       |> onModals (Modals.setUnlockModalOpen true).

(** ** Bookmarks *)

Definition handleAddBookmark (now_img : Z) (iso_img : jsstring)
    (now : Z) (iso : jsstring) (st : State) : Completion State :=
  let newBookmarkUrl := Form.newBookmarkUrl (form st) in
  if negb (JsString.truthy (JsString.trim newBookmarkUrl)) then Normal st
  else
    let url :=
      if JsString.has_http_scheme newBookmarkUrl then newBookmarkUrl
      else js "https://" ++ newBookmarkUrl in
    let initialMedia :=
      match Form.newBookmarkImg (form st) with
      | Some img =>
          if JsString.truthy img then
            [MediaItem.mk (JsString.of_integer now_img ++ js "_img")
                          image img iso_img]
          else []
      | None => []
      end in
    title ←
      (if JSON.truthy (Form.newBookmarkTitle (form st))
       then Normal (Form.newBookmarkTitle (form st))
       else h ← hostname url; Normal (JStr h));
    let description :=
      if JSON.truthy (Form.newBookmarkDesc (form st))
      then Form.newBookmarkDesc (form st)
      else JStr (js "A mysterious link...") in
    let newBookmark :=
      Bookmark.mk (JsString.of_integer now) title url description iso
                  initialMedia in
    let updatedFolders :=
      map (fun f =>
             if is_active st f
             then Folder.with_bookmarks (newBookmark :: Folder.bookmarks f) f
             else f)
          (folders st) in
    Normal (st |> setFolders updatedFolders
               |> onForm (Form.setNewBookmarkUrl [])
               |> onForm (Form.setNewBookmarkTitle (JStr []))
               |> onForm (Form.setNewBookmarkDesc (JStr []))
               |> onForm (Form.setNewBookmarkImg None)
               |> onModals (Modals.setAddBookmarkModalOpen false)
               |> showToast (js "Bookmark added") success).

(** The folders after [id] was removed from the active folder. *)
Definition without_bookmark (id : jsstring) (st : State) : list Folder :=
  map (fun f =>
         if is_active st f
         then Folder.with_bookmarks
                (filter (fun b => Bookmark.id b ≠ id) (Folder.bookmarks f)) f
         else f)
      (folders st).

(** [deleteBookmark(bookmarkId, e)]; [confirmed] is the answer to
    [window.confirm]. *)
Definition deleteBookmark (bookmarkId : jsstring) (confirmed : bool)
    (st : State) : State :=
  if negb confirmed then st
  else st |> setFolders (without_bookmark bookmarkId st).

Definition handleDeleteFromModal (confirmed : bool) (st : State) : State :=
  match selectedBookmark st with
  | Some sel =>
      if truthy_id (activeFolderId st) then
        if negb confirmed then st
        else
          st |> setFolders (without_bookmark (Bookmark.id sel) st)
             |> onModals (Modals.setDetailModalOpen false)
             |> setSelectedBookmark None
             |> showToast (js "Bookmark deleted") success
      else st
  | None => st
  end.

(** ** Media *)

(** The pass over the folders that [handleAddMedia] and [deleteMedia]
    share: the media of every bookmark of the active folder that has
    the ID of the selected one is replaced by [change] of it, and that
    bookmark is queued as the selected one. *)
Definition update_media (change : list MediaItem -> list MediaItem)
    (sel : Bookmark) (st : State) : list Folder * option Bookmark :=
  map_queue
    (fun f =>
       if is_active st f then
         let '(updatedBookmarks, q) :=
           map_queue
             (fun b =>
                if bool_decide (Bookmark.id b = Bookmark.id sel) then
                  let updatedB :=
                    Bookmark.with_media (change (Bookmark.media b)) b in
                  (updatedB, Some updatedB)
                else (b, None))
             (Folder.bookmarks f) in
         (Folder.with_bookmarks updatedBookmarks f, q)
       else (f, None))
    (folders st).

(** The same pass without the queue: what becomes of a bookmark and of
    a folder. *)
Definition media_changed_in_bookmark
    (change : list MediaItem -> list MediaItem) (sel b : Bookmark)
  : Bookmark :=
  if bool_decide (Bookmark.id b = Bookmark.id sel)
  then Bookmark.with_media (change (Bookmark.media b)) b
  else b.

Definition media_changed_in_folder
    (change : list MediaItem -> list MediaItem) (sel : Bookmark)
    (st : State) (f : Folder) : Folder :=
  if is_active st f
  then Folder.with_bookmarks
         (map (media_changed_in_bookmark change sel) (Folder.bookmarks f)) f
  else f.

(** [handleAddMedia(type, content)] as it runs from a callback: it reads
    the state variables of the render it closes over, [seen], and its
    updates are queued on the current state [cur]. *)
Definition handleAddMedia_from (seen : State) (type : MediaType)
    (content : jsstring) (now : Z) (iso : jsstring) (cur : State) : State :=
  match selectedBookmark seen with
  | Some sel =>
      if truthy_id (activeFolderId seen) then
        let newMedia :=
          MediaItem.mk (JsString.of_integer now) type content iso in
        let '(updatedFolders, q) :=
          update_media (fun media => media ++ [newMedia]) sel seen in
        cur |> queueSelectedBookmark q
            |> setFolders updatedFolders
            |> showToast (MediaType_name type ++ js " added") success
      else cur
  | None => cur
  end.

(** [handleAddMedia(type, content)] run from the current render. *)
Definition handleAddMedia (type : MediaType) (content : jsstring)
    (now : Z) (iso : jsstring) (st : State) : State :=
  handleAddMedia_from st type content now iso st.

Definition deleteMedia (mediaId : jsstring) (st : State) : State :=
  match selectedBookmark st with
  | Some sel =>
      if truthy_id (activeFolderId st) then
        let '(updatedFolders, q) :=
          update_media
            (fun media => filter (fun m => MediaItem.id m ≠ mediaId) media)
            sel st in
        st |> queueSelectedBookmark q
           |> setFolders updatedFolders
      else st
  | None => st
  end.

(** No media item of a bookmark that an addition at the time [now]
    reaches has the ID the new item gets. *)
Definition fresh_media_id (now : Z) (st : State) : Prop :=
  forall sel f b m,
    selectedBookmark st = Some sel ->
    f ∈ folders st -> activeFolderId st = Some (Folder.id f) ->
    b ∈ Folder.bookmarks f -> Bookmark.id b = Bookmark.id sel ->
    m ∈ Bookmark.media b ->
    MediaItem.id m <> JsString.of_integer now.

(** [file.size > 500000] *)
Definition too_large (size : N) : bool := 500000 <? size.

Definition image_too_large : jsstring := js "Image too large. Max 500KB.".

(** [handleCreationImageUpload(e)] up to the start of the reader, for a
    selection of no file or of a file of [size] bytes. *)
Definition handleCreationImageUpload (file : option N) (st : State)
  : State :=
  match file with
  | None => st
  | Some size =>
      if too_large size then st |> showToast image_too_large error else st
  end.

(** Its [reader.onloadend], with [reader.result]: a data URL, or no
    string when the read failed. *)
Definition creationImageLoaded (result : option jsstring) (st : State)
  : State :=
  match result with
  | Some data => st |> onForm (Form.setNewBookmarkImg (Some data))
  | None => st
  end.

(** [handleImageUpload(e)] up to the start of the reader. *)
Definition handleImageUpload (file : option N) (st : State) : State :=
  match file with
  | None => st
  | Some size =>
      if too_large size then st |> showToast image_too_large error else st
  end.

(** Its [reader.onloadend], which calls the [handleAddMedia] of the
    render [seen] in which the file was chosen. *)
Definition imageLoaded (seen : State) (result : option jsstring) (now : Z)
    (iso : jsstring) (cur : State) : State :=
  match result with
  | Some data => handleAddMedia_from seen image data now iso cur
  | None => cur
  end.

Definition handleAddVideoLink (now : Z) (iso : jsstring) (st : State)
  : State :=
  let videoUrlInput := Form.videoUrlInput (form st) in
  if negb (JsString.truthy videoUrlInput) then st
  else
    let embedUrl :=
      if JsString.includes (js "youtube.com/watch?v=") videoUrlInput
      then JsString.replace_first (js "watch?v=") (js "embed/")
             videoUrlInput
      else if JsString.includes (js "youtu.be/") videoUrlInput
      then JsString.replace_first (js "youtu.be/")
             (js "youtube.com/embed/") videoUrlInput
      else videoUrlInput in
    handleAddMedia video embedUrl now iso st
      |> onForm (Form.setVideoUrlInput []).

End Handlers.

(* ===================================================================== *)
(** * AI actions *)
(* ===================================================================== *)

Module Enchant.

Definition prompt (newBookmarkUrl : jsstring) : jsstring :=
  JsString.dq "I am adding a bookmark for this URL: '" ++ newBookmarkUrl
  ++ JsString.dq "'. Please generate a concise, classy Title and a 1-sentence sophisticated description for it. Output format: JSON { 'title': 'string', 'description': 'string' }.".

Definition systemInstruction : jsstring :=
  js "You are a helpful digital archivist. Return ONLY raw JSON.".

(** The toast of a successful run starts with U+2728. *)
Definition illuminated : jsstring :=
  10024 :: js " The link has been illuminated!".
Definition confused : jsstring :=
  js "The spirits are confused. Try manual entry.".

(** [handleEnchant] up to its [await]. *)
Definition start (st : State) : State :=
  if negb (JsString.truthy (Form.newBookmarkUrl (form st)))
  then st |> showToast (js "Enter a URL first") error
  else st |> onAi (Ai.setIsEnchanting true).

(** [result.replace(..)]: [replace] is a method of strings only. *)
Definition clean (result : json) : Completion jsstring :=
  match result with
  | JStr s => Normal (JsString.strip_fences s)
  | _ => Throw TypeError
  end.

(** The body of the [try] from the [await] on, [result] being what
    [callGemini] resolved to. A read of [parsed.description] cannot
    throw once [parsed.title] was read, so that nothing is queued when
    the body throws. *)
Definition settle_try (result : json) (st : State) : Completion State :=
  cleanResult ← clean result;
  parsed ← JSON_parse cleanResult;
  title ← member (js "title") parsed;
  let st1 :=
    match title with
    | Some v =>
        if JSON.truthy v then st |> onForm (Form.setNewBookmarkTitle v)
        else st
    | None => st
    end in
  description ← member (js "description") parsed;
  let st2 :=
    match description with
    | Some v =>
        if JSON.truthy v then st1 |> onForm (Form.setNewBookmarkDesc v)
        else st1
    | None => st1
    end in
  Normal (st2 |> showToast illuminated success).

(** [handleEnchant] from its [await] on, with [catch] and [finally]. *)
Definition settle (result : json) (st : State) : State :=
  try_catch (settle_try result st)
            (fun _ => st |> showToast confused error)
    |> onAi (Ai.setIsEnchanting false).

(** One whole run of [handleEnchant], nothing else happening before
    the reply: the requests issued and the state reached. *)
Definition handleEnchant (key : jsstring)
    (fetch : Gateway.Request -> Gateway.FetchResult) (st : State)
  : list Gateway.Request * State :=
  if negb (JsString.truthy (Form.newBookmarkUrl (form st)))
  then ([], start st)
  else
    let '(reqs, result) :=
      Gateway.callGemini key fetch
        (prompt (Form.newBookmarkUrl (form st))) systemInstruction in
    (reqs, settle result (start st)).

End Enchant.

Module Oracle.

(** [handleOracleChat] up to its [await]. The system prompt, which
    carries the whole vault, goes to the gateway only. *)
Definition start (st : State) : State :=
  let userMsg := Ai.oracleInput (ai st) in
  if negb (JsString.truthy (JsString.trim userMsg)) then st
  else
    st |> onAi (Ai.setOracleInput [])
       |> onAi (fun a =>
                  Ai.setOracleHistory
                    (Ai.oracleHistory a ++ [ChatMessage.mk user (JStr userMsg)])
                    a)
       |> onAi (Ai.setOracleThinking true).

(** [handleOracleChat] from its [await] on. *)
Definition settle (response : json) (st : State) : State :=
  st |> onAi (fun a =>
                Ai.setOracleHistory
                  (Ai.oracleHistory a ++ [ChatMessage.mk model response]) a)
     |> onAi (Ai.setOracleThinking false).

End Oracle.

(* ===================================================================== *)
(** * The component as a transition system *)
(* ===================================================================== *)

(** Everything that runs code of the component: a user action, the end
    of an asynchronous operation, a timer. The callback of a file reader
    or of the recorder runs the handler of an earlier render, whose state
    the event carries. *)
Inductive Event : Type :=
(* sidebar and header *)
| CloseSidebar
| ToggleSidebar
| OpenAddFolder (innerWidth : N)
| OpenOracle (innerWidth : N)
| SelectFolder (id : jsstring) (innerWidth : N)
| OpenAddBookmark
| OpenDetails (bookmark : Bookmark)
(* dialogs *)
| CloseAddFolder | CloseAddBookmark | CloseUnlock | CloseDetails | CloseOracle
(* inputs *)
| TypeFolderName (v : jsstring)
| TypeFolderPass (v : jsstring)
| TypeUnlock (v : jsstring)
| TypeUrl (v : jsstring)
| TypeTitle (v : jsstring)
| TypeDesc (v : jsstring)
| TypeVideoUrl (v : jsstring)
| TypeOracle (v : jsstring)
| ClearCoverImage
(* handlers *)
| CreateFolder (now : Z)
| Unlock
| AddBookmark (now_img : Z) (iso_img : jsstring) (now : Z) (iso : jsstring)
| CreationImageUpload (file : option N)
| CreationImageLoaded (result : option jsstring)
| ImageUpload (file : option N)
| ImageLoaded (seen : State) (result : option jsstring)
    (now : Z) (iso : jsstring)
| VoiceSaved (seen : State) (data : jsstring) (now : Z) (iso : jsstring)
| AddVideoLink (now : Z) (iso : jsstring)
| DeleteMedia (mediaId : jsstring)
| DeleteBookmark (bookmarkId : jsstring) (confirmed : bool)
| DeleteFromModal (confirmed : bool)
| EnchantStart
| EnchantSettle (result : json)
| OracleStart
| OracleSettle (response : json)
(* timers *)
| ToastExpired.

Section Component.

Variable URL_hostname : jsstring -> option jsstring.

Definition closeSidebarIfNarrow (innerWidth : N) (st : State) : State :=
  if narrow innerWidth then st |> setSidebarOpen false else st.

Definition step (ev : Event) (st : State) : Completion State :=
  match ev with
  | CloseSidebar => Normal (st |> setSidebarOpen false)
  | ToggleSidebar => Normal (st |> setSidebarOpen (negb (sidebarOpen st)))
  | OpenAddFolder w =>
      Normal (st |> onModals (Modals.setAddFolderModalOpen true)
                 |> closeSidebarIfNarrow w)
  | OpenOracle w =>
      Normal (st |> onModals (Modals.setOracleOpen true)
                 |> closeSidebarIfNarrow w)
  | SelectFolder id w => Normal (selectFolder id w st)
  | OpenAddBookmark =>
      Normal (st |> onModals (Modals.setAddBookmarkModalOpen true))
  | OpenDetails b =>
      Normal (st |> setSelectedBookmark (Some b)
                 |> onModals (Modals.setDetailModalOpen true))
  | CloseAddFolder =>
      Normal (st |> onModals (Modals.setAddFolderModalOpen false))
  | CloseAddBookmark =>
      Normal (st |> onModals (Modals.setAddBookmarkModalOpen false))
  | CloseUnlock => Normal (st |> onModals (Modals.setUnlockModalOpen false))
  | CloseDetails => Normal (st |> onModals (Modals.setDetailModalOpen false))
  | CloseOracle => Normal (st |> onModals (Modals.setOracleOpen false))
  | TypeFolderName v => Normal (st |> onForm (Form.setNewFolderName v))
  | TypeFolderPass v => Normal (st |> onForm (Form.setNewFolderPass v))
  | TypeUnlock v => Normal (st |> onForm (Form.setUnlockInput v))
  | TypeUrl v => Normal (st |> onForm (Form.setNewBookmarkUrl v))
  | TypeTitle v => Normal (st |> onForm (Form.setNewBookmarkTitle (JStr v)))
  | TypeDesc v => Normal (st |> onForm (Form.setNewBookmarkDesc (JStr v)))
  | TypeVideoUrl v => Normal (st |> onForm (Form.setVideoUrlInput v))
  | TypeOracle v => Normal (st |> onAi (Ai.setOracleInput v))
  | ClearCoverImage => Normal (st |> onForm (Form.setNewBookmarkImg None))
  | CreateFolder now => Normal (handleCreateFolder now st)
  | Unlock => Normal (handleUnlock st)
  | AddBookmark now_img iso_img now iso =>
      handleAddBookmark URL_hostname now_img iso_img now iso st
  | CreationImageUpload file => Normal (handleCreationImageUpload file st)
  | CreationImageLoaded result => Normal (creationImageLoaded result st)
  | ImageUpload file => Normal (handleImageUpload file st)
  | ImageLoaded seen result now iso =>
      Normal (imageLoaded seen result now iso st)
  | VoiceSaved seen data now iso =>
      Normal (handleAddMedia_from seen voice data now iso st)
  | AddVideoLink now iso => Normal (handleAddVideoLink now iso st)
  | DeleteMedia mediaId => Normal (deleteMedia mediaId st)
  | DeleteBookmark bookmarkId confirmed =>
      Normal (deleteBookmark bookmarkId confirmed st)
  | DeleteFromModal confirmed => Normal (handleDeleteFromModal confirmed st)
  | EnchantStart => Normal (Enchant.start st)
  | EnchantSettle result => Normal (Enchant.settle result st)
  | OracleStart => Normal (Oracle.start st)
  | OracleSettle response => Normal (Oracle.settle response st)
  | ToastExpired => Normal (st |> setToast None)
  end.

(** The state an event leaves: a handler that throws has queued
    nothing, so the state stays. *)
Definition after (ev : Event) (st : State) : State :=
  try_catch (step ev st) (fun _ => st).

(** A session: the events of a run, in order. *)
Definition run (evs : list Event) (st : State) : State :=
  fold_left (fun s ev => after ev s) evs st.

End Component.

(* ===================================================================== *)
(** * What a session keeps *)
(* ===================================================================== *)

(** What identifies a folder and guards it. *)
Definition header (f : Folder) : jsstring * jsstring * jsstring :=
  (Folder.id f, Folder.name f, Folder.password f).

(** The callback of a reader or of the recorder runs in time: the
    folders of the render it closes over are, but for their bookmarks,
    those of the current state. *)
Definition in_time (ev : Event) (st : State) : Prop :=
  match ev with
  | ImageLoaded seen _ _ _ | VoiceSaved seen _ _ _ =>
      map header (folders seen) = map header (folders st)
  | _ => True
  end.

(** The folder an accepted [CreateFolder] adds has a new ID. *)
Definition new_id (ev : Event) (st : State) : Prop :=
  match ev with
  | CreateFolder now =>
      JsString.of_integer now ∉ map Folder.id (folders st)
  | _ => True
  end.

(** The render the callback of a reader or of the recorder closes
    over. *)
Definition closure (ev : Event) : option State :=
  match ev with
  | ImageLoaded seen _ _ _ | VoiceSaved seen _ _ _ => Some seen
  | _ => None
  end.

(** [P] holds of every event of a run, at the state it happens in. *)
Fixpoint along (URL_hostname : jsstring -> option jsstring)
    (P : Event -> State -> Prop) (evs : list Event) (st : State) : Prop :=
  match evs with
  | [] => True
  | ev :: rest =>
      P ev st /\ along URL_hostname P rest (after URL_hostname ev st)
  end.

(** The callbacks of a run were created in it: the render each of them
    closes over is the state the run is in or one it went through,
    [past] holding the states before the first event. *)
Fixpoint created_in (URL_hostname : jsstring -> option jsstring)
    (past : list State) (evs : list Event) (st : State) : Prop :=
  match evs with
  | [] => True
  | ev :: rest =>
      (forall seen, closure ev = Some seen -> seen ∈ st :: past)
      /\ created_in URL_hostname (st :: past) rest (after URL_hostname ev st)
  end.

(** The IDs of the folders are distinct and none is the empty string. *)
Definition distinct_ids (fs : list Folder) : Prop :=
  NoDup (map Folder.id fs) /\ [] ∉ map Folder.id fs.

(** The active folder, if its ID is not the empty string, is unlocked. *)
Definition active_unlocked (st : State) : Prop :=
  forall id,
    activeFolderId st = Some id -> id <> [] -> id ∈ unlockedFolders st.

(** The unlocked IDs and the active ID are IDs of folders. *)
Definition ids_known (st : State) : Prop :=
  (forall id, id ∈ unlockedFolders st -> id ∈ map Folder.id (folders st))
  /\ (forall id,
        activeFolderId st = Some id -> id ∈ map Folder.id (folders st)).

(** [isUnlocked]: [activeFolderId && unlockedFolders.has(activeFolderId)] *)
Definition isUnlocked (st : State) : bool :=
  match activeFolderId st with
  | Some id => JsString.truthy id && bool_decide (id ∈ unlockedFolders st)
  | None => false
  end.

(** [activeFolder]: [folders.find(f => f.id === activeFolderId)] *)
Definition activeFolder (st : State) : option Folder :=
  find (is_active st) (folders st).

(** The folder whose bookmarks the main panel shows:
    [activeFolderId && isUnlocked && activeFolder]. *)
Definition shown (st : State) : option Folder :=
  if truthy_id (activeFolderId st) && isUnlocked st then activeFolder st
  else None.

(* ===================================================================== *)
(** * What the Oracle is told *)
(* ===================================================================== *)

Module OracleChat.

(** [vaultContext]: every folder by its name, with the title, the URL
    and the description of each of its bookmarks. *)
Definition vaultContext (fs : list Folder) : json :=
  JArr
    (map (fun f =>
            JObj [ (js "folder", JStr (Folder.name f));
                   (js "bookmarks",
                     JArr
                       (map (fun b =>
                               JObj [ (js "title", Bookmark.title b);
                                      (js "url", JStr (Bookmark.url b));
                                      (js "desc", Bookmark.description b) ])
                            (Folder.bookmarks f))) ])
         fs).

(** The template of [systemPrompt] up to the vault, and after it; the
    lines of the template end in a line feed. *)
Definition preamble : jsstring :=
  js "You are The Oracle, a mystical and highly intelligent guardian of the user's digital library (VelvetVault). "
  ++ [10] ++ js "    User's Vault Content: ".

Definition postamble : jsstring :=
  js "." ++ [10]
  ++ js "    " ++ [10]
  ++ js "    Your personality: Sophisticated, slightly archaic but helpful, concise. "
  ++ [10]
  ++ js "    " ++ [10]
  ++ js "    Capabilities:" ++ [10]
  ++ js "    1. Answer questions about what links the user has." ++ [10]
  ++ js "    2. Suggest connections between folders." ++ [10]
  ++ js "    3. Summarize the collection." ++ [10]
  ++ js "    " ++ [10]
  ++ js "    If the user asks something unrelated to the bookmarks, politely steer them back to the archive or answer briefly with wisdom.".

Section Chat.

(** [Number::toString], as in [JSON.stringify]. *)
Variable number_text : Z -> Z -> jsstring.

Definition systemPrompt (fs : list Folder) : jsstring :=
  preamble ++ JSON.stringify number_text (vaultContext fs) ++ postamble.

(** One whole run of [handleOracleChat], nothing else happening before
    the reply: the requests issued and the state reached. *)
Definition handleOracleChat (key : jsstring)
    (fetch : Gateway.Request -> Gateway.FetchResult) (st : State)
  : list Gateway.Request * State :=
  let userMsg := Ai.oracleInput (ai st) in
  if negb (JsString.truthy (JsString.trim userMsg)) then ([], st)
  else
    let '(reqs, response) :=
      Gateway.callGemini key fetch userMsg (systemPrompt (folders st)) in
    (reqs, Oracle.settle response (Oracle.start st)).

End Chat.

End OracleChat.

(* ===================================================================== *)
(** * Video links *)
(* ===================================================================== *)

(** The value of [embedUrl] in [handleAddVideoLink]. *)
Definition embedUrl (videoUrlInput : jsstring) : jsstring :=
  if JsString.includes (js "youtube.com/watch?v=") videoUrlInput
  then JsString.replace_first (js "watch?v=") (js "embed/") videoUrlInput
  else if JsString.includes (js "youtu.be/") videoUrlInput
  then JsString.replace_first (js "youtu.be/") (js "youtube.com/embed/")
         videoUrlInput
  else videoUrlInput.

(* ===================================================================== *)
(** * The recorder *)
(* ===================================================================== *)

Module AudioRecorder.

(** [s.padStart(2, '0')] *)
Definition padStart2 (s : jsstring) : jsstring :=
  match s with
  | [] => [48; 48]
  | [c] => [48; c]
  | _ => s
  end.

(** The arithmetic of Numbers, binary64, on what the clock meets: the
    integers from [0] to [2^53], which are Numbers exactly, and their
    quotients. *)

(** The scale of the quotient [a / b] of two such integers, [0 < a] and
    [0 < b] and [a / b < 2^53]: the least [k] from [k0] on with
    [2^52 <= a * 2^k / b]. Scaled by [2^k] the quotient lies between
    [2^52] and [2^53], where the Numbers are the integers. *)
Fixpoint scale (fuel : nat) (a b k0 : N) : N :=
  match fuel with
  | O => k0
  | S fuel' =>
      if b * 2 ^ 52 <=? a * 2 ^ k0 then k0 else scale fuel' a b (k0 + 1)
  end.

(** The integer nearest to [n / d], the even one of two that are as
    near. *)
Definition round_half_even (n d : N) : N :=
  let q := n / d in
  let r := n mod d in
  if 2 * r <? d then q
  else if d <? 2 * r then q + 1
  else if N.even q then q else q + 1.

(** [a / b] as a Number: the pair of [m] and [k] stands for [m / 2^k],
    the Number nearest to the quotient. The scale is looked for among
    the [1100] first, more than the normal Numbers have. *)
Definition divide (a b : N) : N * N :=
  if a =? 0 then (0, 0)
  else
    let k := scale 1100 a b 0 in
    (round_half_even (a * 2 ^ k) b, k).

(** [Math.floor] of the Number [m / 2^k]. *)
Definition floor (x : N * N) : N := x.1 / 2 ^ x.2.

(** [formatTime(seconds)] for the counts the timer can hold: it starts
    from [0] and adds [1] every second, and so stays among the integers
    up to [2^53], where adding [1] changes a Number no more. Other
    arguments are left aside. The remainder of two integers is exact,
    and [toString] writes an integer below [10^21] in its digits. *)
Definition formatTime (seconds : N) : option jsstring :=
  if 2 ^ 53 <? seconds then None
  else
    let mins := floor (divide seconds 60) in
    let secs := seconds mod 60 in
    Some (JsString.of_integer (Z.of_N mins) ++ js ":"
          ++ padStart2 (JsString.of_integer (Z.of_N secs))).

End AudioRecorder.

(* ===================================================================== *)
(** * The page: the component, its recorder and its readers *)
(* ===================================================================== *)

Module Page.

(** Besides the state of the component: the state of the recorder that
    the details dialog mounts, the [MediaRecorder] its ref holds, and
    what the platform has yet to call back. A callback is kept as the
    render of the component it closes over. The [onstop] of a recorder
    is set in [startRecording] and calls the [onSave] of the render in
    which Rec was pressed, which is the [handleAddMedia] of that render;
    the [onloadend] of an image reader is set in [handleImageUpload] and
    calls the [handleAddMedia] of the render in which the file was
    chosen. *)
Record t : Type := mk {
  app : State;
  isRecording : bool;
  recordingTime : N;
  mediaRecorder : option State;  (* [mediaRecorderRef.current] *)
  stopped : list State;          (* recorders stopped, their data unread *)
  readers : list State           (* image readers at work *)
}.

Definition setApp v (p : t) : t :=
  mk v (isRecording p) (recordingTime p) (mediaRecorder p) (stopped p)
     (readers p).

(** The first render of the page. *)
Definition initial (st : State) : t := mk st false 0 None [] [].

(** Is the recorder on the page? The details dialog renders nothing
    when it is closed, and its content only for a selected bookmark. *)
Definition recorder_mounted (st : State) : bool :=
  Modals.isDetailModalOpen (modals st)
  && match selectedBookmark st with Some _ => true | None => false end.

(** When the recorder leaves the page its state and its ref are gone:
    a recording under way can no longer be stopped, and the next
    recorder starts afresh. *)
Definition remount (p : t) : t :=
  if recorder_mounted (app p) then p
  else mk (app p) false 0 None (stopped p) (readers p).

(** What happens on the page. The answer to the request for the
    microphone is taken as given at once. *)
Inductive Action : Type :=
| Act (ev : Event)
    (* an event of the component, those below apart *)
| Rec (granted : bool)         (* [startRecording] *)
| Tick                         (* the callback of the timer *)
| Stop                         (* [stopRecording] *)
| Recorded (k : nat) (result : option jsstring) (now : Z) (iso : jsstring)
    (* the [onloadend] of the reader of the [k]th stopped recorder *)
| Choose (file : option N)     (* [handleImageUpload] *)
| Read (k : nat) (result : option jsstring) (now : Z) (iso : jsstring).
    (* the [onloadend] of the [k]th image reader *)

Section Steps.

Variable URL_hostname : jsstring -> option jsstring.

Definition step (act : Action) (p : t) : t :=
  match act with
  | Act e => remount (setApp (after URL_hostname e (app p)) p)
  | Rec granted =>
      if granted
      then mk (app p) true 0 (Some (app p)) (stopped p) (readers p)
      else p
  | Tick =>
      if isRecording p
      then mk (app p) true (recordingTime p + 1) (mediaRecorder p)
              (stopped p) (readers p)
      else p
  | Stop =>
      match mediaRecorder p with
      | Some seen =>
          if isRecording p
          then mk (app p) false (recordingTime p) (mediaRecorder p)
                  (stopped p ++ [seen]) (readers p)
          else p
      | None => p
      end
  | Recorded k result now iso =>
      match stopped p !! k with
      | Some seen =>
          let p' :=
            mk (app p) (isRecording p) (recordingTime p) (mediaRecorder p)
               (delete k (stopped p)) (readers p) in
          match result with
          | Some data =>
              remount
                (setApp
                   (after URL_hostname (VoiceSaved seen data now iso)
                      (app p))
                   p')
          | None => p'
          end
      | None => p
      end
  | Choose file =>
      let p' := setApp (handleImageUpload file (app p)) p in
      match file with
      | Some size =>
          if too_large size then p'
          else mk (app p') (isRecording p) (recordingTime p)
                  (mediaRecorder p) (stopped p) (readers p ++ [app p])
      | None => p'
      end
  | Read k result now iso =>
      match readers p !! k with
      | Some seen =>
          remount
            (mk (after URL_hostname (ImageLoaded seen result now iso)
                   (app p))
                (isRecording p) (recordingTime p) (mediaRecorder p)
                (stopped p) (delete k (readers p)))
      | None => p
      end
  end.

Definition run (acts : list Action) (p : t) : t :=
  fold_left (fun q act => step act q) acts p.

End Steps.

End Page.

(* ===================================================================== *)
(** * Sample data *)
(* ===================================================================== *)

Module Sample.

Definition is_host_char (c : N) : bool :=
  ((97 <=? c) && (c <=? 122)) || ((48 <=? c) && (c <=? 57))
  || (c =? 45) || (c =? 46).

(** The host name of a URL made of [https://] or [http://] and a plain
    lower-case host name, on which the URL Standard gives that name
    back; other URLs are left aside. It stands for the platform in the
    examples. *)
Definition plain_hostname (url : jsstring) : option jsstring :=
  let host :=
    if JsString.starts_with (js "https://") url then Some (drop 8 url)
    else if JsString.starts_with (js "http://") url then Some (drop 7 url)
    else None in
  match host with
  | Some (c :: r) =>
      if forallb is_host_char (c :: r) && negb (c =? 46) && negb (c =? 45)
      then Some (c :: r) else None
  | _ => None
  end.

Definition iso : jsstring := js "2024-05-01T10:00:00.000Z".

(** The first start of the component, the default folder unlocked. *)
Definition vault : State :=
  initialState [Store.defaultFolder]
    |> setUnlockedFolders {[ js "default" ]}
    |> setActiveFolderId (Some (js "default")).

(** [example.com] typed in the URL field of the Add Link dialog. *)
Definition adding_example : State :=
  vault |> onModals (Modals.setAddBookmarkModalOpen true)
        |> onForm (Form.setNewBookmarkUrl (js "example.com")).

Definition photo : MediaItem :=
  MediaItem.mk (js "1714557660000") image (js "data:image/png;base64,AAAA")
    iso.

Definition example_bookmark : Bookmark :=
  Bookmark.mk (js "1714557600000") (JStr (js "example.com"))
    (js "https://example.com") (JStr (js "A mysterious link...")) iso
    [photo].

(** The default folder with one bookmark, open in the details dialog. *)
Definition details : State :=
  initialState
    [Folder.with_bookmarks [example_bookmark] Store.defaultFolder]
    |> setUnlockedFolders {[ js "default" ]}
    |> setActiveFolderId (Some (js "default"))
    |> setSelectedBookmark (Some example_bookmark)
    |> onModals (Modals.setDetailModalOpen true).

(** The Unlock dialog open for the default folder, [g] typed in. *)
Definition unlocking (g : jsstring) : State :=
  initialState [Store.defaultFolder]
    |> setFolderToUnlock (Some (js "default"))
    |> onModals (Modals.setUnlockModalOpen true)
    |> onForm (Form.setUnlockInput g).

(** A store whose only folder has the empty string as its ID. *)
Definition nameless : Folder := Folder.mk [] (js "Notes") (js "pw") [].

(** Such a store as it may lie in the browser. *)
Definition nameless_blob : jsstring :=
  JsString.dq "[{'id':'','name':'Notes','password':'pw','bookmarks':[]}]".

Definition unlocking_nameless : State :=
  initialState [nameless]
    |> setFolderToUnlock (Some [])
    |> onModals (Modals.setUnlockModalOpen true)
    |> onForm (Form.setUnlockInput (js "pw")).

(** The New Folder dialog filled in. *)
Definition naming (name pass : jsstring) : State :=
  vault |> onModals (Modals.setAddFolderModalOpen true)
        |> onForm (Form.setNewFolderName name)
        |> onForm (Form.setNewFolderPass pass).

(** A reply wrapped in a Markdown code fence, as models give them. *)
Definition fenced_reply : jsstring :=
  JsString.fence_json ++ JsString.dq "{'title':'T'}" ++ JsString.fence.

(** A second folder, which the sessions below never unlock. *)
Definition diary : Folder :=
  Folder.mk (js "1714500000000") (js "Diary") (js "secret")
    [example_bookmark].

(** A first render with the two folders. *)
Definition two_folders : State := initialState [Store.defaultFolder; diary].

(** What [example.com] is stored as. *)
Definition stored : Bookmark :=
  Bookmark.mk (js "1714557600000") (JStr (js "example.com"))
    (js "https://example.com") (JStr (js "A mysterious link...")) iso [].

(** A session: the default folder is unlocked, a link is added and
    opened, and an image is chosen for it. *)
Definition opening : list Event :=
  [ SelectFolder (js "default") 1024; TypeUnlock (js "123"); Unlock;
    OpenAddBookmark; TypeUrl (js "example.com");
    AddBookmark 1714557600000 iso 1714557600000 iso;
    OpenDetails stored; ImageUpload (Some 1000) ].

(** Then the image is read, a folder is created and a wrong password is
    tried on the diary. *)
Definition session : list Event :=
  opening
  ++ [ ImageLoaded (run plain_hostname opening two_folders)
         (Some (js "data:image/png;base64,AAAA")) 1714557660000 iso;
       OpenAddFolder 1024; TypeFolderName (js "Work");
       TypeFolderPass (js "pw"); CreateFolder 1714557700000;
       SelectFolder (js "1714500000000") 1024; TypeUnlock (js "guess");
       Unlock ].

(** The same with the image read late: a video link is attached while
    the reader is at work, and two more states lie between the choice
    of the file and the callback. *)
Definition late_session : list Event :=
  opening
  ++ [ TypeVideoUrl (js "https://youtu.be/dQw4w9WgXcQ");
       AddVideoLink 1714557650000 iso;
       ImageLoaded (run plain_hostname opening two_folders)
         (Some (js "data:image/png;base64,AAAA")) 1714557660000 iso;
       OpenAddFolder 1024; TypeFolderName (js "Work");
       TypeFolderPass (js "pw"); CreateFolder 1714557700000;
       SelectFolder (js "1714500000000") 1024; TypeUnlock (js "guess");
       Unlock ].

(** A URL typed in capitals, with a title. *)
Definition adding_capitals : State :=
  vault |> onModals (Modals.setAddBookmarkModalOpen true)
        |> onForm (Form.setNewBookmarkUrl (js "HTTPS://EXAMPLE.COM"))
        |> onForm (Form.setNewBookmarkTitle (JStr (js "Example"))).

(** A text with a space in it typed as the URL, and no title. *)
Definition adding_words : State :=
  vault |> onModals (Modals.setAddBookmarkModalOpen true)
        |> onForm (Form.setNewBookmarkUrl (js "not a link")).

(** A watch link typed in the details dialog. *)
Definition linking : State :=
  details
    |> onForm (Form.setVideoUrlInput
                 (js "https://www.youtube.com/watch?v=dQw4w9WgXcQ")).

(** A question typed to the Oracle. *)
Definition asking : State :=
  details |> onAi (Ai.setOracleInput (js "What do I keep?")).

(** A gateway that answers every request with a server error. *)
Definition failing (r : Gateway.Request) : Gateway.FetchResult :=
  Gateway.Response 500 [].

(** A printer of numbers for stores that hold none: right on the
    integers written without exponent, which is all it is asked for. *)
Definition integer_text (m e : Z) : jsstring :=
  if (e =? 0)%Z then JsString.of_integer m else js "null".

(** A browser that takes five million code units under a key. *)
Definition quota (items : gmap jsstring jsstring) (text : jsstring) : bool :=
  N.of_nat (length text) <=? 5000000.

(** A browser whose storage is full. *)
Definition full (items : gmap jsstring jsstring) (text : jsstring) : bool :=
  false.

End Sample.

(* ===================================================================== *)
(** * Properties *)
(* ===================================================================== *)

(** ** Persistent store: what the component starts from *)

Section StoreProperties.
Import Store.

Lemma load_try_holding (items : gmap jsstring jsstring) :
  load_try (Some items) =
    match items !! storage_key with
    | Some text =>
        if JsString.truthy text then JSON_parse text
        else Normal (of_folders [defaultFolder])
    | None => Normal (of_folders [defaultFolder])
    end.
Proof. reflexivity. Qed.

(** No storage within reach: the [catch] gives the empty sequence. *)
Lemma load_unreachable : load None = of_folders [].
Proof. reflexivity. Qed.

(** C1, as the code has it. With nothing stored under the key, or the
    empty string, the component starts from the single default folder.
    With a stored text that [JSON.parse] rejects it starts from the
    empty sequence. With any other stored text it starts from the
    parsed value as it is, so from a sequence of folders when the text
    denotes one. *)
Theorem load_cases (items : gmap jsstring jsstring) (text : jsstring) :
  (items !! storage_key = None ->
     load (Some items) = of_folders [defaultFolder])
  /\ (items !! storage_key = Some ([] : jsstring) ->
     load (Some items) = of_folders [defaultFolder])
  /\ (items !! storage_key = Some text -> text <> [] ->
      JSON.parse text = None ->
      load (Some items) = of_folders [])
  /\ (forall v, items !! storage_key = Some text -> text <> [] ->
      JSON.parse text = Some v ->
      load (Some items) = v)
  /\ (forall fs, items !! storage_key = Some text -> text <> [] ->
      JSON.parse text = Some (of_folders fs) ->
      load (Some items) = of_folders fs).
Proof.
  assert (Hparsed : forall v, items !! storage_key = Some text ->
            text <> [] -> JSON.parse text = Some v ->
            load (Some items) = v).
  { intros v Hget Hne Hp. unfold load. rewrite load_try_holding, Hget.
    destruct text as [|c r]; [congruence|]. simpl.
    unfold JSON_parse. now rewrite Hp. }
  repeat split.
  - intros Hget. unfold load. now rewrite load_try_holding, Hget.
  - intros Hget. unfold load. now rewrite load_try_holding, Hget.
  - intros Hget Hne Hp. unfold load. rewrite load_try_holding, Hget.
    destruct text as [|c r]; [congruence|]. simpl.
    unfold JSON_parse. now rewrite Hp.
  - exact Hparsed.
  - intros fs. apply Hparsed.
Qed.

Lemma load_cases_witness :
  load fresh = of_folders [defaultFolder]
  /\ load (holding []) = of_folders [defaultFolder]
  /\ load (holding (js "{")) = of_folders []
  /\ load (holding (js "42")) = JNum 42 0
  /\ load (holding default_blob) = of_folders [defaultFolder].
Proof.
  pose proof (load_cases ∅ []) as (H1 & _).
  pose proof (load_cases {[ storage_key := [] ]} []) as (_ & H2 & _).
  pose proof (load_cases {[ storage_key := js "{" ]} (js "{"))
    as (_ & _ & H3 & _).
  pose proof (load_cases {[ storage_key := js "42" ]} (js "42"))
    as (_ & _ & _ & H4 & _).
  pose proof (load_cases {[ storage_key := default_blob ]} default_blob)
    as (_ & _ & _ & _ & H5).
  split; [apply H1; apply lookup_empty|].
  split; [apply H2; apply lookup_singleton_eq|].
  split; [apply H3; [apply lookup_singleton_eq|discriminate|reflexivity]|].
  split; [apply H4; [apply lookup_singleton_eq|discriminate|reflexivity]|].
  apply (H5 [defaultFolder]);
    [apply lookup_singleton_eq|discriminate|reflexivity].
Defined.

(** C1 as the specification words it fails: a stored text that is not
    JSON makes the component start from no folder at all, not from the
    default folder. *)
Lemma load_malformed_is_empty :
  JSON.parse (js "{") = None
  /\ load (holding (js "{")) = of_folders []
  /\ load (holding (js "{")) <> of_folders [defaultFolder].
Proof.
  split; [reflexivity|]. split; [reflexivity|]. discriminate.
Qed.

(** Nor is what it starts from always a sequence of folders: valid JSON
    of another shape is taken as it is. *)
Lemma load_unvalidated :
  load (holding (js "42")) = JNum 42 0
  /\ forall fs, load (holding (js "42")) <> of_folders fs.
Proof. split; [reflexivity|]. intros fs. discriminate. Qed.

End StoreProperties.

(** ** AI gateway *)

Section GatewayProperties.
Import Gateway.

Variable fetch : Request -> FetchResult.
Variables prompt systemInstruction : jsstring.

Lemma callGemini_with_key (key : jsstring) :
  key <> [] ->
  callGemini key fetch prompt systemInstruction =
    ([request key prompt systemInstruction],
     try_catch
       (callGemini_try (fetch (request key prompt systemInstruction)))
       (fun _ => JStr severed)).
Proof. destruct key; [congruence|reflexivity]. Qed.

(** C8. Without a key the call answers with its fixed message and
    issues no request. With a key and a response whose status is not a
    success, the exception raised inside the [try] is caught and the call
    answers with its other fixed message, after the one request. *)
Theorem callGemini_failures (key : jsstring) :
  (key = [] ->
     callGemini key fetch prompt systemInstruction = ([], JStr missing_key))
  /\ (forall status text,
        key <> [] ->
        fetch (request key prompt systemInstruction) = Response status text ->
        ok status = false ->
        callGemini_try (fetch (request key prompt systemInstruction))
          = Throw (ApiError status)
        /\ callGemini key fetch prompt systemInstruction =
             ([request key prompt systemInstruction], JStr severed)).
Proof.
  split.
  - intros ->. reflexivity.
  - intros status text Hkey Hresp Hok.
    rewrite callGemini_with_key by assumption.
    rewrite Hresp. simpl. rewrite Hok. simpl. split; reflexivity.
Qed.

(** A request that fails before any response ends the same way. *)
Lemma callGemini_rejected (key : jsstring) :
  key <> [] ->
  fetch (request key prompt systemInstruction) = Rejected ->
  callGemini key fetch prompt systemInstruction =
    ([request key prompt systemInstruction], JStr severed).
Proof.
  intros Hkey Hresp. rewrite callGemini_with_key by assumption.
  now rewrite Hresp.
Qed.

(** With the key the source is shipped with, every call ends at the
    first fixed message. *)
Lemma callGemini_shipped_key :
  callGemini apiKey fetch prompt systemInstruction = ([], JStr missing_key).
Proof. reflexivity. Qed.

(** Whatever the network does, the call resolves to a truthy value. *)
Lemma callGemini_truthy (key : jsstring) :
  JSON.truthy (callGemini key fetch prompt systemInstruction).2 = true.
Proof.
  unfold callGemini. destruct key as [|c k]; [reflexivity|]. simpl.
  destruct (fetch _) as [|status text]; [reflexivity|]. simpl.
  destruct (ok status); [|reflexivity]. simpl.
  destruct (JSON_parse text) as [data|]; [|reflexivity]. simpl.
  destruct (candidate_text data) as [[v|]|]; simpl; try reflexivity.
  destruct (JSON.truthy v) eqn:E; [exact E|reflexivity].
Qed.

End GatewayProperties.

Lemma callGemini_failures_witness :
  Gateway.callGemini [] (fun _ => Gateway.Rejected) (js "hi") [] =
    ([], JStr Gateway.missing_key)
  /\ Gateway.callGemini (js "k") (fun _ => Gateway.Response 500 (js "{}"))
       (js "hi") []
     = ([Gateway.request (js "k") (js "hi") []], JStr Gateway.severed).
Proof.
  split.
  - apply (proj1 (callGemini_failures (fun _ => Gateway.Rejected)
                    (js "hi") [] [])).
    reflexivity.
  - apply (proj2 (callGemini_failures
                    (fun _ => Gateway.Response 500 (js "{}"))
                    (js "hi") [] (js "k")) 500%N (js "{}")).
    + discriminate.
    + reflexivity.
    + reflexivity.
Defined.

(** A successful reply, read along the whole optional chain. *)
Example callGemini_reply :
  Gateway.callGemini (js "k")
    (fun _ => Gateway.Response 200
       (JsString.dq "{'candidates':[{'content':{'parts':[{'text':'hello'}]}}]}"))
    (js "hi") []
  = ([Gateway.request (js "k") (js "hi") []], JStr (js "hello")).
Proof. reflexivity. Qed.

Example callGemini_empty_reply :
  Gateway.callGemini (js "k")
    (fun _ => Gateway.Response 200 (js "{}")) (js "hi") []
  = ([Gateway.request (js "k") (js "hi") []], JStr Gateway.silent).
Proof. reflexivity. Qed.

Example callGemini_null_reply :
  Gateway.callGemini (js "k")
    (fun _ => Gateway.Response 200 (js "null")) (js "hi") []
  = ([Gateway.request (js "k") (js "hi") []], JStr Gateway.severed).
Proof. reflexivity. Qed.

(** ** Strings *)

Section StringProperties.
Import JsString.

Lemma truthy_false (s : jsstring) : truthy s = false <-> s = [].
Proof. destruct s; simpl; split; congruence. Qed.

Lemma truthy_true (s : jsstring) : truthy s = true <-> s <> [].
Proof. destruct s; simpl; split; congruence. Qed.

Lemma eqb_eq (a b : jsstring) : eqb a b = true <-> a = b.
Proof. unfold eqb. apply bool_decide_eq_true. Qed.

Lemma eqb_neq (a b : jsstring) : eqb a b = false <-> a <> b.
Proof. unfold eqb. apply bool_decide_eq_false. Qed.

Lemma trim_start_nil (s : jsstring) :
  trim_start s = [] <-> forallb is_white_space s = true.
Proof.
  induction s as [|c r IH]; simpl; [tauto|].
  destruct (is_white_space c) eqn:E; simpl; [exact IH|].
  split; discriminate.
Qed.

(** What [trim_start] leaves does not begin with white space. *)
Lemma trim_start_head (s : jsstring) :
  match trim_start s with
  | [] => True
  | c :: _ => is_white_space c = false
  end.
Proof.
  induction s as [|c r IH]; simpl; [exact I|].
  destruct (is_white_space c) eqn:E; [exact IH|exact E].
Qed.

Lemma forallb_rev {A} (p : A -> bool) (l : list A) :
  forallb p (rev l) = forallb p l.
Proof.
  induction l as [|x l IH]; simpl; [reflexivity|].
  rewrite forallb_app, IH. simpl. rewrite andb_true_r. apply andb_comm.
Qed.

Lemma trim_end_nil (s : jsstring) :
  trim_end s = [] <-> forallb is_white_space s = true.
Proof.
  unfold trim_end. rewrite <- (forallb_rev _ s), <- trim_start_nil.
  split; intros H.
  - apply (f_equal (@rev N)) in H. now rewrite rev_involutive in H.
  - now rewrite H.
Qed.

(** [s.trim()] is empty exactly when [s] is white space throughout. *)
Lemma trim_nil (s : jsstring) :
  trim s = [] <-> forallb is_white_space s = true.
Proof.
  unfold trim. rewrite trim_end_nil. split; intros H.
  - apply trim_start_nil.
    pose proof (trim_start_head s) as Hh.
    destruct (trim_start s) as [|c r]; [reflexivity|].
    simpl in H. rewrite Hh in H. discriminate.
  - apply trim_start_nil in H. now rewrite H.
Qed.

Lemma uint_digits_nil (d : Decimal.uint) :
  uint_digits d = [] -> d = Decimal.Nil.
Proof. destruct d; simpl; congruence. Qed.

(** A time value never prints as the empty string. *)
Lemma of_integer_nonempty (n : Z) : of_integer n <> [].
Proof.
  destruct n as [|p|p]; simpl; try discriminate.
  intros H. apply uint_digits_nil in H.
  now apply DecimalPos.Unsigned.to_uint_nonnil in H.
Qed.

End StringProperties.

(** ** Creating a folder *)

Section CreateFolder.

Variable now : Z.
Variable st : State.

Abbreviation newFolderName := (Form.newFolderName (form st)).
Abbreviation newFolderPass := (Form.newFolderPass (form st)).

(** C6. With a name or a password that is empty once trimmed, the store
    stays as it is and an error toast is shown. Otherwise the folder of
    that name and password, without bookmarks, is added at the end of
    the store. *)
Theorem handleCreateFolder_spec :
  (JsString.trim newFolderName = [] \/ JsString.trim newFolderPass = [] ->
     folders (handleCreateFolder now st) = folders st
     /\ toast (handleCreateFolder now st)
        = Some (ToastState.mk (js "Name and password required") error))
  /\ (JsString.trim newFolderName <> [] ->
      JsString.trim newFolderPass <> [] ->
      folders (handleCreateFolder now st)
        = folders st
          ++ [Folder.mk (JsString.of_integer now)
                        newFolderName newFolderPass []]
      /\ toast (handleCreateFolder now st)
         = Some (ToastState.mk (js "Folder created successfully") success)).
Proof.
  unfold handleCreateFolder. split.
  - intros H.
    assert (Hguard : negb (JsString.truthy (JsString.trim newFolderName))
                     || negb (JsString.truthy (JsString.trim newFolderPass))
                     = true).
    { destruct H as [H|H]; rewrite H; simpl;
        [reflexivity|apply orb_true_r]. }
    rewrite Hguard. split; reflexivity.
  - intros Hn Hp.
    apply truthy_true in Hn. apply truthy_true in Hp.
    rewrite Hn, Hp. simpl. split; reflexivity.
Qed.

(** The folder that is added has an ID that is not the empty string. *)
Lemma handleCreateFolder_ids :
  Forall (fun f => Folder.id f <> []) (folders st) ->
  Forall (fun f => Folder.id f <> []) (folders (handleCreateFolder now st)).
Proof.
  intros H. unfold handleCreateFolder.
  destruct (_ || _); simpl; [exact H|].
  apply Forall_app. split; [exact H|].
  constructor; [|constructor]. simpl. apply of_integer_nonempty.
Qed.

End CreateFolder.

(** ** Lists *)

Lemma map_fixed {A} (f : A -> A) (l : list A) :
  (forall x, x ∈ l -> f x = x) -> map f l = l.
Proof.
  induction l as [|x l IH]; intros H; simpl; [reflexivity|].
  rewrite H by left. f_equal. apply IH. intros y Hy. apply H. now right.
Qed.

Lemma filter_all {A} (P : A -> Prop) `{forall x, Decision (P x)} (l : list A) :
  Forall P l -> filter P l = l.
Proof.
  induction 1 as [|x l Hx _ IH]; [reflexivity|].
  rewrite filter_cons_True by assumption. now rewrite IH.
Qed.

Lemma filter_twice {A} (P : A -> Prop) `{forall x, Decision (P x)}
    (l : list A) :
  filter P (filter P l) = filter P l.
Proof.
  apply filter_all, Forall_forall. intros x Hx.
  now apply list_elem_of_filter in Hx.
Qed.

Lemma lookup_map {A B} (f : A -> B) (l : list A) (i : nat) :
  map f l !! i = f <$> l !! i.
Proof. apply (list_lookup_fmap f l i). Qed.

Lemma with_bookmarks_same (f : Folder) :
  Folder.with_bookmarks (Folder.bookmarks f) f = f.
Proof. now destruct f. Qed.

(** ** Deleting a bookmark *)

Section DeleteBookmark.

Variable bookmarkId : jsstring.
Variable st : State.

Abbreviation others := (fun b : Bookmark => Bookmark.id b <> bookmarkId).

Lemma without_bookmark_lookup (i : nat) :
  without_bookmark bookmarkId st !! i =
    (fun f =>
       if is_active st f
       then Folder.with_bookmarks (filter others (Folder.bookmarks f)) f
       else f) <$> folders st !! i.
Proof. apply lookup_map. Qed.

(** A folder that is not the active one stays as it is, at its place. *)
Lemma without_bookmark_other (i : nat) (f : Folder) :
  folders st !! i = Some f ->
  activeFolderId st <> Some (Folder.id f) ->
  without_bookmark bookmarkId st !! i = Some f.
Proof.
  intros Hf Hne. rewrite without_bookmark_lookup, Hf. simpl.
  unfold is_active. now rewrite bool_decide_eq_false_2.
Qed.

(** The active folder keeps its place, ID, name and password; of its
    bookmarks exactly those of another ID stay, in their order. *)
Lemma without_bookmark_active (i : nat) (f : Folder) :
  folders st !! i = Some f ->
  activeFolderId st = Some (Folder.id f) ->
  without_bookmark bookmarkId st !! i =
    Some (Folder.with_bookmarks (filter others (Folder.bookmarks f)) f).
Proof.
  intros Hf He. rewrite without_bookmark_lookup, Hf. simpl.
  unfold is_active. now rewrite bool_decide_eq_true_2.
Qed.

(** Nothing to delete: the folders stay as they are. *)
Lemma without_bookmark_absent :
  (forall f b, f ∈ folders st -> activeFolderId st = Some (Folder.id f) ->
               b ∈ Folder.bookmarks f -> Bookmark.id b <> bookmarkId) ->
  without_bookmark bookmarkId st = folders st.
Proof.
  intros Habs. unfold without_bookmark. apply map_fixed. intros f Hf.
  unfold is_active. case_bool_decide as He; [|reflexivity].
  rewrite filter_all; [apply with_bookmarks_same|].
  apply Forall_forall. intros b Hb. now apply (Habs f).
Qed.

Lemma without_bookmark_twice :
  without_bookmark bookmarkId
    (setFolders (without_bookmark bookmarkId st) st)
  = without_bookmark bookmarkId st.
Proof.
  unfold without_bookmark at 1. simpl. unfold without_bookmark.
  rewrite map_map. apply map_ext. intros f.
  unfold is_active; simpl.
  destruct (decide (activeFolderId st = Some (Folder.id f))) as [He|He].
  - rewrite (bool_decide_eq_true_2 _ He). simpl.
    rewrite (bool_decide_eq_true_2 _ He).
    unfold Folder.with_bookmarks; simpl. now rewrite filter_twice.
  - rewrite (bool_decide_eq_false_2 _ He).
    now rewrite (bool_decide_eq_false_2 _ He).
Qed.

(** The deletion from the details dialog deletes the selected
    bookmark in the same way. *)
Lemma handleDeleteFromModal_folders (sel : Bookmark) :
  selectedBookmark st = Some sel ->
  truthy_id (activeFolderId st) = true ->
  folders (handleDeleteFromModal true st)
    = without_bookmark (Bookmark.id sel) st
  /\ handleDeleteFromModal false st = st.
Proof.
  intros Hs Ha. unfold handleDeleteFromModal. rewrite Hs, Ha.
  split; reflexivity.
Qed.

(** C5. Deleting a bookmark, once confirmed, leaves every folder but
    the active one as it is, removes every bookmark of that ID from the
    active folder and keeps the others of that folder, in their order.
    When no bookmark of the active folder has that ID the deletion
    changes nothing, so that deleting again is a no-op. The deletion
    from the details dialog does the same with the selected bookmark. *)
Theorem deleteBookmark_spec :
  let st' := deleteBookmark bookmarkId true st in
  (forall i f, folders st !! i = Some f ->
               activeFolderId st <> Some (Folder.id f) ->
               folders st' !! i = Some f)
  /\ (forall i f, folders st !! i = Some f ->
                  activeFolderId st = Some (Folder.id f) ->
                  exists f',
                    folders st' !! i = Some f'
                    /\ Folder.id f' = Folder.id f
                    /\ Folder.name f' = Folder.name f
                    /\ Folder.password f' = Folder.password f
                    /\ Folder.bookmarks f' = filter others (Folder.bookmarks f)
                    /\ Forall others (Folder.bookmarks f')
                    /\ (forall b, b ∈ Folder.bookmarks f ->
                                  Bookmark.id b <> bookmarkId ->
                                  b ∈ Folder.bookmarks f'))
  /\ ((forall f b, f ∈ folders st ->
                   activeFolderId st = Some (Folder.id f) ->
                   b ∈ Folder.bookmarks f -> Bookmark.id b <> bookmarkId) ->
      st' = st)
  /\ deleteBookmark bookmarkId true st' = st'
  /\ deleteBookmark bookmarkId false st = st
  /\ (forall sel,
        selectedBookmark st = Some sel ->
        truthy_id (activeFolderId st) = true ->
        Bookmark.id sel = bookmarkId ->
        folders (handleDeleteFromModal true st) = folders st').
Proof.
  cbv zeta. unfold deleteBookmark. simpl.
  split; [|split; [|split; [|split; [|split]]]]; try reflexivity.
  - exact without_bookmark_other.
  - intros i f Hf He. eexists. split.
    + exact (without_bookmark_active i f Hf He).
    + simpl. repeat split; try reflexivity.
      * apply Forall_forall. intros b Hb.
        now apply list_elem_of_filter in Hb.
      * intros b Hb Hne. now apply list_elem_of_filter.
  - intros Habs. rewrite without_bookmark_absent by assumption.
    now destruct st.
  - unfold setFolders at 1. simpl. rewrite without_bookmark_twice.
    reflexivity.
  - intros sel Hs Ha <-.
    apply (proj1 (handleDeleteFromModal_folders sel Hs Ha)).
Qed.

End DeleteBookmark.

(** ** Media *)

Section MapQueue.
Context {A B E : Type} (f : A -> B * option E).

Lemma map_queue_fst (xs : list A) :
  (map_queue f xs).1 = map (fun x => (f x).1) xs.
Proof.
  induction xs as [|x r IH]; simpl; [reflexivity|].
  destruct (f x) as [y e], (map_queue f r) as [ys e']. simpl in *.
  now rewrite IH.
Qed.

Lemma map_queue_none (xs : list A) :
  (forall x, x ∈ xs -> (f x).2 = None) -> (map_queue f xs).2 = None.
Proof.
  induction xs as [|x r IH]; intros H; simpl; [reflexivity|].
  pose proof (H x ltac:(left)) as Hx.
  destruct (f x) as [y e], (map_queue f r) as [ys e']. simpl in *.
  subst e. rewrite IH; [reflexivity|].
  intros z Hz. apply H. now right.
Qed.

Lemma map_queue_some (xs : list A) (e : E) :
  (map_queue f xs).2 = Some e -> exists x, x ∈ xs /\ (f x).2 = Some e.
Proof.
  induction xs as [|x r IH]; simpl; [discriminate|].
  destruct (f x) as [y e0] eqn:Ex, (map_queue f r) as [ys e'].
  simpl in *. destruct e' as [e1|]; simpl; intros H.
  - destruct (IH H) as (z & Hz & Hfz). exists z. split; [now right|easy].
  - exists x. split; [left|]. now rewrite Ex.
Qed.
End MapQueue.

Section Media.

Variable change : list MediaItem -> list MediaItem.
Variable sel : Bookmark.
Variable st : State.

Lemma update_media_folders :
  (update_media change sel st).1
  = map (media_changed_in_folder change sel st) (folders st).
Proof.
  unfold update_media. rewrite map_queue_fst. apply map_ext. intros f.
  unfold media_changed_in_folder. destruct (is_active st f); [|reflexivity].
  match goal with
  | |- context [map_queue ?g ?l] =>
      pose proof (map_queue_fst g l) as H; destruct (map_queue g l) as [bs q]
  end.
  simpl in *. rewrite H. f_equal. apply map_ext. intros b.
  unfold media_changed_in_bookmark. now destruct (bool_decide _).
Qed.

(** The bookmark queued as the selected one has the ID of the one that
    was selected. *)
Lemma update_media_queued (b' : Bookmark) :
  (update_media change sel st).2 = Some b' ->
  Bookmark.id b' = Bookmark.id sel.
Proof.
  unfold update_media. intros H.
  apply map_queue_some in H as (f & _ & Hf).
  destruct (is_active st f); [|discriminate].
  match type of Hf with
  | context [map_queue ?g ?l] =>
      pose proof (map_queue_some g l b') as Hq;
      destruct (map_queue g l) as [bs q]
  end.
  simpl in *. destruct (Hq Hf) as (b & _ & Hb).
  case_bool_decide as He; [|discriminate].
  simpl in Hb. injection Hb as <-. exact He.
Qed.

(** No folder is the active one: the pass changes nothing. *)
Lemma update_media_no_active :
  (forall f, f ∈ folders st -> activeFolderId st <> Some (Folder.id f)) ->
  map (media_changed_in_folder change sel st) (folders st) = folders st.
Proof.
  intros H. apply map_fixed. intros f Hf.
  unfold media_changed_in_folder, is_active.
  now rewrite bool_decide_eq_false_2 by now apply H.
Qed.

End Media.

(** What the two handlers do to a media sequence. *)
Abbreviation adding newMedia :=
  (fun media : list MediaItem => media ++ [newMedia]).
Abbreviation deleting id :=
  (fun media : list MediaItem => filter (fun m => MediaItem.id m <> id) media).

Section MediaHandlers.

Variable type : MediaType.
Variables content iso mediaId : jsstring.
Variable now : Z.
Variable st : State.

Abbreviation newMedia :=
  (MediaItem.mk (JsString.of_integer now) type content iso).

Lemma handleAddMedia_folders (sel : Bookmark) :
  selectedBookmark st = Some sel ->
  truthy_id (activeFolderId st) = true ->
  folders (handleAddMedia type content now iso st)
    = map (media_changed_in_folder (adding newMedia) sel st) (folders st).
Proof.
  intros Hs Ha. unfold handleAddMedia, handleAddMedia_from. rewrite Hs, Ha.
  rewrite <- update_media_folders.
  now destruct (update_media _ sel st) as [fs q].
Qed.

Lemma deleteMedia_folders (sel : Bookmark) :
  selectedBookmark st = Some sel ->
  truthy_id (activeFolderId st) = true ->
  folders (deleteMedia mediaId st)
    = map (media_changed_in_folder (deleting mediaId) sel st) (folders st).
Proof.
  intros Hs Ha. unfold deleteMedia. rewrite Hs, Ha.
  rewrite <- update_media_folders.
  now destruct (update_media _ sel st) as [fs q].
Qed.

(** After an addition a bookmark of the same ID is selected and the
    same folder is active. *)
Lemma handleAddMedia_selection (sel : Bookmark) :
  selectedBookmark st = Some sel ->
  activeFolderId (handleAddMedia type content now iso st) = activeFolderId st
  /\ exists sel',
       selectedBookmark (handleAddMedia type content now iso st) = Some sel'
       /\ Bookmark.id sel' = Bookmark.id sel.
Proof.
  intros Hs. unfold handleAddMedia, handleAddMedia_from. rewrite Hs.
  destruct (truthy_id _); [|split; [reflexivity|now exists sel]].
  pose proof (update_media_queued (adding newMedia) sel st) as Hq.
  destruct (update_media _ sel st) as [fs [b'|]]; simpl in *.
  - split; [reflexivity|]. exists b'. split; [reflexivity|now apply Hq].
  - split; [reflexivity|]. now exists sel.
Qed.

(** C10. Without a selected bookmark, or without an active folder,
    adding and deleting media return at once and leave the whole state
    as it is. With an active folder ID that no folder of the store has,
    they leave the folders as they are. *)
Theorem media_guards :
  (selectedBookmark st = None \/ activeFolderId st = None ->
     handleAddMedia type content now iso st = st
     /\ deleteMedia mediaId st = st)
  /\ ((forall f, f ∈ folders st ->
                 activeFolderId st <> Some (Folder.id f)) ->
      folders (handleAddMedia type content now iso st) = folders st
      /\ folders (deleteMedia mediaId st) = folders st).
Proof.
  split.
  - unfold handleAddMedia, handleAddMedia_from, deleteMedia.
    intros [H|H]; rewrite H; simpl;
      [|destruct (selectedBookmark st)]; split; reflexivity.
  - intros Hno.
    destruct (selectedBookmark st) as [sel|] eqn:Hs;
      [|unfold handleAddMedia, handleAddMedia_from, deleteMedia; rewrite Hs;
       split; reflexivity].
    destruct (truthy_id (activeFolderId st)) eqn:Ha;
      [|unfold handleAddMedia, handleAddMedia_from, deleteMedia; rewrite Hs, Ha;
        split; reflexivity].
    rewrite (handleAddMedia_folders sel), (deleteMedia_folders sel)
      by assumption.
    split; now apply update_media_no_active.
Qed.

End MediaHandlers.

Section MediaRoundTrip.

Variable type : MediaType.
Variables content iso : jsstring.
Variable now : Z.
Variable st : State.

Abbreviation newId := (JsString.of_integer now).
Abbreviation newMedia := (MediaItem.mk newId type content iso).
Abbreviation added := (handleAddMedia type content now iso st).

Lemma add_then_delete_in_bookmark (sel sel' b : Bookmark) :
  Bookmark.id sel' = Bookmark.id sel ->
  (Bookmark.id b = Bookmark.id sel ->
   Forall (fun m => MediaItem.id m <> newId) (Bookmark.media b)) ->
  media_changed_in_bookmark (deleting newId) sel'
    (media_changed_in_bookmark (adding newMedia) sel b)
  = b.
Proof.
  intros Hid Hfresh. unfold media_changed_in_bookmark.
  destruct (decide (Bookmark.id b = Bookmark.id sel)) as [He|He].
  - rewrite (bool_decide_eq_true_2 _ He). simpl.
    rewrite bool_decide_eq_true_2 by congruence.
    unfold Bookmark.with_media; simpl.
    rewrite filter_app, (filter_all _ _ (Hfresh He)).
    rewrite filter_cons_False by (simpl; tauto).
    rewrite filter_nil, app_nil_r. now destruct b.
  - rewrite (bool_decide_eq_false_2 _ He).
    rewrite bool_decide_eq_false_2 by congruence. reflexivity.
Qed.

(** The round trip of an addition made from the current render. *)
Lemma add_then_delete_current :
  fresh_media_id now st ->
  folders (deleteMedia newId added) = folders st.
Proof.
  intros Hfresh.
  destruct (selectedBookmark st) as [sel|] eqn:Hs;
    [|unfold handleAddMedia, handleAddMedia_from; rewrite Hs;
      unfold deleteMedia; now rewrite Hs].
  destruct (truthy_id (activeFolderId st)) eqn:Ha;
    [|unfold handleAddMedia, handleAddMedia_from; rewrite Hs, Ha;
      unfold deleteMedia; now rewrite Hs, Ha].
  destruct (handleAddMedia_selection type content iso now st sel Hs)
    as (Hact & sel' & Hs' & Hid).
  rewrite (deleteMedia_folders newId added sel' Hs')
    by now rewrite Hact.
  rewrite (handleAddMedia_folders type content iso now st sel Hs Ha).
  rewrite map_map. apply map_fixed. intros f Hf.
  unfold media_changed_in_folder, is_active. rewrite Hact. simpl.
  destruct (decide (activeFolderId st = Some (Folder.id f))) as [He|He].
  - rewrite (bool_decide_eq_true_2 _ He). simpl.
    rewrite (bool_decide_eq_true_2 _ He).
    unfold Folder.with_bookmarks; simpl. rewrite map_map.
    rewrite map_fixed; [now destruct f|].
    intros b Hb. apply add_then_delete_in_bookmark; [exact Hid|].
    intros Hbid. apply Forall_forall. intros m Hm.
    now apply (Hfresh sel f b m).
  - rewrite (bool_decide_eq_false_2 _ He).
    now rewrite (bool_decide_eq_false_2 _ He).
Qed.

(** A handler that reads the folders, the active folder and the selected
    bookmark of the current state does what the handler of the current
    render does, whatever else the render it closes over held. *)
Lemma handleAddMedia_from_current (seen : State) :
  folders seen = folders st ->
  activeFolderId seen = activeFolderId st ->
  selectedBookmark seen = selectedBookmark st ->
  handleAddMedia_from seen type content now iso st = added.
Proof.
  intros Hf Ha Hs.
  unfold handleAddMedia, handleAddMedia_from, update_media, is_active.
  now rewrite Hf, Ha, Hs.
Qed.

(** C4, as the code has it. The handler that adds reads the folders, the
    active folder and the selected bookmark of the render it closes
    over, [seen]: the current render for a video link, the render of
    the press on Rec or of the choice of the file for a recording or an
    image. When these three are the current ones, and the ID the new
    item gets is not the ID of an item already attached, adding a media
    item and then deleting it by its ID gives back the folders, and so
    every media sequence, as they were. *)
Theorem add_then_delete_media (seen : State) :
  folders seen = folders st ->
  activeFolderId seen = activeFolderId st ->
  selectedBookmark seen = selectedBookmark st ->
  fresh_media_id now st ->
  folders
    (deleteMedia newId (handleAddMedia_from seen type content now iso st))
  = folders st.
Proof.
  intros Hf Ha Hs Hfresh.
  rewrite (handleAddMedia_from_current seen Hf Ha Hs).
  now apply add_then_delete_current.
Qed.

(** In between, every bookmark of the active folder with the selected
    ID carries the new item at the end of its media. *)
Lemma handleAddMedia_appends (sel : Bookmark) (i j : nat)
    (f : Folder) (b : Bookmark) :
  selectedBookmark st = Some sel ->
  truthy_id (activeFolderId st) = true ->
  folders st !! i = Some f -> activeFolderId st = Some (Folder.id f) ->
  Folder.bookmarks f !! j = Some b -> Bookmark.id b = Bookmark.id sel ->
  exists f' b',
    folders added !! i = Some f'
    /\ Folder.bookmarks f' !! j = Some b'
    /\ Bookmark.media b'
       = Bookmark.media b ++ [MediaItem.mk newId type content iso].
Proof.
  intros Hs Ha Hf He Hb Hid.
  rewrite (handleAddMedia_folders type content iso now st sel Hs Ha).
  eexists _, _. split; [|split].
  - rewrite lookup_map, Hf. reflexivity.
  - unfold media_changed_in_folder, is_active.
    rewrite (bool_decide_eq_true_2 _ He). simpl.
    rewrite lookup_map, Hb. reflexivity.
  - unfold media_changed_in_bookmark.
    now rewrite (bool_decide_eq_true_2 _ Hid).
Qed.

End MediaRoundTrip.

(** ** Unlocking a folder *)

Lemma find_unique_id (fs : list Folder) (f : Folder) :
  NoDup (map Folder.id fs) -> f ∈ fs ->
  find (fun g => bool_decide (Some (Folder.id g) = Some (Folder.id f))) fs
    = Some f.
Proof.
  induction fs as [|g fs IH]; intros Hnd Hin; [inversion Hin|].
  simpl in *. apply NoDup_cons in Hnd as [Hg Hnd].
  apply elem_of_cons in Hin as [->|Hin].
  - now rewrite bool_decide_eq_true_2.
  - rewrite bool_decide_eq_false_2; [now apply IH|].
    intros [= He]. apply Hg. rewrite He.
    apply list_elem_of_In, in_map, list_elem_of_In, Hin.
Qed.

Section Unlock.

Variable st : State.
Variable f : Folder.

(** The folder is in the store, under an ID that no other folder has
    and that is not the empty string, and it is the one to unlock. *)
Hypothesis Hin : f ∈ folders st.
Hypothesis Hunique : NoDup (map Folder.id (folders st)).
Hypothesis Hasked : folderToUnlock st = Some (Folder.id f).
Hypothesis Hid : Folder.id f <> [].

Lemma handleUnlock_match :
  Form.unlockInput (form st) = Folder.password f ->
  handleUnlock st =
    st |> setUnlockedFolders ({[ Folder.id f ]} ∪ unlockedFolders st)
       |> setActiveFolderId (Some (Folder.id f))
       |> onModals (Modals.setUnlockModalOpen false)
       |> onForm (Form.setUnlockInput []).
Proof.
  intros Hpw. unfold handleUnlock. rewrite Hasked.
  rewrite (find_unique_id _ _ Hunique Hin).
  rewrite (proj2 (eqb_eq _ _)) by easy.
  now rewrite (proj2 (truthy_true _) Hid).
Qed.

Lemma handleUnlock_mismatch :
  Form.unlockInput (form st) <> Folder.password f ->
  handleUnlock st = st |> setToast (Some incorrect).
Proof.
  intros Hpw. unfold handleUnlock. rewrite Hasked.
  rewrite (find_unique_id _ _ Hunique Hin).
  now rewrite (proj2 (eqb_neq _ _)) by easy.
Qed.

(** Wrong guesses leave all but the toast and the password field as
    they were, however many they are. *)
Lemma wrong_guesses (guesses : list jsstring) :
  Forall (fun g => g <> Folder.password f) guesses ->
  let st' := fold_left (fun s g => guess g s) guesses st in
  folders st' = folders st
  /\ folderToUnlock st' = folderToUnlock st
  /\ unlockedFolders st' = unlockedFolders st
  /\ activeFolderId st' = activeFolderId st.
Proof.
  clear Hid. revert st Hin Hunique Hasked.
  induction guesses as [|g gs IH]; intros s Hi Hu Ha Hall; simpl;
    [easy|].
  apply Forall_cons in Hall as [Hg Hgs].
  assert (Hstep : guess g s
                  = s |> onForm (Form.setUnlockInput g)
                      |> setToast (Some incorrect)).
  { unfold guess. unfold handleUnlock. simpl. rewrite Ha.
    rewrite (find_unique_id _ _ Hu Hi).
    now rewrite (proj2 (eqb_neq _ _)) by easy. }
  rewrite Hstep.
  destruct (IH (s |> onForm (Form.setUnlockInput g)
                  |> setToast (Some incorrect))) as (H1 & H2 & H3 & H4);
    try assumption.
  now rewrite H1, H2, H3, H4.
Qed.

End Unlock.

(** C3. For a folder of a store as the data model has it, the IDs of
    the folders distinct and none the empty string (the IDs the code
    gives are [default] and the decimal text of a time): pressing Unlock
    adds its ID to the unlocked set and makes it the active folder
    exactly when the password field holds its password; with anything
    else the unlocked set and the active folder stay and the error toast
    is shown. Nothing counts the failures: after any wrong guesses the
    right password unlocks. *)
Theorem handleUnlock_spec (st : State) (f : Folder) :
  f ∈ folders st ->
  NoDup (map Folder.id (folders st)) ->
  folderToUnlock st = Some (Folder.id f) ->
  Folder.id f <> [] ->
  (Form.unlockInput (form st) = Folder.password f ->
     unlockedFolders (handleUnlock st)
       = {[ Folder.id f ]} ∪ unlockedFolders st
     /\ activeFolderId (handleUnlock st) = Some (Folder.id f)
     /\ toast (handleUnlock st) = toast st)
  /\ (Form.unlockInput (form st) <> Folder.password f ->
      unlockedFolders (handleUnlock st) = unlockedFolders st
      /\ activeFolderId (handleUnlock st) = activeFolderId st
      /\ toast (handleUnlock st) = Some incorrect)
  /\ (Folder.id f ∉ unlockedFolders st ->
      (Folder.id f ∈ unlockedFolders (handleUnlock st)
       /\ activeFolderId (handleUnlock st) = Some (Folder.id f))
      <-> Form.unlockInput (form st) = Folder.password f)
  /\ (forall guesses,
        Forall (fun g => g <> Folder.password f) guesses ->
        let st' := fold_left (fun s g => guess g s) guesses st in
        Folder.id f ∈ unlockedFolders (guess (Folder.password f) st')
        /\ activeFolderId (guess (Folder.password f) st')
           = Some (Folder.id f)).
Proof.
  intros Hin Hunique Hasked Hid.
  pose proof (handleUnlock_match st f Hin Hunique Hasked Hid) as Hyes.
  pose proof (handleUnlock_mismatch st f Hin Hunique Hasked) as Hno.
  repeat split.
  - rewrite Hyes by assumption. reflexivity.
  - now rewrite Hyes by assumption.
  - now rewrite Hyes by assumption.
  - now rewrite Hno by assumption.
  - now rewrite Hno by assumption.
  - now rewrite Hno by assumption.
  - intros [Hu _].
    destruct (decide (Form.unlockInput (form st) = Folder.password f))
      as [|Hne]; [assumption|].
    rewrite Hno in Hu by assumption. now simpl in Hu.
  - rewrite Hyes by assumption. simpl. set_solver.
  - now rewrite Hyes by assumption.
  - destruct (wrong_guesses st f Hin Hunique Hasked guesses H)
      as (H1 & H2 & _ & _).
    cbv zeta in *. unfold guess at 1.
    pose proof (handleUnlock_match
                  (fold_left (fun s g => guess g s) guesses st
                     |> onForm (Form.setUnlockInput (Folder.password f))) f)
      as Hm.
    simpl in Hm. rewrite H1, H2 in Hm.
    rewrite (Hm Hin Hunique Hasked Hid eq_refl). simpl. set_solver.
  - destruct (wrong_guesses st f Hin Hunique Hasked guesses H)
      as (H1 & H2 & _ & _).
    cbv zeta in *. unfold guess at 1.
    pose proof (handleUnlock_match
                  (fold_left (fun s g => guess g s) guesses st
                     |> onForm (Form.setUnlockInput (Folder.password f))) f)
      as Hm.
    simpl in Hm. rewrite H1, H2 in Hm.
    now rewrite (Hm Hin Hunique Hasked Hid eq_refl).
Qed.

(** ** The unlocked set over a session *)

Lemma queueSelectedBookmark_unlocked q st :
  unlockedFolders (queueSelectedBookmark q st) = unlockedFolders st.
Proof. now destruct q. Qed.

Section UnlockedSet.

Variable URL_hostname : jsstring -> option jsstring.

Lemma handleAddMedia_from_unlocked seen type content now iso st :
  unlockedFolders (handleAddMedia_from seen type content now iso st)
    = unlockedFolders st.
Proof.
  unfold handleAddMedia_from. repeat case_match; simpl;
    rewrite ?queueSelectedBookmark_unlocked; reflexivity.
Qed.

Lemma handleAddMedia_unlocked type content now iso st :
  unlockedFolders (handleAddMedia type content now iso st)
    = unlockedFolders st.
Proof. apply handleAddMedia_from_unlocked. Qed.

Lemma deleteMedia_unlocked mediaId st :
  unlockedFolders (deleteMedia mediaId st) = unlockedFolders st.
Proof.
  unfold deleteMedia. repeat case_match; simpl;
    rewrite ?queueSelectedBookmark_unlocked; reflexivity.
Qed.

Lemma handleAddBookmark_unlocked now_img iso_img now iso st st' :
  handleAddBookmark URL_hostname now_img iso_img now iso st = Normal st' ->
  unlockedFolders st' = unlockedFolders st.
Proof.
  unfold handleAddBookmark.
  destruct (negb _); [now intros [= <-]|].
  destruct (JSON.truthy (Form.newBookmarkTitle _)); simpl.
  - now intros [= <-].
  - unfold hostname. destruct (URL_hostname _); simpl; [|discriminate].
    now intros [= <-].
Qed.

Lemma settle_unlocked result st :
  unlockedFolders (Enchant.settle result st) = unlockedFolders st.
Proof.
  unfold Enchant.settle, Enchant.settle_try, Enchant.clean, JSON_parse,
    member, mbind, Completion_bind.
  repeat case_match; reflexivity.
Qed.

(** Every event but a press on Unlock leaves the unlocked set as it is. *)
Lemma after_unlocked_same (ev : Event) (st : State) :
  ev <> Unlock ->
  unlockedFolders (after URL_hostname ev st) = unlockedFolders st.
Proof.
  intros Hev. unfold after.
  destruct ev; try congruence; simpl;
    try reflexivity;
    try apply handleAddMedia_from_unlocked;
    try apply deleteMedia_unlocked;
    try apply settle_unlocked;
    try (destruct (handleAddBookmark _ _ _ _ _ _) eqn:E; simpl;
         [now apply handleAddBookmark_unlocked in E|reflexivity]);
    unfold closeSidebarIfNarrow, selectFolder, handleCreateFolder,
      handleCreationImageUpload, creationImageLoaded, handleImageUpload,
      imageLoaded, handleAddVideoLink,
      deleteBookmark, handleDeleteFromModal, Enchant.start, Oracle.start;
    simpl; repeat case_match; simpl;
    rewrite ?handleAddMedia_unlocked, ?handleAddMedia_from_unlocked;
    reflexivity.
Qed.

(** A press on Unlock leaves the set as it is or adds the ID the
    dialog was opened for, the latter only when the first folder of that
    ID has the password that was typed. *)
Lemma after_unlock (st : State) :
  unlockedFolders (after URL_hostname Unlock st) = unlockedFolders st
  \/ exists id f,
       folderToUnlock st = Some id
       /\ find (fun g => bool_decide (Some (Folder.id g) = Some id))
               (folders st) = Some f
       /\ Folder.password f = Form.unlockInput (form st)
       /\ unlockedFolders (after URL_hostname Unlock st)
          = {[ id ]} ∪ unlockedFolders st.
Proof.
  unfold after. simpl. unfold handleUnlock.
  destruct (find _ _) as [f|] eqn:Hfind; [|now left].
  destruct (JsString.eqb _ _) eqn:Hpw; [|now left].
  destruct (folderToUnlock st) as [id|] eqn:Hid; [|now left].
  destruct (JsString.truthy id); [|now left].
  right. exists id, f. apply eqb_eq in Hpw. easy.
Qed.

Lemma after_unlocked_grows (ev : Event) (st : State) :
  unlockedFolders st ⊆ unlockedFolders (after URL_hostname ev st).
Proof.
  assert (ev = Unlock \/ ev <> Unlock) as [->|Hev]
    by (destruct ev; (now left) || (right; discriminate)).
  - destruct (after_unlock st) as [->|(id & f & _ & _ & _ & ->)];
      set_solver.
  - now rewrite after_unlocked_same.
Qed.

(** C9. Over a session the unlocked set only grows: every event but a
    press on Unlock leaves it as it is, a press on Unlock leaves it or
    adds one ID to it on a matching password, and so a folder that is
    unlocked stays unlocked whatever happens next. *)
Theorem unlocked_monotone (st : State) :
  (forall ev, ev <> Unlock ->
     unlockedFolders (after URL_hostname ev st) = unlockedFolders st)
  /\ (unlockedFolders (after URL_hostname Unlock st) = unlockedFolders st
      \/ exists id f,
           folderToUnlock st = Some id
           /\ find (fun g => bool_decide (Some (Folder.id g) = Some id))
                   (folders st) = Some f
           /\ Folder.password f = Form.unlockInput (form st)
           /\ unlockedFolders (after URL_hostname Unlock st)
              = {[ id ]} ∪ unlockedFolders st)
  /\ (forall evs id,
        id ∈ unlockedFolders st ->
        id ∈ unlockedFolders (run URL_hostname evs st)).
Proof.
  split; [intros ev; apply after_unlocked_same|].
  split; [apply after_unlock|].
  intros evs. revert st.
  induction evs as [|ev evs IH]; intros st id Hid; [exact Hid|].
  simpl. apply IH. now apply after_unlocked_grows.
Qed.

End UnlockedSet.

(** ** Adding a bookmark *)

Section AddBookmark.

Variable URL_hostname : jsstring -> option jsstring.
Variables now_img now : Z.
Variables iso_img iso : jsstring.
Variable st : State.

Abbreviation input := (Form.newBookmarkUrl (form st)).
Abbreviation saved :=
  (handleAddBookmark URL_hostname now_img iso_img now iso st).

(** The folders once [b] is put in front of the bookmarks of the
    active folder. *)
Abbreviation with_new b :=
  (map (fun f =>
          if is_active st f
          then Folder.with_bookmarks (b :: Folder.bookmarks f) f
          else f)
       (folders st)).

(** A URL field that is empty once trimmed: nothing is saved. *)
Lemma handleAddBookmark_blank :
  JsString.trim input = [] -> saved = Normal st.
Proof. intros H. unfold handleAddBookmark. now rewrite H. Qed.

(** No title and a URL the platform rejects: the handler throws, and
    nothing is saved. *)
Lemma handleAddBookmark_throws :
  JsString.trim input <> [] ->
  JSON.truthy (Form.newBookmarkTitle (form st)) = false ->
  URL_hostname
    (if JsString.has_http_scheme input then input
     else js "https://" ++ input) = None ->
  saved = Throw TypeError.
Proof.
  intros Hne Ht Hh. unfold handleAddBookmark, hostname.
  rewrite (proj2 (truthy_true _) Hne). cbn [negb]. cbv zeta.
  now rewrite Ht, Hh.
Qed.

(** An input that has its scheme is stored as it is. *)
Lemma handleAddBookmark_keeps_scheme (h : jsstring) :
  JsString.trim input <> [] ->
  JsString.has_http_scheme input = true ->
  URL_hostname input = Some h ->
  exists b st',
    saved = Normal st' /\ folders st' = with_new b
    /\ Bookmark.url b = input.
Proof.
  intros Hne Hs Hh. unfold handleAddBookmark, hostname.
  rewrite (proj2 (truthy_true _) Hne), Hs. cbn [negb]. cbv zeta.
  rewrite Hh.
  destruct (JSON.truthy (Form.newBookmarkTitle _));
    eexists _, _; (split; [reflexivity|]); split; reflexivity.
Qed.

(** A title that was supplied is the stored title. *)
Lemma handleAddBookmark_titled :
  JsString.trim input <> [] ->
  JsString.has_http_scheme input = false ->
  JSON.truthy (Form.newBookmarkTitle (form st)) = true ->
  exists b st',
    saved = Normal st' /\ folders st' = with_new b
    /\ Bookmark.url b = js "https://" ++ input
    /\ Bookmark.title b = Form.newBookmarkTitle (form st).
Proof.
  intros Hne Hs Ht. unfold handleAddBookmark.
  rewrite (proj2 (truthy_true _) Hne), Hs. cbn [negb]. cbv zeta.
  rewrite Ht.
  eexists _, _. split; [reflexivity|]. repeat split; reflexivity.
Qed.

(** C2, as the code has it. For an input the handler accepts that does
    not start with [http://] or [https://] in any case of the letters:
    whatever bookmark is saved is put in front of the active folder with
    the input after [https://] as its URL; with a title supplied it is
    saved, under that title; with no title supplied it is saved as soon
    as that URL has a host name, under that host name. So [example.com]
    is stored as [https://example.com] under the title [example.com]. *)
Theorem handleAddBookmark_spec :
  JsString.trim input <> [] ->
  JsString.has_http_scheme input = false ->
  (forall st',
     saved = Normal st' ->
     exists b,
       folders st' = with_new b
       /\ Bookmark.url b = js "https://" ++ input
       /\ (JSON.truthy (Form.newBookmarkTitle (form st)) = true ->
           Bookmark.title b = Form.newBookmarkTitle (form st))
       /\ (JSON.truthy (Form.newBookmarkTitle (form st)) = false ->
           exists h,
             URL_hostname (Bookmark.url b) = Some h
             /\ Bookmark.title b = JStr h))
  /\ (JSON.truthy (Form.newBookmarkTitle (form st)) = true ->
      exists b st',
        saved = Normal st'
        /\ folders st' = with_new b
        /\ Bookmark.url b = js "https://" ++ input
        /\ Bookmark.title b = Form.newBookmarkTitle (form st))
  /\ (forall h,
        JSON.truthy (Form.newBookmarkTitle (form st)) = false ->
        URL_hostname (js "https://" ++ input) = Some h ->
        exists b st',
          saved = Normal st'
          /\ folders st' = with_new b
          /\ Bookmark.url b = js "https://" ++ input
          /\ Bookmark.title b = JStr h)
  /\ (input = js "example.com" ->
      JSON.truthy (Form.newBookmarkTitle (form st)) = false ->
      URL_hostname (js "https://example.com") = Some (js "example.com") ->
      exists b st',
        saved = Normal st'
        /\ folders st' = with_new b
        /\ Bookmark.url b = js "https://example.com"
        /\ Bookmark.title b = JStr (js "example.com")).
Proof.
  intros Hne Hs.
  assert (Hhost : forall h,
            JSON.truthy (Form.newBookmarkTitle (form st)) = false ->
            URL_hostname (js "https://" ++ input) = Some h ->
            exists b st',
              saved = Normal st' /\ folders st' = with_new b
              /\ Bookmark.url b = js "https://" ++ input
              /\ Bookmark.title b = JStr h).
  { intros h Ht Hh. unfold handleAddBookmark, hostname.
    rewrite (proj2 (truthy_true _) Hne), Hs. cbn [negb]. cbv zeta.
    rewrite Ht, Hh.
    eexists _, _. split; [reflexivity|]. repeat split; reflexivity. }
  split; [|split; [|split]].
  - intros st'. unfold handleAddBookmark, hostname.
    rewrite (proj2 (truthy_true _) Hne), Hs. cbn [negb]. cbv zeta.
    destruct (JSON.truthy (Form.newBookmarkTitle (form st))) eqn:Ht.
    + intros [= <-]. eexists. split; [reflexivity|].
      split; [reflexivity|]. split; [reflexivity|discriminate].
    + destruct (URL_hostname (js "https://" ++ input)) as [h|] eqn:Hh;
        [|discriminate].
      intros [= <-]. eexists. split; [reflexivity|].
      split; [reflexivity|]. split; [discriminate|].
      intros _. exists h. split; [exact Hh|reflexivity].
  - exact (handleAddBookmark_titled Hne Hs).
  - exact Hhost.
  - intros Hi Ht Hh. rewrite Hi in Hhost. apply (Hhost _ Ht Hh).
Qed.

End AddBookmark.

Lemma handleAddBookmark_spec_witness :
  exists b st',
    handleAddBookmark Sample.plain_hostname 1714557600000 Sample.iso
      1714557600000 Sample.iso Sample.adding_example = Normal st'
    /\ folders st' = [Folder.with_bookmarks [b] Store.defaultFolder]
    /\ Bookmark.url b = js "https://example.com"
    /\ Bookmark.title b = JStr (js "example.com").
Proof.
  destruct (handleAddBookmark_spec Sample.plain_hostname
              1714557600000 1714557600000 Sample.iso Sample.iso
              Sample.adding_example)
    as (_ & _ & _ & Hex); [discriminate|reflexivity|].
  exact (Hex eq_refl eq_refl eq_refl).
Defined.

(** C2 as the specification words it fails: a text with a space in it,
    typed with no title, does not start with a scheme, and yet no
    bookmark is stored for it. The host parser of the URL Standard fails
    on a space, a forbidden host code point, so that [new URL] throws,
    the handler with it, and the state stays. *)
Lemma handleAddBookmark_no_host :
  JsString.trim (Form.newBookmarkUrl (form Sample.adding_words)) <> []
  /\ JsString.has_http_scheme (Form.newBookmarkUrl (form Sample.adding_words))
     = false
  /\ Sample.plain_hostname (js "https://not a link") = None
  /\ handleAddBookmark Sample.plain_hostname 1714557600000 Sample.iso
       1714557600000 Sample.iso Sample.adding_words = Throw TypeError
  /\ folders
       (after Sample.plain_hostname
          (AddBookmark 1714557600000 Sample.iso 1714557600000 Sample.iso)
          Sample.adding_words)
     = [Store.defaultFolder].
Proof.
  split; [discriminate|]. repeat split; reflexivity.
Qed.

(** ** Enchant *)

Section EnchantProperties.
Import Enchant.

Variable st : State.

Abbreviation failed :=
  (st |> showToast confused error |> onAi (Ai.setIsEnchanting false)).

(** A reply that is no string at all ends in the failure toast. *)
Lemma settle_not_a_string (result : json) :
  (forall s, result <> JStr s) -> settle result st = failed.
Proof.
  intros H. unfold settle, settle_try.
  destruct result; try reflexivity. now destruct (H s).
Qed.

(** A reply that parses to [null] ends in the failure toast as well:
    reading [parsed.title] throws. *)
Lemma settle_null (s : jsstring) :
  JSON.parse (JsString.strip_fences s) = Some JNull ->
  settle (JStr s) st = failed.
Proof.
  intros H. unfold settle, settle_try, JSON_parse. simpl. now rewrite H.
Qed.



(** With the key the source is shipped with, a run of [handleEnchant]
    on a URL issues no request and ends in the failure toast. *)
Lemma handleEnchant_shipped_key fetch :
  Form.newBookmarkUrl (form st) <> [] ->
  handleEnchant Gateway.apiKey fetch st = ([], failed).
Proof.
  intros H. unfold handleEnchant, start.
  now rewrite (proj2 (truthy_true _) H).
Qed.

End EnchantProperties.


(** No text that begins with a code fence is JSON. *)
Lemma fenced_is_not_json (s : jsstring) :
  JSON.parse (JsString.fence ++ s) = None.
Proof. reflexivity. Qed.

(** A reply in a code fence, as models give them, is not JSON as it
    stands; without its markers it is, and its title is set. *)
Lemma settle_fenced_reply :
  JSON.parse Sample.fenced_reply = None
  /\ Form.newBookmarkTitle
       (form (Enchant.settle (JStr Sample.fenced_reply)
                Sample.adding_example))
     = JStr (js "T")
  /\ Form.newBookmarkTitle (form Sample.adding_example) = JStr []
  /\ toast (Enchant.settle (JStr Sample.fenced_reply) Sample.adding_example)
     = Some (ToastState.mk Enchant.illuminated success).
Proof. repeat split; reflexivity. Qed.

(** ** The properties on the sample data *)

Lemma handleCreateFolder_spec_witness :
  (folders (handleCreateFolder 1714557600000
              (Sample.naming (js "   ") (js "pw")))
   = [Store.defaultFolder]
   /\ toast (handleCreateFolder 1714557600000
               (Sample.naming (js "   ") (js "pw")))
      = Some (ToastState.mk (js "Name and password required") error))
  /\ folders (handleCreateFolder 1714557600000
                (Sample.naming (js "Work") (js "pw")))
     = [Store.defaultFolder;
        Folder.mk (js "1714557600000") (js "Work") (js "pw") []].
Proof.
  split.
  - apply (proj1 (handleCreateFolder_spec 1714557600000
                    (Sample.naming (js "   ") (js "pw")))).
    left. reflexivity.
  - apply (proj2 (handleCreateFolder_spec 1714557600000
                    (Sample.naming (js "Work") (js "pw"))));
      discriminate.
Defined.

Lemma handleUnlock_spec_witness :
  (unlockedFolders (handleUnlock (Sample.unlocking (js "123")))
     = {[ js "default" ]} ∪ ∅
   /\ activeFolderId (handleUnlock (Sample.unlocking (js "123")))
      = Some (js "default"))
  /\ (unlockedFolders (handleUnlock (Sample.unlocking (js "1234"))) = ∅
      /\ toast (handleUnlock (Sample.unlocking (js "1234")))
         = Some incorrect)
  /\ js "default"
     ∈ unlockedFolders
         (guess (js "123")
            (fold_left (fun s g => guess g s) [js "a"; js "b"; js "c"]
               (Sample.unlocking []))).
Proof.
  assert (Hin : forall g, Store.defaultFolder ∈ folders (Sample.unlocking g))
    by (intros g; apply list_elem_of_singleton; reflexivity).
  assert (Hnd : forall g,
             NoDup (map Folder.id (folders (Sample.unlocking g))))
    by (intros g; apply NoDup_singleton).
  split; [|split].
  - destruct (handleUnlock_spec (Sample.unlocking (js "123"))
                Store.defaultFolder (Hin _) (Hnd _) eq_refl)
      as (Hyes & _); [discriminate|].
    destruct (Hyes eq_refl) as (H1 & H2 & _). split; [exact H1|exact H2].
  - destruct (handleUnlock_spec (Sample.unlocking (js "1234"))
                Store.defaultFolder (Hin _) (Hnd _) eq_refl)
      as (_ & Hno & _); [discriminate|].
    destruct Hno as (H1 & H2 & H3); [discriminate|].
    split; [exact H1|exact H3].
  - destruct (handleUnlock_spec (Sample.unlocking [])
                Store.defaultFolder (Hin _) (Hnd _) eq_refl)
      as (_ & _ & _ & Hany); [discriminate|].
    apply (Hany [js "a"; js "b"; js "c"]).
    repeat constructor; discriminate.
Defined.

(** The component starts from such a store when the browser holds it. *)
Example nameless_is_loaded :
  Store.load (Store.holding Sample.nameless_blob)
    = Store.of_folders [Sample.nameless].
Proof. reflexivity. Qed.

(** Outside the data model, in a store that no handler writes but that
    the browser may hold: the guard on [folderToUnlock] keeps a folder
    whose ID is the empty string out of the unlocked set, its own
    password typed. *)
Lemma handleUnlock_nameless :
  Sample.nameless ∈ folders Sample.unlocking_nameless
  /\ folderToUnlock Sample.unlocking_nameless
     = Some (Folder.id Sample.nameless)
  /\ Form.unlockInput (form Sample.unlocking_nameless)
     = Folder.password Sample.nameless
  /\ unlockedFolders (handleUnlock Sample.unlocking_nameless) = ∅
  /\ Folder.id Sample.nameless
     ∉ unlockedFolders (handleUnlock Sample.unlocking_nameless).
Proof.
  split; [apply list_elem_of_singleton; reflexivity|].
  split; [reflexivity|]. split; [reflexivity|].
  assert (H : unlockedFolders (handleUnlock Sample.unlocking_nameless) = ∅)
    by reflexivity.
  split; [exact H|]. rewrite H. apply not_elem_of_empty.
Qed.

Lemma deleteBookmark_spec_witness :
  (exists f',
     folders (deleteBookmark (js "1714557600000") true Sample.details) !! 0%nat
       = Some f'
     /\ Folder.bookmarks f' = [])
  /\ deleteBookmark (js "1714557720000") true Sample.details
     = Sample.details.
Proof.
  split.
  - destruct (proj1 (proj2 (deleteBookmark_spec (js "1714557600000")
                              Sample.details))
                0%nat
                (Folder.with_bookmarks [Sample.example_bookmark]
                   Store.defaultFolder) eq_refl eq_refl)
      as (f' & Hl & _ & _ & _ & Hb & _).
    exists f'. split; [exact Hl|]. rewrite Hb. reflexivity.
  - apply (proj1 (proj2 (proj2 (deleteBookmark_spec (js "1714557720000")
                                  Sample.details)))).
    intros f b Hf _ Hb.
    apply list_elem_of_singleton in Hf. subst f.
    apply list_elem_of_singleton in Hb. subst b. discriminate.
Defined.

Lemma media_guards_witness :
  handleAddMedia voice (js "data:audio/webm;base64,AAAA") 7 Sample.iso
    Sample.vault = Sample.vault
  /\ folders (deleteMedia (js "1714557660000")
                (Sample.details |> setActiveFolderId (Some (js "gone"))))
     = folders Sample.details.
Proof.
  split.
  - apply (proj1 (media_guards voice (js "data:audio/webm;base64,AAAA")
                    Sample.iso (js "1714557660000") 7 Sample.vault)).
    left. reflexivity.
  - apply (proj2 (media_guards voice [] Sample.iso (js "1714557660000") 7
                    (Sample.details |> setActiveFolderId (Some (js "gone"))))).
    intros f Hf. apply list_elem_of_singleton in Hf. subst f. discriminate.
Defined.

Lemma add_then_delete_media_witness :
  folders (deleteMedia (js "1714557720000")
             (handleAddMedia voice (js "data:audio/webm;base64,AAAA")
                1714557720000 Sample.iso Sample.details))
  = folders Sample.details
  /\ folders
       (deleteMedia (js "1714557720000")
          (handleAddMedia_from
             (Sample.details |> showToast (js "Bookmark added") success)
             voice (js "data:audio/webm;base64,AAAA") 1714557720000
             Sample.iso Sample.details))
     = folders Sample.details.
Proof.
  assert (fresh_media_id 1714557720000 Sample.details) as Hfresh.
  { intros sel f b m _ Hf _ Hb _ Hm.
    apply list_elem_of_singleton in Hf. subst f.
    apply list_elem_of_singleton in Hb. subst b.
    apply list_elem_of_singleton in Hm. subst m. discriminate. }
  split.
  - apply (add_then_delete_media voice (js "data:audio/webm;base64,AAAA")
             Sample.iso 1714557720000 Sample.details Sample.details
             eq_refl eq_refl eq_refl Hfresh).
  - apply (add_then_delete_media voice (js "data:audio/webm;base64,AAAA")
             Sample.iso 1714557720000 Sample.details
             (Sample.details |> showToast (js "Bookmark added") success)
             eq_refl eq_refl eq_refl Hfresh).
Defined.

(** C4 as the specification words it fails: when the clock gives the new
    item the ID of an item that is there, deleting by that ID takes both
    away. *)
Lemma add_then_delete_media_collision :
  MediaItem.id Sample.photo = JsString.of_integer 1714557660000
  /\ folders Sample.details
     = [Folder.with_bookmarks [Sample.example_bookmark] Store.defaultFolder]
  /\ Bookmark.media Sample.example_bookmark = [Sample.photo]
  /\ folders (deleteMedia (JsString.of_integer 1714557660000)
                (handleAddMedia voice (js "data:audio/webm;base64,AAAA")
                   1714557660000
                   Sample.iso Sample.details))
     = [Folder.with_bookmarks
          [Bookmark.with_media [] Sample.example_bookmark]
          Store.defaultFolder]
  /\ folders (deleteMedia (JsString.of_integer 1714557660000)
                (handleAddMedia voice (js "data:audio/webm;base64,AAAA")
                   1714557660000
                   Sample.iso Sample.details))
     <> folders Sample.details.
Proof.
  assert (H : folders (deleteMedia (JsString.of_integer 1714557660000)
                (handleAddMedia voice (js "data:audio/webm;base64,AAAA")
                   1714557660000
                   Sample.iso Sample.details))
     = [Folder.with_bookmarks
          [Bookmark.with_media [] Sample.example_bookmark]
          Store.defaultFolder]) by reflexivity.
  split; [reflexivity|]. split; [reflexivity|]. split; [reflexivity|].
  split; [exact H|]. rewrite H. discriminate.
Qed.

(** So does it fail for a recording whose callback comes late: a video
    link is attached while the recording is under way; the recording,
    started in the details dialog as it first was, then writes the
    folders of that render with the voice note, and with the voice note
    deleted again the video link is gone, the IDs all different. *)
Lemma add_then_delete_media_late :
  let linked :=
    handleAddVideoLink 1714557700000 Sample.iso Sample.linking in
  let saved :=
    handleAddMedia_from Sample.details voice
      (js "data:audio/webm;base64,AAAA") 1714557720000 Sample.iso linked in
  (exists video_item,
     folders linked
     = [Folder.with_bookmarks
          [Bookmark.with_media [Sample.photo; video_item]
             Sample.example_bookmark]
          Store.defaultFolder]
     /\ MediaItem.id video_item = js "1714557700000")
  /\ fresh_media_id 1714557720000 linked
  /\ folders (deleteMedia (js "1714557720000") saved)
     = [Folder.with_bookmarks [Sample.example_bookmark] Store.defaultFolder]
  /\ folders (deleteMedia (js "1714557720000") saved) <> folders linked.
Proof.
  cbv zeta. split; [eexists; split; reflexivity|]. split.
  - intros sel f b m _ Hf _ Hb _ Hm.
    apply list_elem_of_singleton in Hf. subst f.
    apply list_elem_of_singleton in Hb. subst b.
    apply elem_of_cons in Hm as [->|Hm]; [discriminate|].
    apply list_elem_of_singleton in Hm. subst m. discriminate.
  - split; [reflexivity|]. discriminate.
Qed.

Lemma unlocked_monotone_witness :
  js "default"
  ∈ unlockedFolders
      (run Sample.plain_hostname
         [ SelectFolder (js "default") 1024; Unlock;
           TypeUnlock (js "guess"); OpenAddBookmark;
           TypeUrl (js "example.com");
           AddBookmark 1714557600000 Sample.iso 1714557600000 Sample.iso;
           DeleteBookmark (js "1714557600000") true;
           ToastExpired ]
         (after Sample.plain_hostname Unlock (Sample.unlocking (js "123")))).
Proof.
  apply (proj2 (proj2 (unlocked_monotone Sample.plain_hostname
                         (after Sample.plain_hostname Unlock
                            (Sample.unlocking (js "123")))))).
  apply elem_of_union_l, elem_of_singleton. reflexivity.
Defined.

(* ===================================================================== *)
(** * Further properties *)
(* ===================================================================== *)

(** ** What [JSON.stringify] writes, [JSON.parse] reads back *)

Section JsonRoundTrip.
Import JSON.

Variable number_text : Z -> Z -> jsstring.

(** Induction on a value and, with it, on the values it holds. *)
Lemma json_nested_ind (P : json -> Prop) :
  P JNull -> (forall b, P (JBool b)) -> (forall m e, P (JNum m e)) ->
  (forall s, P (JStr s)) ->
  (forall items, Forall P items -> P (JArr items)) ->
  (forall ms, Forall (fun p => P p.2) ms -> P (JObj ms)) ->
  forall v, P v.
Proof.
  intros Hnull Hbool Hnum Hstr Harr Hobj.
  refine (fix go (v : json) : P v :=
            match v with
            | JNull => Hnull
            | JBool b => Hbool b
            | JNum m e => Hnum m e
            | JStr s => Hstr s
            | JArr items =>
                Harr items
                  ((fix all (l : list json) : Forall P l :=
                      match l with
                      | [] => List.Forall_nil _
                      | x :: r => List.Forall_cons _ x r (go x) (all r)
                      end) items)
            | JObj ms =>
                Hobj ms
                  ((fix all (l : list (jsstring * json))
                      : Forall (fun p => P p.2) l :=
                      match l with
                      | [] => List.Forall_nil _
                      | x :: r =>
                          List.Forall_cons (fun p => P p.2) x r (go x.2)
                            (all r)
                      end) ms)
            end).
Qed.

Lemma hex_value_digit (d : N) : d < 16 -> hex_value (hex_digit d) = Some d.
Proof.
  intros H. destruct d as [|p]; [reflexivity|].
  do 4 (destruct p as [p|p|]; try reflexivity); lia.
Qed.

Lemma hex_digits_value (c : N) :
  ((c / 4096 * 16 + (c / 256) mod 16) * 16 + (c / 16) mod 16) * 16 + c mod 16
  = c.
Proof.
  pose proof (N.div_mod c 16 ltac:(lia)) as H1.
  pose proof (N.div_mod (c / 16) 16 ltac:(lia)) as H2.
  pose proof (N.div_mod (c / 256) 16 ltac:(lia)) as H3.
  rewrite (N.Div0.div_div c 16 16) in H2. change (16 * 16) with 256 in H2.
  rewrite (N.Div0.div_div c 256 16) in H3. change (256 * 16) with 4096 in H3.
  lia.
Qed.

(** An escape of four hexadecimal digits is read as the code unit. *)
Lemma lex_unicode_escape (c : N) a toks rest :
  c < 65536 ->
  lex_from (LString a) toks (unicode_escape c ++ rest)
  = lex_from (LString (c :: a)) toks rest.
Proof.
  intros Hc. unfold unicode_escape.
  assert (H1 : c / 4096 < 16) by (apply N.Div0.div_lt_upper_bound; lia).
  assert (H2 : (c / 256) mod 16 < 16) by (apply N.mod_lt; lia).
  assert (H3 : (c / 16) mod 16 < 16) by (apply N.mod_lt; lia).
  assert (H4 : c mod 16 < 16) by (apply N.mod_lt; lia).
  cbn [app lex_from].
  change (lex_step (LString a) toks 92) with (Some (LEscape a, toks)).
  cbn iota beta.
  cbn [lex_from].
  change (lex_step (LEscape a) toks 117) with (Some (LUnicode a [], toks)).
  cbn iota beta. cbn [lex_from lex_step].
  rewrite (hex_value_digit _ H1). cbn iota beta. cbn [lex_from lex_step].
  rewrite (hex_value_digit _ H2). cbn iota beta. cbn [lex_from lex_step].
  rewrite (hex_value_digit _ H3). cbn iota beta. cbn [lex_from lex_step].
  rewrite (hex_value_digit _ H4). cbn iota beta.
  now rewrite hex_digits_value.
Qed.

Lemma lex_literal_unit (c : N) a toks rest :
  c <> 34 -> c <> 92 -> 32 <= c ->
  lex_from (LString a) toks (c :: rest)
  = lex_from (LString (c :: a)) toks rest.
Proof.
  intros H1 H2 H3. cbn [lex_from lex_step].
  rewrite (proj2 (N.eqb_neq _ _) H1), (proj2 (N.eqb_neq _ _) H2).
  now rewrite (proj2 (N.ltb_ge _ _) H3).
Qed.

Lemma lex_quote_unit (c : N) a toks rest :
  lex_from (LString a) toks (quote_unit c ++ rest)
  = lex_from (LString (c :: a)) toks rest.
Proof.
  unfold quote_unit.
  repeat (match goal with
          | |- context [if ?k =? ?n then _ else _] =>
              destruct (N.eqb_spec k n) as [->|?]; [reflexivity|]
          end).
  destruct (N.ltb_spec c 32).
  - apply lex_unicode_escape. lia.
  - now apply lex_literal_unit.
Qed.

Lemma lex_quote_units_bounded (n : nat) :
  forall s a toks rest,
    (length s <= n)%nat ->
    lex_from (LString a) toks (quote_units s ++ rest)
    = lex_from (LString (rev s ++ a)) toks rest.
Proof.
  induction n as [|n IH]; intros s a toks rest Hn.
  - destruct s; [reflexivity|simpl in Hn; lia].
  - destruct s as [|c r]; [reflexivity|]. simpl in Hn.
    cbn [quote_units].
    destruct (is_leading_surrogate c) eqn:Hlead.
    + apply andb_true_iff in Hlead as [Hl1 Hl2].
      apply N.leb_le in Hl1, Hl2.
      destruct r as [|d r'].
      * rewrite lex_unicode_escape by lia. reflexivity.
      * destruct (is_trailing_surrogate d) eqn:Htrail.
        -- apply andb_true_iff in Htrail as [Ht1 Ht2].
           apply N.leb_le in Ht1, Ht2.
           cbn [app]. rewrite lex_literal_unit by lia.
           rewrite lex_literal_unit by lia.
           rewrite IH by (simpl in Hn; lia).
           cbn [rev]. now rewrite <- !app_assoc.
        -- rewrite <- app_assoc, lex_unicode_escape by lia.
           rewrite IH by lia. cbn [rev].
           now rewrite <- !app_assoc.
    + destruct (is_trailing_surrogate c) eqn:Htrail.
      * apply andb_true_iff in Htrail as [Ht1 Ht2].
        apply N.leb_le in Ht1, Ht2.
        rewrite <- app_assoc, lex_unicode_escape by lia.
        rewrite IH by lia. cbn [rev]. now rewrite <- app_assoc.
      * rewrite <- app_assoc, lex_quote_unit, IH by lia.
        cbn [rev]. now rewrite <- app_assoc.
Qed.

(** A quoted string is read as the string. *)
Lemma lex_quote (s : jsstring) toks rest :
  lex_from LIdle toks (quote s ++ rest)
  = lex_from LIdle (TScalar (JStr s) :: toks) rest.
Proof.
  unfold quote. cbn [app lex_from].
  change (lex_step LIdle toks 34) with (Some (LString [], toks)).
  cbn iota beta.
  rewrite <- app_assoc, (lex_quote_units_bounded (length s)) by lia.
  cbn [app lex_from lex_step]. cbn.
  now rewrite app_nil_r, rev_involutive.
Qed.

Lemma lexes_word (w : list N) (v : json) :
  forallb is_word_char w = true -> w <> [] ->
  word_lexeme w = Some v ->
  lexes w [TScalar v].
Proof.
  intros Hw Hne Hv acc rest Hd.
  assert (Hrun : forall w' r,
             forallb is_word_char w' = true ->
             lex_from (LWord r) acc (w' ++ rest)
             = lex_from (LWord (rev w' ++ r)) acc rest).
  { induction w' as [|c w' IH]; intros r Hall; [reflexivity|].
    simpl in Hall. apply andb_true_iff in Hall as [Hc Hall].
    cbn [app lex_from lex_step]. rewrite Hc. rewrite IH by assumption.
    cbn [rev]. now rewrite <- app_assoc. }
  destruct w as [|c w]; [congruence|].
  simpl in Hw. apply andb_true_iff in Hw as [Hc Hw].
  cbn [app lex_from]. unfold lex_step, lex_idle.
  assert (Hc' := Hc). unfold is_word_char in Hc'.
  assert (is_json_space c = false /\ (c =? 123) = false /\ (c =? 125) = false
          /\ (c =? 91) = false /\ (c =? 93) = false /\ (c =? 58) = false
          /\ (c =? 44) = false /\ (c =? 34) = false) as (E1&E2&E3&E4&E5&E6&E7&E8).
  { unfold is_json_space, is_digit in *.
    repeat split;
      repeat match goal with
             | |- context [?a =? ?b] => destruct (N.eqb_spec a b); subst
             end; try reflexivity; try (vm_compute in Hc'; discriminate). }
  rewrite E1, E2, E3, E4, E5, E6, E7, E8, Hc.
  rewrite Hrun by assumption.
  replace (rev w ++ [c]) with (rev (c :: w)) by reflexivity.
  destruct rest as [|d rest]; simpl in Hd.
  - cbn [lex_from]. rewrite rev_involutive, Hv. reflexivity.
  - cbn [lex_from lex_step]. rewrite Hd, rev_involutive, Hv. reflexivity.
Qed.

Lemma delimited_punctuation (c : N) (rest : list N) :
  is_word_char c = false -> delimited (c :: rest).
Proof. intros H. exact H. Qed.

(** The elements after the first, each behind its comma. *)
Lemma lex_elements (items : list json) :
  Forall (fun v => number_free v = true ->
                   lexes (stringify number_text v) (tokens v)) items ->
  forallb number_free items = true ->
  forall acc rest,
    delimited rest ->
    lex_from LIdle acc
      (flat_map (fun x => 44 :: x) (map (stringify number_text) items)
       ++ rest)
    = lex_from LIdle
        (rev (flat_map (fun x => TComma :: x) (map tokens items)) ++ acc)
        rest.
Proof.
  induction 1 as [|x r Hx _ IH]; intros Hall acc rest Hd; [reflexivity|].
  simpl in Hall. apply andb_true_iff in Hall as [Hfx Hfr].
  cbn [map flat_map]. rewrite <- !app_assoc. cbn [app lex_from].
  change (lex_step LIdle acc 44) with (Some (LIdle, TComma :: acc)).
  cbn iota beta.
  rewrite (Hx Hfx).
  - rewrite IH by assumption.
    cbn [rev]. rewrite rev_app_distr. cbn [rev app].
    now rewrite <- !app_assoc.
  - destruct r; [exact Hd|reflexivity].
Qed.

(** The members after the first, each behind its comma. *)
Lemma lex_members (ms : list (jsstring * json)) :
  Forall (fun p => number_free p.2 = true ->
                   lexes (stringify number_text p.2) (tokens p.2)) ms ->
  forallb (fun p => number_free p.2) ms = true ->
  forall acc rest,
    delimited rest ->
    lex_from LIdle acc
      (flat_map (fun x => 44 :: x)
         (map (fun p => quote p.1 ++ 58 :: stringify number_text p.2) ms)
       ++ rest)
    = lex_from LIdle
        (rev (flat_map (fun x => TComma :: x)
                (map (fun p => TScalar (JStr p.1) :: TColon :: tokens p.2)
                     ms))
         ++ acc)
        rest.
Proof.
  induction 1 as [|x r Hx _ IH]; intros Hall acc rest Hd; [reflexivity|].
  simpl in Hall. apply andb_true_iff in Hall as [Hfx Hfr].
  cbn [map flat_map]. rewrite <- !app_assoc. cbn [app lex_from].
  change (lex_step LIdle acc 44) with (Some (LIdle, TComma :: acc)).
  cbn iota beta.
  rewrite <- !app_assoc, lex_quote. cbn [app lex_from].
  change (lex_step LIdle (TScalar (JStr x.1) :: TComma :: acc) 58)
    with (Some (LIdle, TColon :: TScalar (JStr x.1) :: TComma :: acc)).
  cbn iota beta.
  rewrite (Hx Hfx).
  - rewrite IH by assumption.
    cbn [rev]. rewrite !rev_app_distr. cbn [rev app].
    now rewrite <- !app_assoc.
  - destruct r; [exact Hd|reflexivity].
Qed.

Lemma lex_stringify (v : json) :
  number_free v = true -> lexes (stringify number_text v) (tokens v).
Proof.
  induction v as [|b|m e|s|items IH|ms IH] using json_nested_ind;
    intros Hfree.
  - apply lexes_word; [reflexivity|discriminate|reflexivity].
  - destruct b; apply lexes_word; (reflexivity || discriminate).
  - discriminate.
  - intros acc rest _. apply lex_quote.
  - intros acc rest Hd. cbn [stringify tokens number_free] in *.
    cbn [app lex_from].
    change (lex_step LIdle acc 91) with (Some (LIdle, TLBracket :: acc)).
    cbn iota beta.
    destruct items as [|x r].
    + reflexivity.
    + apply Forall_cons in IH as [Hx Hr].
      simpl in Hfree. apply andb_true_iff in Hfree as [Hfx Hfr].
      cbn [map join]. rewrite <- !app_assoc.
      rewrite (Hx Hfx); [|destruct r; reflexivity].
      rewrite (lex_elements r Hr Hfr); [|reflexivity].
      cbn [app lex_from].
      match goal with
      | |- context [lex_step LIdle ?a 93] =>
          change (lex_step LIdle a 93) with (Some (LIdle, TRBracket :: a))
      end.
      cbn iota beta. f_equal.
      cbn [rev]. rewrite !rev_app_distr. cbn [rev app].
      now rewrite <- !app_assoc.
  - intros acc rest Hd. cbn [stringify tokens number_free] in *.
    cbn [app lex_from].
    change (lex_step LIdle acc 123) with (Some (LIdle, TLBrace :: acc)).
    cbn iota beta.
    destruct ms as [|x r].
    + reflexivity.
    + apply Forall_cons in IH as [Hx Hr].
      simpl in Hfree. apply andb_true_iff in Hfree as [Hfx Hfr].
      cbn [map join]. rewrite <- !app_assoc.
      rewrite lex_quote. cbn [app lex_from].
      change (lex_step LIdle (TScalar (JStr x.1) :: TLBrace :: acc) 58)
        with (Some (LIdle, TColon :: TScalar (JStr x.1) :: TLBrace :: acc)).
      cbn iota beta.
      rewrite (Hx Hfx); [|destruct r; reflexivity].
      rewrite (lex_members r Hr Hfr); [|reflexivity].
      cbn [app lex_from].
      match goal with
      | |- context [lex_step LIdle ?a 125] =>
          change (lex_step LIdle a 125) with (Some (LIdle, TRBrace :: a))
      end.
      cbn iota beta. f_equal.
      cbn [rev]. rewrite !rev_app_distr. cbn [rev app].
      now rewrite <- !app_assoc.
Qed.

Lemma parse_value_start (v : json) stack rest :
  parse_tokens PValue stack (tokens v ++ rest)
  = parse_value stack (tokens v ++ rest).
Proof. destruct v; reflexivity. Qed.

Lemma parse_value_first (v : json) stack rest :
  parse_tokens PArrFirst stack (tokens v ++ rest)
  = parse_value (FArr [] :: stack) (tokens v ++ rest).
Proof. destruct v; reflexivity. Qed.

Lemma parse_elements (items : list json) :
  Forall (fun v => forall stack rest,
            parse_value stack (tokens v ++ rest)
            = resume (complete v stack) rest) items ->
  forall acc stack rest,
    parse_tokens (PArrNext acc) stack
      (flat_map (fun x => TComma :: x) (map tokens items)
       ++ TRBracket :: rest)
    = resume (complete (JArr (rev acc ++ items)) stack) rest.
Proof.
  induction 1 as [|x r Hx _ IH]; intros acc stack rest.
  - cbn. rewrite app_nil_r. unfold resume. now destruct (complete _ _).
  - cbn [map flat_map]. rewrite <- !app_assoc. cbn [app parse_tokens parse_step].
    rewrite <- ?app_assoc, parse_value_start, Hx. cbn [complete]. unfold resume at 1. cbn [fst snd].
    rewrite IH. cbn [rev]. now rewrite <- app_assoc.
Qed.

Lemma parse_members (ms : list (jsstring * json)) :
  Forall (fun p => forall stack rest,
            parse_value stack (tokens p.2 ++ rest)
            = resume (complete p.2 stack) rest) ms ->
  forall acc stack rest,
    parse_tokens (PObjNext acc) stack
      (flat_map (fun x => TComma :: x)
         (map (fun p => TScalar (JStr p.1) :: TColon :: tokens p.2) ms)
       ++ TRBrace :: rest)
    = resume (complete (JObj (rev acc ++ ms)) stack) rest.
Proof.
  induction 1 as [|[k v] r Hx _ IH]; intros acc stack rest.
  - cbn. rewrite app_nil_r. unfold resume. now destruct (complete _ _).
  - cbn [map flat_map fst snd]. rewrite <- !app_assoc.
    cbn [app parse_tokens parse_step].
    rewrite <- ?app_assoc, parse_value_start, (Hx _ _).
    cbn [complete]. unfold resume at 1. cbn [fst snd].
    rewrite IH. cbn [rev]. now rewrite <- app_assoc.
Qed.

(** The tokens of a value, read where a value may stand, give it. *)
Lemma parse_value_tokens (v : json) :
  forall stack rest,
    parse_value stack (tokens v ++ rest) = resume (complete v stack) rest.
Proof.
  induction v as [|b|m e|s|items IH|ms IH] using json_nested_ind;
    intros stack rest;
    try (cbn; unfold resume; now destruct (complete _ _)).
  - cbn [tokens]. destruct items as [|x r];
      [cbn; unfold resume; now destruct (complete _ _)|].
    apply Forall_cons in IH as [Hx Hr].
    cbn [map join app parse_value parse_value_token].
    rewrite <- ?app_assoc, parse_value_first, Hx.
    cbn [complete]. unfold resume at 1. cbn [fst snd app].
    now rewrite (parse_elements r Hr).
  - cbn [tokens]. destruct ms as [|[k v] r];
      [cbn; unfold resume; now destruct (complete _ _)|].
    apply Forall_cons in IH as [Hx Hr].
    cbn [map join app parse_value parse_value_token fst snd].
    cbn [parse_tokens parse_step]. rewrite <- !app_assoc.
    cbn [app parse_tokens parse_step].
    rewrite <- ?app_assoc, parse_value_start, (Hx _ _).
    cbn [complete]. unfold resume at 1. cbn [fst snd app].
    now rewrite (parse_members r Hr).
Qed.

(** A value without numbers is read back from the text written for it. *)
Lemma parse_stringify (v : json) :
  number_free v = true -> parse (stringify number_text v) = Some v.
Proof.
  intros Hfree. unfold parse, lex.
  pose proof (lex_stringify v Hfree [] [] I) as Hlex.
  rewrite !app_nil_r in Hlex. rewrite Hlex. cbn [lex_from].
  rewrite rev_involutive.
  pose proof (parse_value_tokens v [] []) as Hp.
  rewrite app_nil_r in Hp.
  rewrite <- (app_nil_r (tokens v)), parse_value_start, app_nil_r, Hp.
  reflexivity.
Qed.

End JsonRoundTrip.

(** ** The store written by the component and read at its next start *)

Section Persistence.
Import Store.

Variable number_text : Z -> Z -> jsstring.
Variable accepts : gmap jsstring jsstring -> jsstring -> bool.

Lemma forallb_map_true {A B} (p : B -> bool) (f : A -> B) (l : list A) :
  Forall (fun x => p (f x) = true) l -> forallb p (map f l) = true.
Proof.
  induction 1 as [|x r Hx _ IH]; [reflexivity|].
  simpl. now rewrite Hx, IH.
Qed.

Lemma of_media_number_free (m : MediaItem) :
  JSON.number_free (of_media m) = true.
Proof. reflexivity. Qed.

Lemma of_bookmark_number_free (b : Bookmark) :
  JSON.number_free (Bookmark.title b) = true ->
  JSON.number_free (Bookmark.description b) = true ->
  JSON.number_free (of_bookmark b) = true.
Proof.
  intros Ht Hd. cbn. rewrite Ht, Hd. cbn.
  rewrite forallb_map_true; [reflexivity|].
  apply Forall_forall. intros m _. apply of_media_number_free.
Qed.

Lemma of_folders_number_free (fs : list Folder) :
  without_numbers fs -> JSON.number_free (of_folders fs) = true.
Proof.
  intros H. cbn. apply forallb_map_true.
  eapply Forall_impl; [exact H|]. intros f Hf. cbn.
  rewrite forallb_map_true; [reflexivity|].
  eapply Forall_impl; [exact Hf|]. intros b [Ht Hd].
  now apply of_bookmark_number_free.
Qed.

(** The text written for any folders is read back as these folders. *)
Lemma parse_serialize (fs : list Folder) :
  without_numbers fs ->
  JSON.parse (serialize number_text fs) = Some (of_folders fs).
Proof.
  intros H. apply parse_stringify. now apply of_folders_number_free.
Qed.

Lemma serialize_nonempty (fs : list Folder) : serialize number_text fs <> [].
Proof. discriminate. Qed.

(** X1. When the browser takes the text, the effect that saves the
    folders leaves the state as it is, writes under the storage key
    only, and the next start of the component reads the same folders
    back, whatever their names, passwords, URLs and media hold. *)
Theorem persist_then_load (items : gmap jsstring jsstring) (st : State) :
  accepts items (serialize number_text (folders st)) = true ->
  without_numbers (folders st) ->
  exists items',
    persist number_text accepts (Some items) st = (Some items', st)
    /\ load (Some items') = of_folders (folders st)
    /\ (forall key, key <> storage_key -> items' !! key = items !! key).
Proof.
  intros Hok Hfree.
  exists (<[ storage_key := serialize number_text (folders st) ]> items).
  split; [|split].
  - unfold persist, setItem. now rewrite Hok.
  - unfold load, load_try, getItem. cbn [mbind Completion_bind].
    rewrite lookup_insert_eq.
    rewrite (proj2 (truthy_true _) (serialize_nonempty _)).
    unfold JSON_parse. now rewrite (parse_serialize _ Hfree).
  - intros key Hkey. now apply lookup_insert_ne.
Qed.

(** X2. When the browser refuses the text, or no storage is within
    reach, the effect shows the error toast and changes nothing else: the
    folders in memory stay, and the next start reads what the store held
    before. *)
Theorem persist_refused (ls : LocalStorage) (st : State) :
  (ls = None
   \/ exists items,
        ls = Some items
        /\ accepts items (serialize number_text (folders st)) = false) ->
  persist number_text accepts ls st
    = (ls, st |> showToast storage_full error)
  /\ folders (persist number_text accepts ls st).2 = folders st
  /\ load (persist number_text accepts ls st).1 = load ls.
Proof.
  intros H.
  assert (Hp : persist number_text accepts ls st
               = (ls, st |> showToast storage_full error)).
  { unfold persist, setItem.
    destruct H as [->|(items & -> & Hno)]; [reflexivity|]. now rewrite Hno. }
  rewrite Hp. repeat split; reflexivity.
Qed.

End Persistence.

(* ===================================================================== *)
(** * What a session keeps *)
(* ===================================================================== *)

Lemma with_bookmarks_header (bs : list Bookmark) (f : Folder) :
  header (Folder.with_bookmarks bs f) = header f.
Proof. now destruct f. Qed.

Lemma map_header_kept (g : Folder -> Folder) (fs : list Folder) :
  (forall f, header (g f) = header f) ->
  map header (map g fs) = map header fs.
Proof. intros H. rewrite List.map_map. apply map_ext. exact H. Qed.

Lemma media_changed_header change sel st (f : Folder) :
  header (media_changed_in_folder change sel st f) = header f.
Proof.
  unfold media_changed_in_folder.
  destruct (is_active st f); [apply with_bookmarks_header|reflexivity].
Qed.

Lemma without_bookmark_headers id st :
  map header (without_bookmark id st) = map header (folders st).
Proof.
  apply map_header_kept. intros f.
  destruct (is_active st f); [apply with_bookmarks_header|reflexivity].
Qed.

Lemma map_id_header (fs : list Folder) :
  map Folder.id fs = map (fun h => h.1.1) (map header fs).
Proof. rewrite List.map_map. reflexivity. Qed.

(** State updates that leave a part of the state alone. *)
Ltac frame :=
  unfold closeSidebarIfNarrow, selectFolder, handleCreateFolder,
    handleUnlock, handleCreationImageUpload, creationImageLoaded,
    handleImageUpload, imageLoaded, handleAddVideoLink, handleAddMedia,
    handleAddMedia_from, deleteMedia, queueSelectedBookmark,
    deleteBookmark, handleDeleteFromModal, Enchant.start, Oracle.start,
    Oracle.settle;
  simpl; repeat case_match; simpl; try reflexivity.

Ltac frame_settle :=
  unfold Enchant.settle, Enchant.settle_try, Enchant.clean, JSON_parse,
    member, mbind, Completion_bind;
  repeat case_match; reflexivity.

Ltac frame_add :=
  unfold handleAddBookmark, hostname, mbind, Completion_bind;
  repeat case_match; simpl; intros [= <-]; reflexivity.

Section Session.

Variable URL_hostname : jsstring -> option jsstring.

Abbreviation after' := (after URL_hostname).
Abbreviation run' := (run URL_hostname).
Abbreviation along' := (along URL_hostname).

Lemma run_cons (ev : Event) (evs : list Event) (st : State) :
  run' (ev :: evs) st = run' evs (after' ev st).
Proof. reflexivity. Qed.

Lemma run_app (evs evs' : list Event) (st : State) :
  run' (evs ++ evs') st = run' evs' (run' evs st).
Proof. apply fold_left_app. Qed.

Lemma run_unlocked_grows (evs : list Event) (st : State) :
  unlockedFolders st ⊆ unlockedFolders (run' evs st).
Proof.
  revert st. induction evs as [|ev evs IH]; intros st; [reflexivity|].
  rewrite run_cons. etrans; [apply (after_unlocked_grows URL_hostname ev)|].
  apply IH.
Qed.

(** *** Folders *)

Lemma handleAddMedia_from_headers seen type content now iso st :
  map header (folders seen) = map header (folders st) ->
  map header (folders (handleAddMedia_from seen type content now iso st))
  = map header (folders st).
Proof.
  intros Hseen. unfold handleAddMedia_from.
  destruct (selectedBookmark seen) as [sel|]; [|reflexivity].
  destruct (truthy_id _); [|reflexivity].
  pose proof (update_media_folders
                (adding (MediaItem.mk (JsString.of_integer now) type
                                      content iso)) sel seen) as H.
  destruct (update_media _ _ _) as [fs q]. simpl in *. subst fs.
  rewrite <- Hseen. apply map_header_kept. intros f.
  apply media_changed_header.
Qed.

Lemma deleteMedia_headers mediaId st :
  map header (folders (deleteMedia mediaId st)) = map header (folders st).
Proof.
  unfold deleteMedia.
  destruct (selectedBookmark st) as [sel|]; [|reflexivity].
  destruct (truthy_id _); [|reflexivity].
  pose proof (update_media_folders (deleting mediaId) sel st) as H.
  destruct (update_media _ _ _) as [fs q]. simpl in *. subst fs.
  apply map_header_kept. intros f. apply media_changed_header.
Qed.

Lemma handleAddBookmark_headers now_img iso_img now iso st st' :
  handleAddBookmark URL_hostname now_img iso_img now iso st = Normal st' ->
  map header (folders st') = map header (folders st).
Proof.
  assert (forall b,
    map header
      (map (fun f => if is_active st f
                     then Folder.with_bookmarks (b :: Folder.bookmarks f) f
                     else f) (folders st))
    = map header (folders st)) as Hmap.
  { intros b. apply map_header_kept. intros f.
    destruct (is_active st f); [apply with_bookmarks_header|reflexivity]. }
  unfold handleAddBookmark.
  destruct (negb _); [now intros [= <-]|].
  destruct (JSON.truthy (Form.newBookmarkTitle _)); simpl.
  - intros [= <-]. apply Hmap.
  - unfold hostname. destruct (URL_hostname _); simpl; [|discriminate].
    intros [= <-]. apply Hmap.
Qed.

Lemma settle_folders result st :
  folders (Enchant.settle result st) = folders st.
Proof. frame_settle. Qed.

(** Every event but an accepted creation keeps the folders in their
    order, each with its ID, name and password. *)
Lemma after_headers (ev : Event) (st : State) :
  in_time ev st ->
  (forall now, ev <> CreateFolder now) ->
  map header (folders (after' ev st)) = map header (folders st).
Proof.
  intros Htime Hev. unfold after.
  destruct ev; try (now destruct (Hev now)); simpl in *;
    try reflexivity;
    try (now apply handleAddMedia_from_headers);
    try apply deleteMedia_headers;
    try (f_equal; apply settle_folders);
    try (destruct (handleAddBookmark _ _ _ _ _ _) eqn:E; simpl;
         [now apply handleAddBookmark_headers in E|reflexivity]).
  all: try (unfold imageLoaded; destruct result;
            [now apply handleAddMedia_from_headers|reflexivity]).
  all: try (unfold handleAddVideoLink; destruct (negb _); [reflexivity|];
            simpl; now apply handleAddMedia_from_headers).
  all: try (unfold deleteBookmark; destruct (negb _); [reflexivity|];
            apply without_bookmark_headers).
  all: try (unfold handleDeleteFromModal; repeat case_match;
            try reflexivity; apply without_bookmark_headers).
  all: frame.
Qed.

Lemma after_create (now : Z) (st : State) :
  folders (after' (CreateFolder now) st) = folders st
  \/ JsString.trim (Form.newFolderName (form st)) <> []
     /\ JsString.trim (Form.newFolderPass (form st)) <> []
     /\ folders (after' (CreateFolder now) st)
        = folders st
          ++ [Folder.mk (JsString.of_integer now)
                (Form.newFolderName (form st))
                (Form.newFolderPass (form st)) []].
Proof.
  unfold after. simpl. unfold handleCreateFolder, JsString.truthy.
  destruct (JsString.trim (Form.newFolderName _)); [now left|].
  destruct (JsString.trim (Form.newFolderPass _)); [now left|].
  right. easy.
Qed.

Lemma after_headers_prefix (ev : Event) (st : State) :
  in_time ev st ->
  exists added,
    map header (folders (after' ev st)) = map header (folders st) ++ added.
Proof.
  intros Htime.
  assert ((exists now, ev = CreateFolder now)
          \/ forall now, ev <> CreateFolder now) as [[now ->]|Hev]
    by (destruct ev; (left; now eexists) || (right; discriminate)).
  - destruct (after_create now st) as [->|(_ & _ & ->)].
    + exists []. now rewrite app_nil_r.
    + rewrite map_app. now eexists.
  - exists []. rewrite app_nil_r. now apply after_headers.
Qed.

(** X3. No folder is ever removed, moved, renamed or given another ID
    or password: after any run of events whose reader and recorder
    callbacks come in time, the folders of the start are the first
    folders, in their order and each with its ID, name and password;
    and an event other than a press on Create leaves as many folders
    as there were. *)
Theorem folders_are_kept (evs : list Event) (st : State) :
  along' in_time evs st ->
  (exists added,
     map header (folders (run' evs st)) = map header (folders st) ++ added)
  /\ ((forall ev, ev ∈ evs -> forall now, ev <> CreateFolder now) ->
      map header (folders (run' evs st)) = map header (folders st)).
Proof.
  revert st. induction evs as [|ev evs IH]; intros st.
  - intros _. split; [exists []; now rewrite app_nil_r|reflexivity].
  - intros [Hev Hrest]. rewrite run_cons.
    destruct (IH _ Hrest) as [[added Hadded] Hsame]. split.
    + destruct (after_headers_prefix ev st Hev) as [added0 Hadded0].
      exists (added0 ++ added).
      now rewrite Hadded, Hadded0, app_assoc.
    + intros Hno. rewrite Hsame.
      * apply after_headers; [exact Hev|]. apply Hno. now left.
      * intros ev' Hin. apply Hno. now right.
Qed.

Lemma handleAddMedia_from_headers_either seen type content now iso st :
  map header (folders (handleAddMedia_from seen type content now iso st))
  = map header (folders seen)
  \/ folders (handleAddMedia_from seen type content now iso st) = folders st.
Proof.
  unfold handleAddMedia_from.
  destruct (selectedBookmark seen) as [sel|]; [|now right].
  destruct (truthy_id _); [|now right].
  pose proof (update_media_folders
                (adding (MediaItem.mk (JsString.of_integer now) type
                                      content iso)) sel seen) as H.
  destruct (update_media _ _ _) as [fs q]. simpl in *. subst fs.
  left. apply map_header_kept. intros f. apply media_changed_header.
Qed.

(** A callback leaves the folders of the render it closes over, their
    bookmarks apart, or the current ones. *)
Lemma after_callback_headers (ev : Event) (seen st : State) :
  closure ev = Some seen ->
  map header (folders (after' ev st)) = map header (folders seen)
  \/ folders (after' ev st) = folders st.
Proof.
  unfold after. destruct ev; try discriminate; intros [= <-]; simpl.
  - unfold imageLoaded. destruct result; [|now right].
    apply handleAddMedia_from_headers_either.
  - apply handleAddMedia_from_headers_either.
Qed.

Lemma closure_cases (ev : Event) :
  (exists seen, closure ev = Some seen)
  \/ (closure ev = None /\ in_time ev = fun _ => True).
Proof. destruct ev; (left; now eexists) || (right; now split). Qed.

Lemma after_distinct (ev : Event) (past : list State) (st : State) :
  (forall seen, closure ev = Some seen -> seen ∈ st :: past) ->
  new_id ev st ->
  Forall (fun s => distinct_ids (folders s)) (st :: past) ->
  distinct_ids (folders (after' ev st)).
Proof.
  intros Hseen Hnew Hall.
  pose proof (Forall_inv Hall) as [Hdup Hne].
  destruct (closure_cases ev) as [[seen Hc]|[Hc Htime]].
  - destruct (after_callback_headers ev seen st Hc) as [H|H].
    + rewrite Forall_forall in Hall.
      destruct (Hall seen (Hseen seen Hc)) as [Hdup' Hne'].
      unfold distinct_ids.
      rewrite map_id_header, H, <- map_id_header. now split.
    + unfold distinct_ids. now rewrite H.
  - assert (in_time ev st) as Hin by now rewrite Htime.
    assert ((exists now, ev = CreateFolder now)
            \/ forall now, ev <> CreateFolder now) as [[now ->]|Hev]
      by (destruct ev; (right; discriminate) || (left; now eexists)).
    + destruct (after_create now st) as [->|(_ & _ & ->)]; [easy|].
      unfold distinct_ids. rewrite map_app. simpl. split.
      * apply NoDup_app. split; [exact Hdup|]. split.
        -- intros id Hid ->%list_elem_of_singleton. now apply Hnew.
        -- apply NoDup_singleton.
      * rewrite elem_of_app, list_elem_of_singleton.
        intros [H|H]; [now apply Hne|].
        symmetry in H. now apply of_integer_nonempty in H.
    + unfold distinct_ids.
      rewrite map_id_header, (after_headers ev st Hin Hev),
        <- map_id_header.
      now split.
Qed.

Lemma run_distinct (evs : list Event) (past : list State) (st : State) :
  created_in URL_hostname past evs st ->
  along' new_id evs st ->
  Forall (fun s => distinct_ids (folders s)) (st :: past) ->
  distinct_ids (folders (run' evs st)).
Proof.
  revert past st. induction evs as [|ev evs IH]; intros past st.
  - intros _ _ Hall. exact (Forall_inv Hall).
  - intros [Hseen Hrest] [Hnew Hnews] Hall. rewrite run_cons.
    apply (IH (st :: past)); [exact Hrest|exact Hnews|].
    constructor; [|exact Hall]. now apply (after_distinct ev past).
Qed.

(** X4. The IDs of the folders stay distinct and non-empty over every
    run in which no two folders are created in the same millisecond,
    late callbacks included: given that each creation comes with a time
    whose decimal text is the ID of no folder, and that the render each
    callback closes over is a state of the run. *)
Theorem ids_stay_distinct (evs : list Event) (st : State) :
  created_in URL_hostname [] evs st ->
  along' new_id evs st ->
  distinct_ids (folders st) ->
  distinct_ids (folders (run' evs st)).
Proof.
  intros Hseen Hnew Hst. apply (run_distinct evs [] st Hseen Hnew).
  now constructor.
Qed.

(** *** The active folder *)

Lemma settle_active result st :
  activeFolderId (Enchant.settle result st) = activeFolderId st.
Proof. frame_settle. Qed.

Lemma handleAddBookmark_active now_img iso_img now iso st st' :
  handleAddBookmark URL_hostname now_img iso_img now iso st = Normal st' ->
  activeFolderId st' = activeFolderId st.
Proof. frame_add. Qed.

Lemma after_active_same (ev : Event) (st : State) :
  ev <> Unlock -> (forall id w, ev <> SelectFolder id w) ->
  activeFolderId (after' ev st) = activeFolderId st.
Proof.
  intros Hu Hs. unfold after.
  destruct ev; try congruence; try (now destruct (Hs id innerWidth));
    simpl;
    try apply settle_active;
    try (destruct (handleAddBookmark _ _ _ _ _ _) eqn:E; simpl;
         [now apply handleAddBookmark_active in E|reflexivity]);
    frame.
Qed.

Lemma after_active_unlocked (ev : Event) (st : State) :
  active_unlocked st -> active_unlocked (after' ev st).
Proof.
  intros Hst id Hid Hne.
  assert (ev = Unlock \/ (exists i w, ev = SelectFolder i w)
          \/ (ev <> Unlock /\ forall i w, ev <> SelectFolder i w))
    as [->|[(i & w & ->)|[Hu Hs]]]
    by (destruct ev; (now left) || (right; left; now do 2 eexists)
                     || (right; right; split; intros; discriminate)).
  - revert Hid. unfold after. simpl. unfold handleUnlock.
    destruct (find _ _) as [f|]; [|simpl; intros H; now apply Hst].
    destruct (JsString.eqb _ _); [|simpl; intros H; now apply Hst].
    simpl. intros ->.
    destruct id; [congruence|]. simpl. set_solver.
  - revert Hid. unfold after. simpl. unfold selectFolder.
    destruct (decide (i ∈ unlockedFolders st)) as [Hin|Hout].
    + rewrite bool_decide_eq_true_2 by exact Hin.
      destruct (narrow w); simpl; now intros [= <-].
    + rewrite bool_decide_eq_false_2 by exact Hout. simpl.
      intros H. now apply Hst.
  - rewrite after_active_same in Hid by assumption.
    apply (after_unlocked_grows URL_hostname ev). now apply Hst.
Qed.

Lemma initial_active_unlocked (fs : list Folder) :
  active_unlocked (initialState fs).
Proof. intros id. discriminate. Qed.

Lemma run_active_unlocked (evs : list Event) (st : State) :
  active_unlocked st -> active_unlocked (run' evs st).
Proof.
  revert st. induction evs as [|ev evs IH]; intros st H; [exact H|].
  rewrite run_cons. now apply IH, after_active_unlocked.
Qed.

Lemma shown_active (st : State) :
  active_unlocked st ->
  activeFolderId st <> Some [] ->
  shown st = activeFolder st.
Proof.
  intros Hst Hne. unfold shown, isUnlocked, truthy_id.
  destruct (activeFolderId st) as [id|] eqn:Hid.
  - assert (id <> []) as Hid' by (intros ->; now apply Hne).
    rewrite (proj2 (truthy_true id) Hid').
    now rewrite bool_decide_eq_true_2 by now apply Hst.
  - unfold activeFolder. simpl.
    induction (folders st) as [|f fs IH]; [reflexivity|]. simpl.
    unfold is_active at 1. rewrite Hid.
    rewrite bool_decide_eq_false_2 by discriminate. exact IH.
Qed.

(** X5. From the first render on, the active folder is an unlocked one:
    in every state a session reaches, an active folder ID other than
    the empty string is in the unlocked set, so that the main panel
    shows the folder of that ID whenever there is one. *)
Theorem active_is_unlocked (fs : list Folder) (evs : list Event) :
  let st := run' evs (initialState fs) in
  active_unlocked st
  /\ (activeFolderId st <> Some [] -> shown st = activeFolder st).
Proof.
  simpl.
  assert (active_unlocked (run' evs (initialState fs))) as H
    by apply run_active_unlocked, initial_active_unlocked.
  split; [exact H|]. now apply shown_active.
Qed.

(** X6. A folder that was unlocked needs no password again in the
    session: whatever happened since, a click on it in the sidebar
    makes it the active folder and leaves the dialogs as they are. *)
Theorem unlocked_opens_at_once (id : jsstring) (w : N) (evs : list Event)
    (st : State) :
  id ∈ unlockedFolders st ->
  let st' := after' (SelectFolder id w) (run' evs st) in
  activeFolderId st' = Some id
  /\ modals st' = modals (run' evs st)
  /\ folderToUnlock st' = folderToUnlock (run' evs st)
  /\ (id <> [] -> isUnlocked st' = true).
Proof.
  intros Hid. simpl.
  pose proof (run_unlocked_grows evs st id Hid) as Hin.
  unfold after. simpl. unfold selectFolder.
  rewrite bool_decide_eq_true_2 by exact Hin.
  assert (forall s, activeFolderId s = Some id ->
            unlockedFolders s = unlockedFolders (run' evs st) ->
            id <> [] -> isUnlocked s = true) as Hun.
  { intros s Ha Hu Hne. unfold isUnlocked. rewrite Ha, Hu.
    rewrite (proj2 (truthy_true id) Hne).
    now rewrite bool_decide_eq_true_2. }
  destruct (narrow w); simpl; (split; [reflexivity|]);
    (split; [reflexivity|]); (split; [reflexivity|]);
    now apply Hun.
Qed.

(** *** Locked folders *)

Lemma map_inactive_lookup (g : Folder -> Folder) (fs : list Folder)
    (i : nat) (f : Folder) :
  g f = f -> fs !! i = Some f -> map g fs !! i = Some f.
Proof. intros Hg Hf. now rewrite list_lookup_fmap, Hf; simpl; rewrite Hg. Qed.

Lemma is_active_locked (st : State) (f : Folder) :
  active_unlocked st ->
  Folder.id f ∉ unlockedFolders st -> Folder.id f <> [] ->
  is_active st f = false.
Proof.
  intros Hst Hout Hne. unfold is_active.
  apply bool_decide_eq_false_2. intros Ha. apply Hout. now apply Hst.
Qed.

Lemma update_media_locked change sel st (i : nat) (f : Folder) :
  is_active st f = false ->
  folders st !! i = Some f ->
  (update_media change sel st).1 !! i = Some f.
Proof.
  intros Hf Hi. rewrite update_media_folders.
  apply map_inactive_lookup; [|exact Hi].
  unfold media_changed_in_folder. now rewrite Hf.
Qed.

Lemma handleAddMedia_from_locked seen type content now iso st i f :
  folders seen !! i = Some f -> is_active seen f = false ->
  folders st !! i = Some f ->
  folders (handleAddMedia_from seen type content now iso st) !! i = Some f.
Proof.
  intros Hseen Hf Hi. unfold handleAddMedia_from.
  destruct (selectedBookmark seen) as [sel|]; [|exact Hi].
  destruct (truthy_id _); [|exact Hi].
  pose proof (update_media_locked
                (adding (MediaItem.mk (JsString.of_integer now) type
                                      content iso)) sel seen i f Hf Hseen)
    as H.
  now destruct (update_media _ _ _) as [fs q].
Qed.

Lemma without_bookmark_locked id st i f :
  is_active st f = false ->
  folders st !! i = Some f ->
  without_bookmark id st !! i = Some f.
Proof.
  intros Hf Hi. apply map_inactive_lookup; [|exact Hi]. now rewrite Hf.
Qed.

(** An event leaves a folder alone that is not the active one, neither
    in the current state nor, for a callback, in the render it closes
    over, where the folder was at its place as well. *)
Lemma after_locked (ev : Event) (st : State) (i : nat) (f : Folder) :
  (forall seen,
     closure ev = Some seen ->
     folders seen !! i = Some f /\ is_active seen f = false) ->
  is_active st f = false ->
  folders st !! i = Some f ->
  folders (after' ev st) !! i = Some f.
Proof.
  intros Hseen Hf Hi. unfold after.
  destruct ev; simpl in *; try exact Hi.
  - unfold closeSidebarIfNarrow. now destruct (narrow _).
  - unfold closeSidebarIfNarrow. now destruct (narrow _).
  - unfold selectFolder. repeat case_match; exact Hi.
  - unfold handleCreateFolder. destruct (_ || _); [exact Hi|]. simpl.
    now apply lookup_app_l_Some.
  - unfold handleUnlock. repeat case_match; exact Hi.
  - unfold handleAddBookmark, hostname, mbind, Completion_bind.
    repeat case_match; simpl; try exact Hi;
      (apply map_inactive_lookup; [now rewrite Hf|exact Hi]).
  - unfold handleCreationImageUpload. repeat case_match; exact Hi.
  - unfold creationImageLoaded. repeat case_match; exact Hi.
  - unfold handleImageUpload. repeat case_match; exact Hi.
  - unfold imageLoaded. destruct result; [|exact Hi].
    destruct (Hseen seen eq_refl) as [Hs Ha].
    now apply handleAddMedia_from_locked.
  - destruct (Hseen seen eq_refl) as [Hs Ha].
    now apply handleAddMedia_from_locked.
  - unfold handleAddVideoLink. destruct (negb _); [exact Hi|]. simpl.
    now apply handleAddMedia_from_locked.
  - unfold deleteMedia.
    destruct (selectedBookmark st) as [sel|]; [|exact Hi].
    destruct (truthy_id _); [|exact Hi].
    pose proof (update_media_locked (deleting mediaId) sel st i f Hf Hi)
      as H.
    destruct (update_media _ _ _) as [fs q]. exact H.
  - unfold deleteBookmark. destruct (negb _); [exact Hi|].
    now apply without_bookmark_locked.
  - unfold handleDeleteFromModal. repeat case_match; try exact Hi.
    now apply without_bookmark_locked.
  - unfold Enchant.start. repeat case_match; exact Hi.
  - rewrite <- (settle_folders result st) in Hi. exact Hi.
  - unfold Oracle.start. repeat case_match; exact Hi.
Qed.

(** What a state of a run holds while the folder [f] is locked: the
    folder at its place, an unlocked folder or none active, and the ID
    of the folder out of the unlocked set. *)
Lemma run_locked (evs : list Event) (past : list State) (st : State)
    (i : nat) (f : Folder) :
  Folder.id f <> [] ->
  created_in URL_hostname past evs st ->
  Forall (fun s => folders s !! i = Some f /\ active_unlocked s
                   /\ Folder.id f ∉ unlockedFolders s) (st :: past) ->
  Folder.id f ∉ unlockedFolders (run' evs st) ->
  folders (run' evs st) !! i = Some f.
Proof.
  intros Hne. revert past st.
  induction evs as [|ev evs IH]; intros past st Hseen Hall Hout.
  - now destruct (Forall_inv Hall).
  - destruct Hseen as [Hev Hrest]. rewrite run_cons in *.
    pose proof (Forall_inv Hall) as (Hi & Hst & Hout0).
    apply (IH (st :: past)); [exact Hrest| |exact Hout].
    constructor; [|exact Hall]. split; [|split].
    + apply after_locked; [|now apply is_active_locked|exact Hi].
      intros seen Hc. rewrite Forall_forall in Hall.
      destruct (Hall seen (Hev seen Hc)) as (Hs & Hs' & Hs'').
      split; [exact Hs|]. now apply is_active_locked.
    + now apply after_active_unlocked.
    + intros Hin. apply Hout. now apply run_unlocked_grows.
Qed.

(** X7. A session changes nothing in a folder it has not unlocked: a
    folder with a non-empty ID that is not in the unlocked set at the
    end of a run is at its place with the bookmarks it had, late
    callbacks included, the render each of them closes over being a
    state of the run; from any state whose active folder is an unlocked
    one, as the first render is. *)
Theorem locked_folder_untouched (evs : list Event) (st : State) (i : nat)
    (f : Folder) :
  active_unlocked st ->
  created_in URL_hostname [] evs st ->
  folders st !! i = Some f ->
  Folder.id f <> [] ->
  Folder.id f ∉ unlockedFolders (run' evs st) ->
  folders (run' evs st) !! i = Some f.
Proof.
  intros Hst Hseen Hi Hne Hout.
  apply (run_locked evs [] st i f Hne Hseen); [|exact Hout].
  constructor; [|constructor]. split; [exact Hi|]. split; [exact Hst|].
  intros Hin. apply Hout. now apply run_unlocked_grows.
Qed.

(** *** The active folder is there *)

Lemma after_ids_grow (ev : Event) (st : State) (id : jsstring) :
  in_time ev st ->
  id ∈ map Folder.id (folders st) ->
  id ∈ map Folder.id (folders (after' ev st)).
Proof.
  intros Htime Hid.
  destruct (after_headers_prefix ev st Htime) as [added Hadded].
  rewrite map_id_header, Hadded, map_app, <- map_id_header.
  apply elem_of_app. now left.
Qed.

Lemma find_id (fs : list Folder) (target : option jsstring) (f : Folder) :
  find (fun g => bool_decide (Some (Folder.id g) = target)) fs = Some f ->
  target = Some (Folder.id f) /\ Folder.id f ∈ map Folder.id fs.
Proof.
  intros H. apply find_some in H as [Hin Hf].
  apply bool_decide_eq_true in Hf. split; [easy|].
  apply list_elem_of_fmap. exists f. split; [reflexivity|].
  now apply list_elem_of_In.
Qed.

Lemma after_ids_known (ev : Event) (st : State) :
  in_time ev st -> ids_known st -> ids_known (after' ev st).
Proof.
  intros Htime [Hun Hact].
  assert (ev = Unlock \/ (exists i w, ev = SelectFolder i w)
          \/ (ev <> Unlock /\ forall i w, ev <> SelectFolder i w))
    as [->|[(i & w & ->)|[Hu Hs]]]
    by (destruct ev; (now left) || (right; left; now do 2 eexists)
                     || (right; right; split; intros; discriminate)).
  - unfold ids_known, after. simpl. unfold handleUnlock.
    destruct (find _ _) as [f|] eqn:Hfind; [|now split].
    destruct (JsString.eqb _ _); [|now split].
    apply find_id in Hfind as [Hto Hin]. rewrite Hto. simpl. split.
    + intros id. destruct (JsString.truthy _); [|apply Hun].
      rewrite elem_of_union, elem_of_singleton.
      intros [->|H]; [exact Hin|now apply Hun].
    + now intros id [= <-].
  - unfold ids_known, after. simpl. unfold selectFolder.
    destruct (decide (i ∈ unlockedFolders st)) as [Hin|Hout].
    + rewrite bool_decide_eq_true_2 by exact Hin.
      destruct (narrow w); simpl; (split; [exact Hun|]);
        intros id [= <-]; now apply Hun.
    + rewrite bool_decide_eq_false_2 by exact Hout. now split.
  - split; intros id Hid.
    + rewrite (after_unlocked_same URL_hostname) in Hid by exact Hu.
      now apply after_ids_grow, Hun.
    + rewrite after_active_same in Hid by assumption.
      now apply after_ids_grow, Hact.
Qed.

Lemma run_ids_known (evs : list Event) (st : State) :
  along' in_time evs st -> ids_known st -> ids_known (run' evs st).
Proof.
  revert st. induction evs as [|ev evs IH]; intros st; [easy|].
  intros [Hev Hrest] Hst. rewrite run_cons.
  apply IH; [exact Hrest|]. now apply after_ids_known.
Qed.

Lemma find_active (st : State) (id : jsstring) :
  activeFolderId st = Some id ->
  id ∈ map Folder.id (folders st) ->
  exists f, activeFolder st = Some f /\ f ∈ folders st /\ Folder.id f = id.
Proof.
  intros Ha Hin. unfold activeFolder.
  destruct (find _ _) as [f|] eqn:Hfind.
  - apply find_some in Hfind as [Hf Hact].
    apply bool_decide_eq_true in Hact.
    exists f. split; [reflexivity|]. split; [now apply list_elem_of_In|].
    congruence.
  - apply list_elem_of_fmap in Hin as (f & -> & Hf).
    apply list_elem_of_In in Hf.
    pose proof (find_none _ _ Hfind f Hf) as Hno.
    apply bool_decide_eq_false in Hno. congruence.
Qed.

(** X8. From the first render on, the active folder is one of the
    folders: in every state a session reaches, its reader and recorder
    callbacks coming in time, an active ID is the ID of a folder of the
    store, and so is every unlocked ID. *)
Theorem active_folder_exists (fs : list Folder) (evs : list Event) :
  along' in_time evs (initialState fs) ->
  let st := run' evs (initialState fs) in
  (forall id,
     activeFolderId st = Some id ->
     exists f, activeFolder st = Some f /\ f ∈ folders st
               /\ Folder.id f = id)
  /\ (forall id,
        id ∈ unlockedFolders st -> exists f, f ∈ folders st
                                             /\ Folder.id f = id).
Proof.
  intros Htime. simpl.
  assert (ids_known (initialState fs)) as H0.
  { split; intros id; [|discriminate].
    simpl. intros H. now apply elem_of_empty in H. }
  destruct (run_ids_known evs _ Htime H0) as [Hun Hact]. split.
  - intros id Hid. apply find_active; [exact Hid|now apply Hact].
  - intros id Hid. apply Hun in Hid.
    apply list_elem_of_fmap in Hid as (f & -> & Hf). now exists f.
Qed.

End Session.

(* ===================================================================== *)
(** * Bookmarks: what is stored, and what is not *)
(* ===================================================================== *)

Section Bookmarks.

Variable URL_hostname : jsstring -> option jsstring.
Variables now_img now : Z.
Variables iso_img iso : jsstring.
Variable st : State.

Abbreviation input := (Form.newBookmarkUrl (form st)).
Abbreviation saved :=
  (handleAddBookmark URL_hostname now_img iso_img now iso st).
Abbreviation pressed := (AddBookmark now_img iso_img now iso).
Abbreviation with_new b :=
  (map (fun f =>
          if is_active st f
          then Folder.with_bookmarks (b :: Folder.bookmarks f) f
          else f)
       (folders st)).

(** What a press on Add that is accepted and does not throw leaves. *)
Lemma handleAddBookmark_saved (st' : State) :
  JsString.trim input <> [] ->
  saved = Normal st' ->
  exists b,
    folders st' = with_new b
    /\ Bookmark.id b = JsString.of_integer now
    /\ Bookmark.url b
       = (if JsString.has_http_scheme input then input
          else js "https://" ++ input)
    /\ activeFolderId st' = activeFolderId st.
Proof.
  intros Hne. unfold handleAddBookmark, hostname.
  rewrite (proj2 (truthy_true _) Hne). cbn [negb]. cbv zeta.
  destruct (JSON.truthy (Form.newBookmarkTitle _)); simpl.
  - intros [= <-]. eexists. repeat split; reflexivity.
  - destruct (URL_hostname _); simpl; [|discriminate].
    intros [= <-]. eexists. repeat split; reflexivity.
Qed.

(** X9. A URL typed with its scheme, in any case of the letters, is
    stored as it was typed: whatever bookmark is saved has the input
    as its URL, and one is saved as soon as a title was typed or the
    input has a host name. *)
Theorem scheme_is_kept :
  JsString.trim input <> [] ->
  JsString.has_http_scheme input = true ->
  (forall st',
     saved = Normal st' ->
     exists b, folders st' = with_new b /\ Bookmark.url b = input)
  /\ (JSON.truthy (Form.newBookmarkTitle (form st)) = true
      \/ URL_hostname input <> None ->
      exists st', saved = Normal st').
Proof.
  intros Hne Hs. split.
  - intros st' Hsaved.
    destruct (handleAddBookmark_saved st' Hne Hsaved)
      as (b & Hfs & _ & Hurl & _).
    exists b. split; [exact Hfs|]. now rewrite Hurl, Hs.
  - intros Hok. unfold handleAddBookmark, hostname.
    rewrite (proj2 (truthy_true _) Hne), Hs. cbn [negb]. cbv zeta.
    destruct (JSON.truthy (Form.newBookmarkTitle _)); simpl;
      [now eexists|].
    destruct Hok as [Hok|Hok]; [discriminate|].
    destruct (URL_hostname input); [now eexists|congruence].
Qed.

(** X10. With no title typed and a URL that [new URL] rejects, a press
    on Add throws a [TypeError] out of the handler and leaves the whole
    state as it was: nothing is stored, the dialog stays open with what
    was typed, and no toast is shown. *)
Theorem rejected_url_saves_nothing :
  JsString.trim input <> [] ->
  JSON.truthy (Form.newBookmarkTitle (form st)) = false ->
  URL_hostname
    (if JsString.has_http_scheme input then input
     else js "https://" ++ input) = None ->
  step URL_hostname pressed st = Throw TypeError
  /\ after URL_hostname pressed st = st.
Proof.
  intros Hne Ht Hh.
  pose proof (handleAddBookmark_throws URL_hostname now_img now iso_img iso
                st Hne Ht Hh) as Hthrow.
  unfold after. simpl. now rewrite Hthrow.
Qed.

Lemma is_active_with_bookmarks (s s' : State) (bs : list Bookmark)
    (f : Folder) :
  activeFolderId s' = activeFolderId s ->
  is_active s' (Folder.with_bookmarks bs f) = is_active s f.
Proof. intros H. unfold is_active. rewrite H. now destruct f. Qed.

(** X11. Saving a bookmark and then deleting it by the ID it was given
    brings the folders back to what they were, provided that no
    bookmark of the active folder already has that ID, the decimal text
    of the time of the press. *)
Theorem add_then_delete_bookmark (st' : State) :
  saved = Normal st' ->
  (forall f b,
     f ∈ folders st -> activeFolderId st = Some (Folder.id f) ->
     b ∈ Folder.bookmarks f -> Bookmark.id b <> JsString.of_integer now) ->
  folders (deleteBookmark (JsString.of_integer now) true st') = folders st.
Proof.
  intros Hsaved Hfresh. unfold deleteBookmark. simpl.
  destruct (JsString.trim input) as [|c r] eqn:Htrim.
  - rewrite handleAddBookmark_blank in Hsaved by exact Htrim.
    injection Hsaved as <-. now apply without_bookmark_absent.
  - assert (JsString.trim input <> []) as Hne by now rewrite Htrim.
    destruct (handleAddBookmark_saved st' Hne Hsaved)
      as (b & Hfs & Hid & _ & Hact).
    unfold without_bookmark. rewrite Hfs, List.map_map.
    apply map_fixed. intros f Hf.
    destruct (is_active st f) eqn:Hf_active.
    + rewrite (is_active_with_bookmarks st st') by exact Hact.
      rewrite Hf_active. destruct f as [fid name pass bs]. simpl.
      rewrite filter_cons_False by (intros H; now apply H).
      rewrite filter_all; [reflexivity|].
      apply Forall_forall. intros b' Hb'.
      apply (Hfresh _ b' Hf); [|exact Hb'].
      unfold is_active in Hf_active.
      now apply bool_decide_eq_true in Hf_active.
    + replace (is_active st' f) with (is_active st f)
        by (unfold is_active; now rewrite Hact).
      now rewrite Hf_active.
Qed.

End Bookmarks.

(* ===================================================================== *)
(** * Video links *)
(* ===================================================================== *)

Section Replace.
Import JsString.

Lemma starts_with_self (p s : jsstring) : starts_with p (p ++ s) = true.
Proof.
  induction p as [|c p IH]; [reflexivity|]. simpl.
  now rewrite N.eqb_refl, IH.
Qed.

Lemma includes_here (p s : jsstring) :
  starts_with p s = true -> includes p s = true.
Proof. intros H. destruct s; simpl in *; now rewrite H. Qed.

Lemma includes_app_r (p pre s : jsstring) :
  includes p s = true -> includes p (pre ++ s) = true.
Proof.
  intros H. induction pre as [|c pre IH]; [exact H|]. simpl.
  rewrite IH. apply orb_true_r.
Qed.

Lemma includes_cons (p : jsstring) (c : N) (s : jsstring) :
  includes p (c :: s) = false ->
  starts_with p (c :: s) = false /\ includes p s = false.
Proof. simpl. intros H. now apply orb_false_elim in H. Qed.

(** A match of [p] that starts in [pre] and goes on into [s] either
    lies in [pre] or leaves an end of [p] at the head of [s]. *)
Lemma starts_with_app (p pre s : jsstring) :
  pre <> [] ->
  starts_with p (pre ++ s) = true ->
  starts_with p pre = true
  \/ exists k, (0 < k < length p)%nat /\ starts_with (drop k p) s = true.
Proof.
  revert pre. induction p as [|a p IH]; intros pre Hpre; [now left|].
  destruct pre as [|b pre]; [congruence|]. simpl.
  intros H. apply andb_prop in H as [Hab H]. rewrite Hab. simpl.
  destruct pre as [|b' pre].
  - destruct p as [|a' p]; [now left|].
    right. exists 1%nat. simpl in *. split; [lia|exact H].
  - destruct (IH (b' :: pre) ltac:(discriminate) H) as [Hl|(k & Hk & Hr)].
    + now left.
    + right. exists (S k). simpl. split; [lia|exact Hr].
Qed.

(** The first match of [p] is not in [pre], and not across its end. *)
Lemma replace_first_app (p r pre s : jsstring) :
  includes p pre = false ->
  (forall k, (0 < k < length p)%nat -> starts_with (drop k p) s = false) ->
  replace_first p r (pre ++ s) = pre ++ replace_first p r s.
Proof.
  intros Hpre Hs. induction pre as [|c pre IH]; [reflexivity|].
  apply includes_cons in Hpre as [Hhere Hpre].
  change ((c :: pre) ++ s) with (c :: (pre ++ s)).
  cbn [replace_first].
  change (c :: (pre ++ s)) with ((c :: pre) ++ s).
  destruct (starts_with p ((c :: pre) ++ s)) eqn:Hstart.
  - apply starts_with_app in Hstart; [|discriminate].
    destruct Hstart as [H|(k & Hk & H)].
    + congruence.
    + rewrite Hs in H by exact Hk. discriminate.
  - simpl. now rewrite IH.
Qed.

Lemma replace_first_here (p r s : jsstring) :
  replace_first p r (p ++ s) = r ++ s.
Proof.
  destruct p as [|c p]; [now destruct s|].
  cbn [replace_first app].
  change (c :: (p ++ s)) with ((c :: p) ++ s).
  rewrite starts_with_self. now rewrite drop_app_length.
Qed.

End Replace.

Section VideoLinks.
Import JsString.

(** X12. A YouTube watch link becomes the embed link of the same
    video, whatever stands before the host name that holds no
    [watch?v=]: the first [watch?v=] is what gets replaced. A [youtu.be]
    short link becomes the embed link on [youtube.com], whatever stands
    before the host name that holds no [youtu.be/], provided that the
    whole link holds no [youtube.com/watch?v=], which the handler looks
    for first. *)
Theorem embedUrl_youtube (pre id : jsstring) :
  (includes (js "watch?v=") pre = false ->
   embedUrl (pre ++ js "youtube.com/watch?v=" ++ id)
   = pre ++ js "youtube.com/embed/" ++ id)
  /\ (includes (js "youtu.be/") pre = false ->
      includes (js "youtube.com/watch?v=") (pre ++ js "youtu.be/" ++ id)
      = false ->
      embedUrl (pre ++ js "youtu.be/" ++ id)
      = pre ++ js "youtube.com/embed/" ++ id).
Proof.
  split.
  - intros Hpre. unfold embedUrl.
    rewrite includes_app_r
      by (apply includes_here, (starts_with_self (js "youtube.com/watch?v="))).
    rewrite replace_first_app.
    + reflexivity.
    + exact Hpre.
    + intros k Hk. simpl in Hk.
      do 8 (destruct k as [|k]; [try lia; reflexivity|]). lia.
  - intros Hpre Hno. unfold embedUrl. rewrite Hno.
    rewrite includes_app_r
      by (apply includes_here, (starts_with_self (js "youtu.be/"))).
    rewrite replace_first_app.
    + now rewrite (replace_first_here (js "youtu.be/")).
    + exact Hpre.
    + intros k Hk. simpl in Hk.
      do 9 (destruct k as [|k]; [try lia; reflexivity|]). lia.
Qed.

End VideoLinks.

Section VideoHandler.

Variable now : Z.
Variable iso : jsstring.
Variable st : State.

Abbreviation typed := (Form.videoUrlInput (form st)).
Abbreviation linked := (handleAddVideoLink now iso st).

Lemma handleAddVideoLink_embed :
  typed <> [] ->
  linked
  = handleAddMedia video (embedUrl typed) now iso st
      |> onForm (Form.setVideoUrlInput []).
Proof.
  intros Hne. unfold handleAddVideoLink, embedUrl.
  now rewrite (proj2 (truthy_true _) Hne).
Qed.

(** X13. A press on Add Video with an empty field does nothing. With a
    link in the field, the field is emptied whether or not a bookmark
    can take the video, and every bookmark of the active folder that
    has the ID of the selected one gets, at the end of its media, a
    video item whose content is the embed link of what was typed and
    whose ID is the decimal text of the time of the press. *)
Theorem video_link_is_attached :
  (typed = [] -> linked = st)
  /\ (typed <> [] -> Form.videoUrlInput (form linked) = [])
  /\ (forall (sel : Bookmark) (i j : nat) (f : Folder) (b : Bookmark),
        typed <> [] ->
        selectedBookmark st = Some sel ->
        folders st !! i = Some f ->
        activeFolderId st = Some (Folder.id f) -> Folder.id f <> [] ->
        Folder.bookmarks f !! j = Some b ->
        Bookmark.id b = Bookmark.id sel ->
        exists f' b',
          folders linked !! i = Some f'
          /\ Folder.bookmarks f' !! j = Some b'
          /\ Bookmark.media b'
             = Bookmark.media b
               ++ [MediaItem.mk (JsString.of_integer now) video
                     (embedUrl typed) iso]).
Proof.
  split; [|split].
  - intros He. unfold handleAddVideoLink. now rewrite He.
  - intros Hne. now rewrite handleAddVideoLink_embed.
  - intros sel i j f b Hne Hsel Hf Hact Hid Hb Hsame.
    rewrite handleAddVideoLink_embed by exact Hne.
    apply (handleAddMedia_appends video (embedUrl typed) iso now st sel
             i j f b); try assumption.
    rewrite Hact. simpl. now apply truthy_true.
Qed.

End VideoHandler.

(* ===================================================================== *)
(** * The gateway and the two AI actions *)
(* ===================================================================== *)

Section GatewayOutcomes.
Import Gateway.

Variable fetch : Request -> FetchResult.
Variables prompt systemInstruction : jsstring.

(** X14. A call to the gateway issues no request without a key and one
    request with a key, the POST of the prompt to the endpoint that
    ends in the key; and it resolves to one of its three fixed messages
    or, the response being a success whose body is JSON, to the truthy
    text of the first part of the first candidate. *)
Theorem callGemini_outcomes (key : jsstring) :
  let call := callGemini key fetch prompt systemInstruction in
  let req := request key prompt systemInstruction in
  call.1 = (if JsString.truthy key then [req] else [])
  /\ (call.2 = JStr missing_key \/ call.2 = JStr severed
      \/ call.2 = JStr silent
      \/ exists status text data,
           fetch req = Response status text /\ ok status = true
           /\ JSON.parse text = Some data
           /\ candidate_text data = Normal (Some call.2)
           /\ JSON.truthy call.2 = true).
Proof.
  simpl. unfold callGemini. destruct key as [|c k]; simpl.
  { split; [reflexivity|now left]. }
  split; [reflexivity|].
  destruct (fetch _) as [|status text]; simpl; [now right; left|].
  destruct (ok status) eqn:Hok; simpl; [|now right; left].
  unfold JSON_parse.
  destruct (JSON.parse text) as [data|] eqn:Hparse; simpl;
    [|now right; left].
  destruct (candidate_text data) as [[v|]|] eqn:Htext; simpl;
    [|now right; right; left|now right; left].
  destruct (JSON.truthy v) eqn:Hv; [|now right; right; left].
  right. right. right. now exists status, text, data.
Qed.

End GatewayOutcomes.

Section EnchantOutcomes.
Import Enchant.

Variable st : State.

Abbreviation failed s :=
  (s |> showToast confused error |> onAi (Ai.setIsEnchanting false)).

Lemma settle_unparsed (s : jsstring) :
  JSON.parse (JsString.strip_fences s) = None ->
  settle (JStr s) st = failed st.
Proof.
  intros H. unfold settle, settle_try, JSON_parse. simpl. now rewrite H.
Qed.

Lemma settle_fixed_message (reply : json) :
  reply = JStr Gateway.missing_key \/ reply = JStr Gateway.severed
  \/ reply = JStr Gateway.silent ->
  settle reply st = failed st.
Proof.
  intros [-> | [-> | ->]]; apply settle_unparsed; vm_compute; reflexivity.
Qed.

(** X16. However the reply looks, the end of an Enchant run switches
    the spinner off and shows one of its two toasts, and it touches
    nothing but the title and the description of the form: the folders,
    the unlocked set, the active folder, the dialogs and the other
    fields stay. *)
Theorem enchant_always_ends (reply : json) :
  let st' := settle reply st in
  Ai.isEnchanting (ai st') = false
  /\ (toast st' = Some (ToastState.mk illuminated success)
      \/ toast st' = Some (ToastState.mk confused error)
         /\ form st' = form st)
  /\ folders st' = folders st
  /\ unlockedFolders st' = unlockedFolders st
  /\ activeFolderId st' = activeFolderId st
  /\ modals st' = modals st
  /\ selectedBookmark st' = selectedBookmark st
  /\ Form.newBookmarkUrl (form st') = Form.newBookmarkUrl (form st)
  /\ Form.newBookmarkImg (form st') = Form.newBookmarkImg (form st)
  /\ Form.newFolderName (form st') = Form.newFolderName (form st)
  /\ Form.newFolderPass (form st') = Form.newFolderPass (form st)
  /\ Form.unlockInput (form st') = Form.unlockInput (form st)
  /\ Form.videoUrlInput (form st') = Form.videoUrlInput (form st).
Proof.
  simpl. unfold settle, settle_try, clean, JSON_parse, member, mbind,
    Completion_bind.
  repeat case_match; simpl; repeat split; auto.
Qed.

End EnchantOutcomes.

Section EnchantRun.
Import Enchant.

Variable key : jsstring.
Variable fetch : Gateway.Request -> Gateway.FetchResult.
Variable st : State.

Abbreviation typed_url := (Form.newBookmarkUrl (form st)).
Abbreviation reply :=
  (Gateway.callGemini key fetch (prompt typed_url) systemInstruction).2.

(** X15. An Enchant run that gets no text from the model, the gateway
    answering with one of its fixed messages (no key, a failed request
    or a response without text), ends in the failure toast with the
    form as it was typed and the spinner off: the three messages are
    no JSON. *)
Theorem enchant_without_reply :
  typed_url <> [] ->
  reply = JStr Gateway.missing_key \/ reply = JStr Gateway.severed
  \/ reply = JStr Gateway.silent ->
  let st' := (handleEnchant key fetch st).2 in
  form st' = form st
  /\ toast st' = Some (ToastState.mk confused error)
  /\ Ai.isEnchanting (ai st') = false
  /\ folders st' = folders st.
Proof.
  intros Hurl Hreply. simpl. unfold handleEnchant.
  rewrite (proj2 (truthy_true _) Hurl). cbn [negb].
  destruct (Gateway.callGemini _ _ _ _) as [reqs result].
  cbn [snd] in *.
  rewrite settle_fixed_message by exact Hreply.
  unfold start. rewrite (proj2 (truthy_true _) Hurl). cbn [negb].
  repeat split; reflexivity.
Qed.

End EnchantRun.

Section OracleProperties.
Import OracleChat.

Variable number_text : Z -> Z -> jsstring.
Variable key : jsstring.
Variable fetch : Gateway.Request -> Gateway.FetchResult.
Variable st : State.

Abbreviation question := (Ai.oracleInput (ai st)).
Abbreviation asked := (handleOracleChat number_text key fetch st).
Abbreviation answer :=
  (Gateway.callGemini key fetch question
     (systemPrompt number_text (folders st))).2.


Lemma handleOracleChat_asked :
  JsString.trim question <> [] ->
  asked
  = ((Gateway.callGemini key fetch question
        (systemPrompt number_text (folders st))).1,
     Oracle.settle answer (Oracle.start st)).
Proof.
  intros Hq. unfold handleOracleChat.
  rewrite (proj2 (truthy_true _) Hq). cbn [negb].
  now destruct (Gateway.callGemini _ _ _ _).
Qed.


(** X19. A question that is not blank adds two messages to the
    transcript, the question as typed and then what the gateway
    resolved to, which is never empty; the field is emptied, the
    Oracle stops thinking and the folders stay. A blank question
    issues no request and changes nothing. *)
Theorem oracle_exchange :
  (JsString.trim question = [] -> asked = ([], st))
  /\ (JsString.trim question <> [] ->
      Ai.oracleHistory (ai asked.2)
      = Ai.oracleHistory (ai st)
        ++ [ChatMessage.mk user (JStr question); ChatMessage.mk model answer]
      /\ JSON.truthy answer = true
      /\ Ai.oracleInput (ai asked.2) = []
      /\ Ai.isOracleThinking (ai asked.2) = false
      /\ folders asked.2 = folders st).
Proof.
  split.
  - intros Hq. unfold handleOracleChat. now rewrite Hq.
  - intros Hq. rewrite handleOracleChat_asked by exact Hq. cbn [snd].
    unfold Oracle.start. rewrite (proj2 (truthy_true _) Hq). cbn [negb].
    split; [|split; [apply callGemini_truthy|easy]].
    simpl. now rewrite <- app_assoc.
Qed.

End OracleProperties.

Section Transcript.

Variable URL_hostname : jsstring -> option jsstring.

Abbreviation transcript s := (Ai.oracleHistory (ai s)).

Lemma settle_ai_history result st :
  transcript (Enchant.settle result st) = transcript st.
Proof. frame_settle. Qed.

Lemma handleAddBookmark_history now_img iso_img now iso st st' :
  handleAddBookmark URL_hostname now_img iso_img now iso st = Normal st' ->
  transcript st' = transcript st.
Proof. frame_add. Qed.

Lemma after_transcript (ev : Event) (st : State) :
  exists more,
    transcript (after URL_hostname ev st) = transcript st ++ more.
Proof.
  unfold after.
  destruct ev; simpl;
    try (exists []; rewrite app_nil_r;
         first [ apply settle_ai_history
               | destruct (handleAddBookmark _ _ _ _ _ _) eqn:E; simpl;
                 [now apply handleAddBookmark_history in E|reflexivity]
               | now frame ]).
  - unfold Oracle.start. destruct (negb _); simpl.
    + exists []. now rewrite app_nil_r.
    + now eexists.
  - now eexists.
Qed.

(** X18. The transcript of the Oracle only grows: no event removes or
    changes a message that is there, so that over any run the old
    transcript is the start of the new one, and the greeting of the
    Oracle stays the first message of a session. *)
Theorem transcript_is_kept (evs : list Event) (st : State) :
  (exists more,
     transcript (run URL_hostname evs st) = transcript st ++ more)
  /\ forall fs,
       head (transcript (run URL_hostname evs (initialState fs)))
       = Some (ChatMessage.mk model (JStr greeting)).
Proof.
  assert (forall s, exists more,
            transcript (run URL_hostname evs s) = transcript s ++ more)
    as Hrun.
  { induction evs as [|ev evs' IH]; intros s.
    - exists []. now rewrite app_nil_r.
    - destruct (after_transcript ev s) as [m1 H1].
      destruct (IH (after URL_hostname ev s)) as [m2 H2].
      exists (m1 ++ m2). simpl.
      change (fold_left _ evs' _)
        with (run URL_hostname evs' (after URL_hostname ev s)).
      now rewrite H2, H1, app_assoc. }
  split; [apply Hrun|].
  intros fs. destruct (Hrun (initialState fs)) as [more ->]. reflexivity.
Qed.

End Transcript.

(* ===================================================================== *)
(** * The recorder's clock *)
(* ===================================================================== *)

Section Clock.
Import JsString AudioRecorder.

Lemma uint_digits_inj (d d' : Decimal.uint) :
  uint_digits d = uint_digits d' -> d = d'.
Proof.
  revert d'. induction d; destruct d'; simpl; intros H;
    try discriminate; try reflexivity;
    injection H as H; f_equal; now apply IHd.
Qed.

Lemma uint_digits_no_colon (d : Decimal.uint) :
  Forall (fun c => c <> 58) (uint_digits d).
Proof. induction d; simpl; constructor; try easy. Qed.

Lemma of_N_no_colon (n : N) :
  Forall (fun c => c <> 58) (of_integer (Z.of_N n)).
Proof.
  destruct n as [|p]; simpl; [now repeat constructor|].
  apply uint_digits_no_colon.
Qed.

Lemma of_N_inj (a b : N) :
  of_integer (Z.of_N a) = of_integer (Z.of_N b) -> a = b.
Proof.
  assert (forall p, uint_digits (Pos.to_uint p) <> [48]) as Hzero.
  { intros p H. apply (uint_digits_inj _ (Decimal.D0 Decimal.Nil)) in H.
    apply (f_equal Pos.of_uint) in H.
    rewrite DecimalPos.Unsigned.of_to in H. discriminate. }
  destruct a as [|p], b as [|q]; simpl; intros H.
  - reflexivity.
  - symmetry in H. now apply Hzero in H.
  - now apply Hzero in H.
  - apply uint_digits_inj in H. apply (f_equal Pos.of_uint) in H.
    rewrite !DecimalPos.Unsigned.of_to in H. now injection H as ->.
Qed.

(** Two texts that agree, each cut at its first colon. *)
Lemma split_at_colon (a a' x x' : jsstring) :
  Forall (fun c => c <> 58) a -> Forall (fun c => c <> 58) a' ->
  a ++ 58 :: x = a' ++ 58 :: x' -> a = a' /\ x = x'.
Proof.
  intros Ha. revert a'. induction Ha as [|c a Hc _ IH]; intros a' Ha' H.
  - destruct Ha' as [|c' a' Hc' _]; simpl in H.
    + now injection H as ->.
    + injection H as <- _. congruence.
  - destruct Ha' as [|c' a' Hc' Ha']; simpl in H.
    + injection H as -> _. congruence.
    + injection H as -> H. destruct (IH a' Ha' H) as [-> ->]. easy.
Qed.

Lemma two_digits (n : N) :
  n < 60 ->
  padStart2 (of_integer (Z.of_N n)) = [48 + n / 10; 48 + n mod 10].
Proof.
  intros Hn.
  assert (forallb
            (fun k => bool_decide
               (padStart2 (of_integer (Z.of_N k))
                = [48 + k / 10; 48 + k mod 10]))
            (map N.of_nat (seq 0 60)) = true) as Hall
    by (vm_compute; reflexivity).
  rewrite forallb_forall in Hall.
  eapply bool_decide_eq_true_1, Hall.
  rewrite <- (N2Nat.id n). apply in_map, in_seq. lia.
Qed.

(** *** The division of the clock is exact *)

Lemma scale_found (fuel : nat) (a b k0 j : N) :
  k0 <= j -> j < k0 + N.of_nat fuel ->
  b * 2 ^ 52 <= a * 2 ^ j ->
  b * 2 ^ 52 <= a * 2 ^ scale fuel a b k0.
Proof.
  revert k0. induction fuel as [|fuel IH]; intros k0 Hle Hlt Hj; [lia|].
  simpl. destruct (N.leb_spec (b * 2 ^ 52) (a * 2 ^ k0)) as [H|H];
    [exact H|].
  assert (j <> k0) as Hne by (intros ->; lia).
  apply IH; [lia|lia|exact Hj].
Qed.

Lemma pow2_above_30 (k : N) : 30 <= 2 ^ k -> 32 <= 2 ^ k.
Proof.
  intros H. destruct (N.lt_ge_cases k 5) as [Hk|Hk].
  - assert (k = 0 \/ k = 1 \/ k = 2 \/ k = 3 \/ k = 4)
      as [->|[->|[->|[->| ->]]]] by lia; vm_compute in H; now destruct H.
  - change 32 with (2 ^ 5). apply N.pow_le_mono_r; [discriminate|exact Hk].
Qed.

(** Rounding moves a quotient by a half at most. *)
Lemma round_half_even_near (n d : N) :
  d <> 0 ->
  let m := round_half_even n d in
  (m = n / d \/ m = n / d + 1 /\ d <= 2 * (n mod d)).
Proof.
  intros Hd. unfold round_half_even. cbv zeta.
  destruct (N.ltb_spec (2 * (n mod d)) d) as [H1|H1]; [now left|].
  destruct (N.ltb_spec d (2 * (n mod d))) as [H2|H2]; [right; lia|].
  destruct (N.even (n / d)); [now left|right; lia].
Qed.

(** [Math.floor(seconds / 60)] is the quotient of the integers: the
    rounding of the division never reaches the next integer. *)
Lemma floor_divide_60 (a : N) :
  a <= 2 ^ 53 -> floor (divide a 60) = a / 60.
Proof.
  intros Ha. unfold divide.
  destruct (N.eqb_spec a 0) as [->|Hpos]; [reflexivity|].
  cbv zeta. unfold floor. cbn [fst snd].
  set (k := scale 1100 a 60 0).
  assert (60 * 2 ^ 52 <= a * 2 ^ k) as Hk.
  { apply (scale_found 1100 a 60 0 58); [lia|reflexivity|].
    transitivity (1 * 2 ^ 58); [vm_compute; discriminate|].
    apply N.mul_le_mono_r. lia. }
  assert (32 <= 2 ^ k) as HP.
  { apply pow2_above_30.
    assert (a * 2 ^ k <= 2 ^ 53 * 2 ^ k) as H
      by (apply N.mul_le_mono_r; exact Ha).
    change (2 ^ 53) with (2 * 2 ^ 52) in H.
    change (60 * 2 ^ 52) with (30 * (2 * 2 ^ 52)) in Hk.
    nia. }
  generalize dependent (2 ^ k). clear k. intros P Hk HP.
  pose proof (N.div_mod a 60 ltac:(discriminate)) as Ha60.
  pose proof (N.mod_lt a 60 ltac:(discriminate)) as Hr.
  pose proof (N.div_mod (a * P) 60 ltac:(discriminate)) as Hn60.
  pose proof (N.mod_lt (a * P) 60 ltac:(discriminate)) as Hrem.
  pose proof (round_half_even_near (a * P) 60 ltac:(discriminate)) as Hm.
  cbv zeta in Hm.
  set (m := round_half_even (a * P) 60) in *.
  set (d := a / 60) in *. set (r := a mod 60) in *.
  set (q := a * P / 60) in *. set (rem := (a * P) mod 60) in *.
  assert (a * P = 60 * (d * P) + r * P) as Hscaled by (rewrite Ha60; ring).
  assert (r * P <= 59 * P) as HrP by (apply N.mul_le_mono_r; lia).
  symmetry. apply (N.div_unique m P d (m - P * d)).
  - destruct Hm as [->|[-> Hup]]; lia.
  - destruct Hm as [->|[-> Hup]]; lia.
Qed.

(** X20. For every count the timer can hold, the integers up to
    [2^53], the clock of the recorder shows the whole minutes, a colon
    and the seconds in two digits, the division of Numbers being exact
    there; and two different counts are never shown alike. *)
Theorem formatTime_reads_back (seconds : N) :
  seconds <= 2 ^ 53 ->
  formatTime seconds
  = Some (of_integer (Z.of_N (seconds / 60))
          ++ [58; 48 + seconds mod 60 / 10; 48 + seconds mod 60 mod 10])
  /\ forall other,
       other <= 2 ^ 53 ->
       formatTime seconds = formatTime other -> seconds = other.
Proof.
  assert (forall s,
    s <= 2 ^ 53 ->
    formatTime s
    = Some (of_integer (Z.of_N (s / 60))
            ++ 58 :: [48 + s mod 60 / 10; 48 + s mod 60 mod 10]))
    as Hshape.
  { intros s Hs. unfold formatTime.
    destruct (N.ltb_spec (2 ^ 53) s) as [H|_]; [lia|]. cbv zeta.
    rewrite floor_divide_60 by exact Hs.
    rewrite two_digits by (apply N.mod_lt; discriminate). reflexivity. }
  intros Hs. split; [now apply Hshape|].
  intros other Ho. rewrite !Hshape by assumption. intros [= H].
  apply split_at_colon in H as [Hm Hsec]; try apply of_N_no_colon.
  apply of_N_inj in Hm. injection Hsec as H1 H2.
  rewrite (N.div_mod seconds 60), (N.div_mod other 60) by discriminate.
  rewrite Hm. f_equal.
  rewrite (N.div_mod (seconds mod 60) 10),
          (N.div_mod (other mod 60) 10) by discriminate.
  lia.
Qed.

End Clock.

(* ===================================================================== *)
(** * Media: the details dialog and late callbacks *)
(* ===================================================================== *)

Section Queue.

Context {A B E : Type}.
Variable f : A -> B * option E.

(** An element that queues an update makes the pass queue one. *)
Lemma map_queue_queues (xs : list A) (x : A) :
  x ∈ xs -> (f x).2 <> None -> (map_queue f xs).2 <> None.
Proof.
  induction xs as [|y r IH]; [now intros ?%elem_of_nil|].
  intros Hx Hq. simpl.
  destruct (f y) as [z e] eqn:Ey, (map_queue f r) as [zs e'].
  simpl in *. destruct e' as [e1|]; [discriminate|]. simpl.
  apply elem_of_cons in Hx as [->|Hx].
  - now rewrite Ey in Hq.
  - now apply IH in Hx.
Qed.

End Queue.

Section Selection.

Variable change : list MediaItem -> list MediaItem.
Variable sel : Bookmark.
Variable st : State.

Abbreviation in_bookmark :=
  (fun b : Bookmark =>
     if bool_decide (Bookmark.id b = Bookmark.id sel) then
       let updatedB := Bookmark.with_media (change (Bookmark.media b)) b in
       (updatedB, Some updatedB)
     else (b, None)).

(** The bookmark the pass queues as the selected one is a bookmark of
    an active folder of the folders it returns, with its media
    changed. *)
Lemma update_media_queued_stored (sel' : Bookmark) :
  (update_media change sel st).2 = Some sel' ->
  exists f b,
    f ∈ folders st /\ is_active st f = true
    /\ b ∈ Folder.bookmarks f /\ Bookmark.id b = Bookmark.id sel
    /\ sel' = Bookmark.with_media (change (Bookmark.media b)) b
    /\ sel' ∈ Folder.bookmarks (media_changed_in_folder change sel st f)
    /\ media_changed_in_folder change sel st f
       ∈ (update_media change sel st).1.
Proof.
  intros H. rewrite update_media_folders.
  unfold update_media in H.
  apply map_queue_some in H as (f & Hf & Hq).
  destruct (is_active st f) eqn:Hact; [|discriminate].
  pose proof (map_queue_some in_bookmark (Folder.bookmarks f) sel') as Hin.
  destruct (map_queue in_bookmark (Folder.bookmarks f)) as [bs q].
  simpl in *. destruct (Hin Hq) as (b & Hb & Hb').
  destruct (decide (Bookmark.id b = Bookmark.id sel)) as [He|He].
  - rewrite (bool_decide_eq_true_2 _ He) in Hb'. simpl in Hb'.
    injection Hb' as <-.
    exists f, b. repeat split; try assumption.
    + unfold media_changed_in_folder. rewrite Hact. simpl.
      apply list_elem_of_fmap. exists b. split; [|exact Hb].
      unfold media_changed_in_bookmark.
      now rewrite (bool_decide_eq_true_2 _ He).
    + apply list_elem_of_fmap. now exists f.
  - rewrite (bool_decide_eq_false_2 _ He) in Hb'. discriminate.
Qed.

Lemma update_media_queues (f : Folder) (b : Bookmark) :
  f ∈ folders st -> is_active st f = true ->
  b ∈ Folder.bookmarks f -> Bookmark.id b = Bookmark.id sel ->
  (update_media change sel st).2 <> None.
Proof.
  intros Hf Hact Hb He. unfold update_media.
  apply (map_queue_queues _ _ f Hf). rewrite Hact.
  pose proof (map_queue_queues in_bookmark (Folder.bookmarks f) b Hb) as Hq.
  destruct (map_queue in_bookmark (Folder.bookmarks f)) as [bs q].
  simpl in *. apply Hq. now rewrite (bool_decide_eq_true_2 _ He).
Qed.

End Selection.

Section SelectionFollows.

Variable type : MediaType.
Variables content iso : jsstring.
Variable now : Z.
Variable st : State.

Abbreviation item :=
  (MediaItem.mk (JsString.of_integer now) type content iso).

(** X21. The details dialog keeps showing what is stored: when the
    selected bookmark is one of the active folder, then after adding a
    media item the selected bookmark is a bookmark of the active folder
    of the new folders, has the ID it had, and ends in the new item. *)
Theorem selection_follows_media (sel : Bookmark) (f : Folder)
    (b : Bookmark) :
  selectedBookmark st = Some sel ->
  f ∈ folders st -> activeFolderId st = Some (Folder.id f) ->
  Folder.id f <> [] ->
  b ∈ Folder.bookmarks f -> Bookmark.id b = Bookmark.id sel ->
  let attached := handleAddMedia type content now iso st in
  exists sel' f',
    selectedBookmark attached = Some sel'
    /\ f' ∈ folders attached
    /\ activeFolderId attached = Some (Folder.id f')
    /\ sel' ∈ Folder.bookmarks f'
    /\ Bookmark.id sel' = Bookmark.id sel
    /\ last (Bookmark.media sel') = Some item.
Proof.
  intros Hsel Hf Hact Hid Hb He. cbv zeta.
  assert (is_active st f = true) as Hactive
    by (unfold is_active; now apply bool_decide_eq_true_2).
  pose proof (update_media_queues (adding item) sel st f b Hf Hactive Hb He)
    as Hsome.
  pose proof (update_media_queued_stored (adding item) sel st) as Hstored.
  unfold handleAddMedia, handleAddMedia_from. rewrite Hsel, Hact.
  simpl truthy_id. rewrite (proj2 (truthy_true _) Hid).
  destruct (update_media _ sel st) as [fs [sel'|]];
    [|exfalso; now apply Hsome].
  simpl in *.
  destruct (Hstored sel' eq_refl)
    as (f0 & b0 & Hf0 & Hact0 & Hb0 & He0 & -> & Hin & Hfs).
  exists (Bookmark.with_media (Bookmark.media b0 ++ [item]) b0),
         (media_changed_in_folder (adding item) sel st f0).
  split; [reflexivity|]. split; [exact Hfs|]. split.
  - unfold media_changed_in_folder. rewrite Hact0.
    unfold is_active in Hact0. apply bool_decide_eq_true in Hact0.
    rewrite Hact0. now destruct f0.
  - split; [exact Hin|]. split; [now destruct b0|].
    destruct b0. simpl. apply last_snoc.
Qed.

End SelectionFollows.

Section LateCallbacks.

Variable URL_hostname : jsstring -> option jsstring.

Abbreviation page_step := (Page.step URL_hostname).
Abbreviation page_run := (Page.run URL_hostname).

(** The folders the handler of a render leaves are those of that
    render with the item added, whatever state its updates are queued
    on. *)
Lemma handleAddMedia_from_folders seen type content now iso cur sel :
  selectedBookmark seen = Some sel ->
  truthy_id (activeFolderId seen) = true ->
  folders (handleAddMedia_from seen type content now iso cur)
  = folders (handleAddMedia type content now iso seen).
Proof.
  intros Hsel Hact. unfold handleAddMedia, handleAddMedia_from.
  rewrite Hsel, Hact. now destruct (update_media _ sel seen) as [fs q].
Qed.

Lemma remount_kept (p : Page.t) :
  Page.app (Page.remount p) = Page.app p
  /\ Page.stopped (Page.remount p) = Page.stopped p
  /\ Page.readers (Page.remount p) = Page.readers p
  /\ (Page.isRecording (Page.remount p) = true ->
      Page.isRecording p = true
      /\ Page.mediaRecorder (Page.remount p) = Page.mediaRecorder p).
Proof.
  unfold Page.remount. destruct (Page.recorder_mounted _); simpl; [easy|].
  repeat split; discriminate.
Qed.

(** An event of the component leaves what the platform has yet to call
    back, and keeps the recorder that is recording if it leaves one. *)
Lemma act_kept (ev : Event) (p : Page.t) :
  Page.stopped (page_step (Page.Act ev) p) = Page.stopped p
  /\ Page.readers (page_step (Page.Act ev) p) = Page.readers p
  /\ (Page.isRecording (page_step (Page.Act ev) p) = true ->
      Page.isRecording p = true
      /\ Page.mediaRecorder (page_step (Page.Act ev) p)
         = Page.mediaRecorder p).
Proof.
  simpl.
  destruct (remount_kept (Page.setApp (after URL_hostname ev (Page.app p)) p))
    as (_ & Hs & Hr & Hrec).
  split; [exact Hs|]. split; [exact Hr|]. exact Hrec.
Qed.

Lemma page_run_app (acts acts' : list Page.Action) (p : Page.t) :
  page_run (acts ++ acts') p = page_run acts' (page_run acts p).
Proof. apply fold_left_app. Qed.

Lemma acts_kept (evs : list Event) (p : Page.t) :
  Page.stopped (page_run (map Page.Act evs) p) = Page.stopped p
  /\ Page.readers (page_run (map Page.Act evs) p) = Page.readers p
  /\ (Page.isRecording (page_run (map Page.Act evs) p) = true ->
      Page.isRecording p = true
      /\ Page.mediaRecorder (page_run (map Page.Act evs) p)
         = Page.mediaRecorder p).
Proof.
  revert p. induction evs as [|ev evs IH]; intros p; [easy|].
  change (page_run (map Page.Act (ev :: evs)) p)
    with (page_run (map Page.Act evs) (page_step (Page.Act ev) p)).
  destruct (IH (page_step (Page.Act ev) p)) as (Hs & Hr & Hrec).
  destruct (act_kept ev p) as (Hs' & Hr' & Hrec').
  split; [congruence|]. split; [congruence|].
  intros H. destruct (Hrec H) as [H1 H2]. destruct (Hrec' H1) as [H3 H4].
  split; [exact H3|congruence].
Qed.

(** X22. A recording that is saved, and an image that was read, write
    the folders of the render in which Rec was pressed, or the file
    chosen, with the new item: the recorder keeps the [onSave] of that
    render and the reader the handler of that render, so that whatever
    the component stored in between, while the recording went on or the
    file was read, is not in the folders the callback leaves. *)
Theorem late_callback_restores_folders (p : Page.t) (sel : Bookmark)
    (during later : list Event) (data iso : jsstring) (now : Z) :
  selectedBookmark (Page.app p) = Some sel ->
  truthy_id (activeFolderId (Page.app p)) = true ->
  (let recording := page_run (Page.Rec true :: map Page.Act during) p in
   Page.isRecording recording = true ->
   folders
     (Page.app
        (page_run
           (Page.Stop
            :: map Page.Act later
            ++ [Page.Recorded (length (Page.stopped p)) (Some data) now
                  iso])
           recording))
   = folders (handleAddMedia voice data now iso (Page.app p)))
  /\ (forall size,
        too_large size = false ->
        folders
          (Page.app
             (page_run
                (Page.Choose (Some size)
                 :: map Page.Act during
                 ++ [Page.Read (length (Page.readers p)) (Some data) now
                       iso])
                p))
        = folders (handleAddMedia image data now iso (Page.app p))).
Proof.
  intros Hsel Hact. split.
  - cbv zeta.
    change (page_run (Page.Rec true :: map Page.Act during) p)
      with (page_run (map Page.Act during) (page_step (Page.Rec true) p)).
    set (p1 := page_step (Page.Rec true) p).
    destruct (acts_kept during p1) as (Hs1 & _ & Hrec1).
    set (p2 := page_run (map Page.Act during) p1) in *.
    intros Hrec. destruct (Hrec1 Hrec) as [_ Hmr].
    change (page_run (Page.Stop :: ?l) p2)
      with (page_run l (page_step Page.Stop p2)).
    rewrite page_run_app.
    assert (Page.stopped (page_step Page.Stop p2)
            = Page.stopped p ++ [Page.app p]) as Hs3.
    { simpl. rewrite Hmr, Hrec. simpl. now rewrite Hs1. }
    destruct (acts_kept later (page_step Page.Stop p2)) as (Hs4 & _ & _).
    set (p4 := page_run (map Page.Act later) (page_step Page.Stop p2)) in *.
    rewrite Hs3 in Hs4. simpl. rewrite Hs4.
    rewrite list_lookup_middle by reflexivity.
    rewrite (proj1 (remount_kept _)). simpl.
    now apply (handleAddMedia_from_folders _ _ _ _ _ _ sel).
  - intros size Hsize.
    change (page_run (Page.Choose (Some size) :: ?l) p)
      with (page_run l (page_step (Page.Choose (Some size)) p)).
    rewrite page_run_app.
    assert (Page.readers (page_step (Page.Choose (Some size)) p)
            = Page.readers p ++ [Page.app p]) as Hr1
      by (simpl; now rewrite Hsize).
    destruct (acts_kept during (page_step (Page.Choose (Some size)) p))
      as (_ & Hr2 & _).
    set (p2 := page_run (map Page.Act during)
                 (page_step (Page.Choose (Some size)) p)) in *.
    rewrite Hr1 in Hr2. simpl. rewrite Hr2.
    rewrite list_lookup_middle by reflexivity.
    rewrite (proj1 (remount_kept _)). simpl.
    now apply (handleAddMedia_from_folders _ _ _ _ _ _ sel).
Qed.

End LateCallbacks.

(* ===================================================================== *)
(** * The further properties on the sample data *)
(* ===================================================================== *)

(** The hypotheses on the events of a sample run, one event at a time. *)
Ltac along_sample :=
  cbv beta iota zeta
      delta [Sample.session Sample.late_session Sample.opening app along
             in_time new_id];
  repeat match goal with
         | |- _ /\ _ => split
         | |- True => exact I
         | |- _ = _ => vm_compute; reflexivity
         | |- _ ∉ _ => apply (bool_decide_unpack _); vm_compute; exact I
         end.

(** The callback of the late session closes over the state two events
    back; no other event of it is a callback. *)
Ltac created_in_sample :=
  cbv beta iota zeta
      delta [Sample.late_session Sample.opening app created_in closure];
  repeat match goal with
         | |- _ /\ _ => split
         | |- True => exact I
         | |- forall seen, None = Some seen -> _ =>
             intros seen Hc; discriminate Hc
         | |- forall seen, Some _ = Some seen -> _ =>
             intros seen Hc; injection Hc as <-;
             apply (list_elem_of_lookup_2 _ 2%nat); reflexivity
         end.

Lemma persist_then_load_witness :
  exists items',
    Store.persist Sample.integer_text Sample.quota (Some ∅) Sample.details
    = (Some items', Sample.details)
    /\ Store.load (Some items') = Store.of_folders (folders Sample.details)
    /\ (forall key,
          key <> Store.storage_key ->
          items' !! key = (∅ : gmap jsstring jsstring) !! key).
Proof.
  apply (persist_then_load Sample.integer_text Sample.quota ∅
           Sample.details).
  - vm_compute. reflexivity.
  - repeat constructor.
Defined.

Lemma persist_refused_witness :
  Store.persist Sample.integer_text Sample.full (Some ∅) Sample.details
  = (Some ∅, Sample.details |> showToast Store.storage_full error)
  /\ folders
       (Store.persist Sample.integer_text Sample.full (Some ∅)
          Sample.details).2
     = folders Sample.details
  /\ Store.load
       (Store.persist Sample.integer_text Sample.full (Some ∅)
          Sample.details).1
     = Store.load (Some ∅).
Proof.
  apply (persist_refused Sample.integer_text Sample.full (Some ∅)
           Sample.details).
  right. exists ∅. split; reflexivity.
Defined.

Lemma folders_are_kept_witness :
  exists added,
    map header
      (folders (run Sample.plain_hostname Sample.session Sample.two_folders))
    = map header (folders Sample.two_folders) ++ added.
Proof.
  apply (folders_are_kept Sample.plain_hostname Sample.session
           Sample.two_folders).
  along_sample.
Defined.

Lemma ids_stay_distinct_witness :
  distinct_ids
    (folders
       (run Sample.plain_hostname Sample.late_session Sample.two_folders)).
Proof.
  apply (ids_stay_distinct Sample.plain_hostname Sample.late_session
           Sample.two_folders).
  - created_in_sample.
  - along_sample.
  - split; apply (bool_decide_unpack _); vm_compute; exact I.
Defined.

Lemma unlocked_opens_at_once_witness :
  activeFolderId
    (after Sample.plain_hostname (SelectFolder (js "default") 500)
       (run Sample.plain_hostname [CloseDetails; ToastExpired]
          Sample.details))
  = Some (js "default").
Proof.
  apply (unlocked_opens_at_once Sample.plain_hostname (js "default") 500
           [CloseDetails; ToastExpired] Sample.details).
  apply (bool_decide_unpack _). vm_compute. exact I.
Defined.

Lemma locked_folder_untouched_witness :
  folders
    (run Sample.plain_hostname Sample.late_session Sample.two_folders)
    !! 1%nat
  = Some Sample.diary.
Proof.
  apply (locked_folder_untouched Sample.plain_hostname Sample.late_session
           Sample.two_folders 1 Sample.diary).
  - intros id H. discriminate H.
  - created_in_sample.
  - reflexivity.
  - discriminate.
  - apply (bool_decide_unpack _). vm_compute. exact I.
Defined.

Lemma active_folder_exists_witness :
  exists f,
    activeFolder
      (run Sample.plain_hostname Sample.session Sample.two_folders)
    = Some f
    /\ f ∈ folders
             (run Sample.plain_hostname Sample.session Sample.two_folders)
    /\ Folder.id f = js "default".
Proof.
  apply (proj1 (active_folder_exists Sample.plain_hostname
                  [Store.defaultFolder; Sample.diary] Sample.session
                  ltac:(along_sample))).
  vm_compute. reflexivity.
Defined.

Lemma scheme_is_kept_witness :
  exists st',
    handleAddBookmark Sample.plain_hostname 1714557600000 Sample.iso
      1714557600000 Sample.iso Sample.adding_capitals = Normal st'.
Proof.
  apply (scheme_is_kept Sample.plain_hostname 1714557600000 1714557600000
           Sample.iso Sample.iso Sample.adding_capitals).
  - discriminate.
  - reflexivity.
  - left. reflexivity.
Defined.

Lemma rejected_url_saves_nothing_witness :
  step Sample.plain_hostname
    (AddBookmark 1714557600000 Sample.iso 1714557600000 Sample.iso)
    Sample.adding_words = Throw TypeError
  /\ after Sample.plain_hostname
       (AddBookmark 1714557600000 Sample.iso 1714557600000 Sample.iso)
       Sample.adding_words = Sample.adding_words.
Proof.
  apply (rejected_url_saves_nothing Sample.plain_hostname 1714557600000
           1714557600000 Sample.iso Sample.iso Sample.adding_words).
  - discriminate.
  - reflexivity.
  - reflexivity.
Defined.

Lemma add_then_delete_bookmark_witness :
  exists st',
    handleAddBookmark Sample.plain_hostname 1714557600000 Sample.iso
      1714557600000 Sample.iso Sample.adding_example = Normal st'
    /\ folders (deleteBookmark (js "1714557600000") true st')
       = folders Sample.adding_example.
Proof.
  eexists. split; [reflexivity|].
  apply (add_then_delete_bookmark Sample.plain_hostname 1714557600000
           1714557600000 Sample.iso Sample.iso Sample.adding_example _
           eq_refl).
  intros f b Hf _ Hb.
  apply list_elem_of_singleton in Hf. subst f.
  now apply elem_of_nil in Hb.
Defined.

Lemma embedUrl_youtube_witness :
  embedUrl (js "https://www.youtube.com/watch?v=dQw4w9WgXcQ")
  = js "https://www.youtube.com/embed/dQw4w9WgXcQ"
  /\ embedUrl (js "https://youtu.be/dQw4w9WgXcQ")
     = js "https://youtube.com/embed/dQw4w9WgXcQ".
Proof.
  split.
  - apply (proj1 (embedUrl_youtube (js "https://www.") (js "dQw4w9WgXcQ"))).
    reflexivity.
  - apply (proj2 (embedUrl_youtube (js "https://") (js "dQw4w9WgXcQ")));
      reflexivity.
Defined.

Lemma video_link_is_attached_witness :
  exists f' b',
    folders (handleAddVideoLink 1714557700000 Sample.iso Sample.linking)
      !! 0%nat = Some f'
    /\ Folder.bookmarks f' !! 0%nat = Some b'
    /\ Bookmark.media b'
       = [ Sample.photo;
           MediaItem.mk (js "1714557700000") video
             (js "https://www.youtube.com/embed/dQw4w9WgXcQ") Sample.iso ].
Proof.
  apply (proj2 (proj2 (video_link_is_attached 1714557700000 Sample.iso
                         Sample.linking))
           Sample.example_bookmark 0%nat 0%nat
           (Folder.with_bookmarks [Sample.example_bookmark]
              Store.defaultFolder)
           Sample.example_bookmark);
    try reflexivity; discriminate.
Defined.

Lemma enchant_without_reply_witness :
  form (Enchant.handleEnchant (js "k") Sample.failing
          Sample.adding_example).2
  = form Sample.adding_example
  /\ toast (Enchant.handleEnchant (js "k") Sample.failing
              Sample.adding_example).2
     = Some (ToastState.mk Enchant.confused error)
  /\ Ai.isEnchanting
       (ai (Enchant.handleEnchant (js "k") Sample.failing
              Sample.adding_example).2) = false
  /\ folders (Enchant.handleEnchant (js "k") Sample.failing
                Sample.adding_example).2
     = folders Sample.adding_example.
Proof.
  apply (enchant_without_reply (js "k") Sample.failing
           Sample.adding_example).
  - discriminate.
  - right. left. reflexivity.
Defined.


Lemma oracle_exchange_witness :
  Ai.oracleHistory
    (ai (OracleChat.handleOracleChat Sample.integer_text (js "k")
           Sample.failing Sample.asking).2)
  = [ ChatMessage.mk model (JStr greeting);
      ChatMessage.mk user (JStr (js "What do I keep?"));
      ChatMessage.mk model (JStr Gateway.severed) ].
Proof.
  apply (proj2 (oracle_exchange Sample.integer_text (js "k") Sample.failing
                  Sample.asking)).
  discriminate.
Defined.

Lemma selection_follows_media_witness :
  exists sel' f',
    selectedBookmark
      (handleAddMedia voice (js "data:audio/webm;base64,AAAA") 1714557700000
         Sample.iso Sample.details) = Some sel'
    /\ f' ∈ folders
              (handleAddMedia voice (js "data:audio/webm;base64,AAAA")
                 1714557700000 Sample.iso Sample.details)
    /\ activeFolderId
         (handleAddMedia voice (js "data:audio/webm;base64,AAAA")
            1714557700000 Sample.iso Sample.details)
       = Some (Folder.id f')
    /\ sel' ∈ Folder.bookmarks f'
    /\ Bookmark.id sel' = Bookmark.id Sample.example_bookmark
    /\ last (Bookmark.media sel')
       = Some (MediaItem.mk (js "1714557700000") voice
                 (js "data:audio/webm;base64,AAAA") Sample.iso).
Proof.
  apply (selection_follows_media voice (js "data:audio/webm;base64,AAAA")
           Sample.iso 1714557700000 Sample.details Sample.example_bookmark
           (Folder.with_bookmarks [Sample.example_bookmark]
              Store.defaultFolder)
           Sample.example_bookmark);
    try reflexivity; try discriminate;
    apply list_elem_of_singleton; reflexivity.
Defined.

(** A video link is attached while a recording goes on; the recording
    is stopped and saved. *)
Lemma late_callback_restores_folders_witness :
  folders
    (Page.app
       (Page.run Sample.plain_hostname
          (Page.Stop
           :: map Page.Act []
           ++ [Page.Recorded
                 (length (Page.stopped (Page.initial Sample.details)))
                 (Some (js "data:audio/webm;base64,AAAA")) 1714557720000
                 Sample.iso])
          (Page.run Sample.plain_hostname
             (Page.Rec true
              :: map Page.Act
                   [ TypeVideoUrl (js "https://youtu.be/dQw4w9WgXcQ");
                     AddVideoLink 1714557700000 Sample.iso ])
             (Page.initial Sample.details))))
  = folders
      (handleAddMedia voice (js "data:audio/webm;base64,AAAA")
         1714557720000 Sample.iso (Page.app (Page.initial Sample.details))).
Proof.
  apply (proj1
           (late_callback_restores_folders Sample.plain_hostname
              (Page.initial Sample.details) Sample.example_bookmark
              [ TypeVideoUrl (js "https://youtu.be/dQw4w9WgXcQ");
                AddVideoLink 1714557700000 Sample.iso ]
              [] (js "data:audio/webm;base64,AAAA") Sample.iso
              1714557720000 eq_refl eq_refl)).
  vm_compute. reflexivity.
Defined.

Lemma formatTime_reads_back_witness :
  AudioRecorder.formatTime 125 = Some (js "2:05").
Proof.
  exact (proj1 (formatTime_reads_back 125
                  (proj1 (N.leb_le 125 (2 ^ 53)) eq_refl))).
Defined.
